(** * picca: the delta x object cross-correlation engine (py/picca/xcf.py)

    A shallow embedding of [xcf.py]: the pair-binning engine
    ([compute_xi], [compute_xi_forest_pairs]), the distortion-matrix
    engine ([compute_dmat], [compute_dmat_forest_pairs],
    [compute_metal_dmat]), the Wick covariance engine ([wickT],
    [fill_wickT1234], [fill_wickT56]), the line-of-sight
    correlation ([xcf1d]) and the neighbour search ([fill_neighs]);
    and, of [data.py], the angle between two lines of sight
    ([qso.__xor__]) and the projection of a delta ([delta.project]).

    Conventions of the embedding.
    - A Python float is an exact rational ([Q]): the functions below
      compute without rounding, and what is proved of them holds of the
      code up to rounding.  The two places where rounding changes what
      the code does, and not only a value in the last place, are given
      in binary64 as well ([xi_forest_pairs_bin_b64],
      [dmat_forest_pairs_bins_b64], [project_pixel_b64]).
      [astype(int)] is truncation towards zero.  A division whose
      divisor is zero yields inf or nan in numpy; every place where
      such a value could reach a cast or an index is guarded explicitly
      below.
    - A one-dimensional numpy array is a [list]; a boolean-masked
      two-dimensional array ([a[w]]) is the list of the selected entries
      in row-major order.
    - Transcendental functions of numpy/scipy ([cos], [sin], [arccos],
      [sqrt], [**]) are taken as given ([MathFns]).
    - A Python exception is [None]; functions that mutate their
      arguments or the entities return the new values. *)

From Stdlib Require Import ZArith QArith Qabs Qround List Bool Lia Lqa.
From Stdlib Require Import SpecFloat.
From stdpp Require Import gmap.
Import ListNotations.
Local Open Scope Q_scope.

(** ** Numbers and numpy primitives *)

Definition Qltb (x y : Q) : bool := negb (Qle_bool y x).

(** [x.astype(int)] for a finite float: truncation towards zero. *)
Definition astype_int (x : Q) : Z := (Qnum x ÷ Z.pos (Qden x))%Z.

Definition sumQ (l : list Q) : Q := fold_right Qplus 0 l.

Definition sumZ (l : list Z) : Z := fold_right Z.add 0%Z l.

(** [np.bincount(bins, weights=...)]: the argument is the list of
    (bin, weight) entries.  A negative bin raises; the result has
    [max(bins) + 1] entries, none for an empty input. *)
Definition bin_total (k : Z) (bw : list (Z * Q)) : Q :=
  sumQ (map snd (List.filter (fun e => (fst e =? k)%Z) bw)).

Definition bincount_len (bins : list Z) : nat :=
  fold_right (fun b n => Nat.max (S (Z.to_nat b)) n) 0%nat bins.

Definition bincount (bw : list (Z * Q)) : option (list Q) :=
  if existsb (fun e => (fst e <? 0)%Z) bw then None
  else Some (map (fun k => bin_total (Z.of_nat k) bw)
                 (seq 0 (bincount_len (map fst bw)))).

(** [a[:len(rebin)] += rebin].  The slice is shorter than [rebin] when
    [rebin] is longer than [a]; numpy then raises, unless [rebin] has one
    entry and the slice is empty (broadcasting onto an empty array). *)
Definition iadd_prefix {A : Type} (add : A -> A -> A) (a rebin : list A)
  : option (list A) :=
  let k := length rebin in
  let slice := firstn k a in
  if (length slice =? k)%nat
  then Some (zip_with add slice rebin ++ skipn k a)
  else if (k =? 1)%nat then Some a
  else None.

(** [a[i]] and [a[i] += v] for a Python integer index: a negative index
    counts from the end, an index out of range raises. *)
Definition norm_index (n : nat) (i : Z) : option nat :=
  if (i <? 0)%Z
  then (if (i + Z.of_nat n <? 0)%Z then None else Some (Z.to_nat (i + Z.of_nat n)))
  else (if (i <? Z.of_nat n)%Z then Some (Z.to_nat i) else None).

Definition getitem {A : Type} (a : list A) (i : Z) : option A :=
  k ← norm_index (length a) i; a !! k.

Definition iadd_at {A : Type} (add : A -> A -> A) (a : list A) (i : Z) (v : A)
  : option (list A) :=
  k ← norm_index (length a) i;
  x ← a !! k;
  Some (<[k := add x v]> a).

(** [np.zeros(n)]; a negative size raises. *)
Definition np_zeros (n : Z) : option (list Q) :=
  if (n <? 0)%Z then None else Some (repeat 0 (Z.to_nat n)).

Definition np_zeros_int (n : Z) : option (list Z) :=
  if (n <? 0)%Z then None else Some (repeat 0%Z (Z.to_nat n)).

(** [np.unique]: the sorted distinct values. *)
Fixpoint insert_unique (x : Z) (l : list Z) : list Z :=
  match l with
  | [] => [x]
  | y :: l' => if (x <? y)%Z then x :: l
               else if (x =? y)%Z then l
               else y :: insert_unique x l'
  end.

Definition np_unique (l : list Z) : list Z := fold_right insert_unique [] l.

(** The functions of numpy and scipy that have no rational counterpart. *)
Record MathFns := {
  np_cos : Q -> Q;
  np_sin : Q -> Q;
  np_arccos : Q -> Q;
  np_sqrt : Q -> Q;
  np_pow : Q -> Q -> Q      (* [x**y] *)
}.

(** ** Entities (py/picca/data.py) *)

(** An object.  [o_id] stands for the identity of the Python object
    (what [np.in1d] compares on arrays of objects). *)
Record Object := {
  o_id : Z;
  o_thingid : Z;
  o_x_cart : Q; o_y_cart : Q; o_z_cart : Q;
  o_z_qso : Q;
  o_weights : Q;
  o_r_comov : Q;
  o_dist_m : Q;
  o_log_lambda : Q
}.

(** A delta.  [neighbours] is [None] once it has been cleared
    ([setattr(delta, "neighbours", None)]). *)
#[local] Unset Elimination Schemes.
Inductive Delta := mkDelta {
  thingid : Z;
  x_cart : Q; y_cart : Q; z_cart : Q;
  z_qso : Q;
  order : Z;
  fname : Z;
  z : list Q;
  r_comov : list Q;
  dist_m : list Q;
  log_lambda : list Q;
  weights : list Q;
  delta : list Q;
  neighbours : option (list Object);
  dneighs : list Delta
}.
#[local] Set Elimination Schemes.

Definition set_neighbours (d : Delta) (n : option (list Object)) : Delta :=
  mkDelta (thingid d) (x_cart d) (y_cart d) (z_cart d) (z_qso d) (order d)
          (fname d) (z d) (r_comov d) (dist_m d) (log_lambda d) (weights d)
          (delta d) n (dneighs d).

(** [qso.__xor__]: the angle between two lines of sight. *)
Definition clip_cos (c : Q) : Q := if Qle_bool 1 c then 1 else c.

Definition xor_obj (M : MathFns) (d : Delta) (o : Object) : Q :=
  np_arccos M (clip_cos (o_x_cart o * x_cart d + o_y_cart o * y_cart d
                         + o_z_cart o * z_cart d)).

Definition xor_delta (M : MathFns) (d d3 : Delta) : Q :=
  np_arccos M (clip_cos (x_cart d3 * x_cart d + y_cart d3 * y_cart d
                         + z_cart d3 * z_cart d)).

(** ** Module-level configuration of xcf.py *)

Record Globals := {
  num_bins_r_par : Z;
  num_bins_r_trans : Z;
  num_model_bins_r_par : Z;
  num_model_bins_r_trans : Z;
  r_par_max : Q;
  r_par_min : Q;
  r_trans_max : Q;
  num_data : Z;
  z_ref : Q;
  z_evol_del : Q;
  z_evol_obj : Q;
  reject : Q;
  ang_correlation : bool;
  max_diagram : Z;
  cfWick : option (list Q);
  cfWick_np : Z;
  cfWick_nt : Z;
  cfWick_rp_min : Q;
  cfWick_rp_max : Q;
  cfWick_rt_max : Q
}.

(** ** The pair-binning mask and the bin indices *)

(** One entry of the outer product of a forest's pixels ([pr_i]) with a
    list of objects ([pr_j]).  [pr_finite] is false when the separation
    is inf or nan (a quotient by zero in angular mode): every comparison
    with it is false. *)
Record Pair := {
  pr_i : nat;
  pr_j : nat;
  pr_finite : bool;
  pr_r_par : Q;
  pr_r_trans : Q;
  pr_z : Q;
  pr_weights12 : Q;
  pr_delta_times_weight : Q
}.

(** [w = (r_par > r_par_min) & (r_par < r_par_max) & (r_trans < r_trans_max)] *)
Definition window (G : Globals) (r_par r_trans : Q) : bool :=
  Qltb (r_par_min G) r_par && Qltb r_par (r_par_max G)
  && Qltb r_trans (r_trans_max G).

Definition pair_mask (G : Globals) (p : Pair) : bool :=
  pr_finite p && window G (pr_r_par p) (pr_r_trans p).

(** [((r_par - r_par_min)/(r_par_max - r_par_min)*n).astype(int)], over
    the rationals.  For [r_par] below [r_par_max] the exact quotient is
    below 1 and the index below [n]; in binary64 the difference
    [r_par - r_par_min] can round up to [r_par_max - r_par_min] and the
    index is then [n]: see [bins_r_par_b64]. *)
Definition bin_r_par (G : Globals) (n : Z) (r_par : Q) : Z :=
  astype_int ((r_par - r_par_min G) / (r_par_max G - r_par_min G) * inject_Z n).

(** [(r_trans/r_trans_max*n).astype(int)] *)
Definition bin_r_trans (G : Globals) (n : Z) (r_trans : Q) : Z :=
  astype_int (r_trans / r_trans_max G * inject_Z n).

(** [bins = bins_r_trans + num_bins_r_trans*bins_r_par] *)
Definition data_bin (G : Globals) (r_par r_trans : Q) : Z :=
  (bin_r_trans G (num_bins_r_trans G) r_trans
   + num_bins_r_trans G * bin_r_par G (num_bins_r_par G) r_par)%Z.

Definition model_bin (G : Globals) (r_par r_trans : Q) : Z :=
  (bin_r_trans G (num_model_bins_r_trans G) r_trans
   + num_model_bins_r_trans G * bin_r_par G (num_model_bins_r_par G) r_par)%Z.

(** The index pairs of an [n1] x [n2] outer product, row-major. *)
Definition outer (n1 n2 : nat) : list (nat * nat) :=
  flat_map (fun i => map (fun j => (i, j)) (seq 0 n2)) (seq 0 n1).

Definition nthQ (l : list Q) (i : nat) : Q := nth i l 0.

(** The arrays of a forest are aligned by pixel, and those of a list of
    objects by object.  The embedding covers the calls in which they
    are: with arrays of different lengths numpy raises, or broadcasts an
    array of one entry, and the call is [None] here. *)
Definition same_length (n : nat) (ls : list (list Q)) : bool :=
  forallb (fun l => (length l =? n)%nat) ls.

Definition nonempty {A : Type} (l : list A) : bool :=
  match l with [] => false | _ :: _ => true end.

(** A surviving pair whose transverse bin would be computed from a
    division by [r_trans_max = 0]: the cast of the resulting inf/nan is
    the most negative integer, which [bincount] and indexing reject. *)
Definition cast_undefined (G : Globals) (sel : list Pair) : bool :=
  Qeq_bool (r_trans_max G) 0 && nonempty sel.

(** ** compute_xi_forest_pairs *)

Definition xi_pair (G : Globals) (M : MathFns)
    (z1 r_comov1 dist_m1 weights1 delta1 z2 r_comov2 dist_m2 weights2 ang : list Q)
    (ij : nat * nat) : Pair :=
  let i := fst ij in
  let j := snd ij in
  {| pr_i := i; pr_j := j;
     pr_finite := if ang_correlation G then negb (Qeq_bool (nthQ r_comov2 j) 0)
                  else true;
     pr_r_par := if ang_correlation G then nthQ r_comov1 i / nthQ r_comov2 j
                 else (nthQ r_comov1 i - nthQ r_comov2 j) * np_cos M (nthQ ang j / 2);
     pr_r_trans := if ang_correlation G then nthQ ang j * 1
                   else (nthQ dist_m1 i + nthQ dist_m2 j) * np_sin M (nthQ ang j / 2);
     pr_z := (nthQ z1 i + nthQ z2 j) / 2;
     pr_weights12 := nthQ weights1 i * nthQ weights2 j;
     pr_delta_times_weight := (nthQ weights1 i * nthQ delta1 i) * nthQ weights2 j |}.

Record XiRebin := {
  rebin_weight : list Q;
  rebin_xi : list Q;
  rebin_r_par : list Q;
  rebin_r_trans : list Q;
  rebin_z : list Q;
  rebin_num_pairs : list Q
}.

Definition indicator (b : bool) : Q := if b then 1 else 0.

(** The six weighted histograms of the selected pairs. *)
Definition xi_rebin (G : Globals) (sel : list Pair) : option XiRebin :=
  if cast_undefined G sel then None else
  let bins := map (fun p => data_bin G (pr_r_par p) (pr_r_trans p)) sel in
  let hist (f : Pair -> Q) := bincount (combine bins (map f sel)) in
  rxi ← hist pr_delta_times_weight;
  rw ← hist pr_weights12;
  rrp ← hist (fun p => pr_r_par p * pr_weights12 p);
  rrt ← hist (fun p => pr_r_trans p * pr_weights12 p);
  rz ← hist (fun p => pr_z p * pr_weights12 p);
  rn ← hist (fun p => indicator (Qltb 0 (pr_weights12 p)));
  Some {| rebin_weight := rw; rebin_xi := rxi; rebin_r_par := rrp;
          rebin_r_trans := rrt; rebin_z := rz; rebin_num_pairs := rn |}.

Definition xi_pairs (G : Globals) (M : MathFns)
    (z1 r_comov1 dist_m1 weights1 delta1 z2 r_comov2 dist_m2 weights2 ang : list Q)
  : list Pair :=
  map (xi_pair G M z1 r_comov1 dist_m1 weights1 delta1 z2 r_comov2 dist_m2
               weights2 ang)
      (outer (length r_comov1) (length r_comov2)).

Definition compute_xi_forest_pairs (G : Globals) (M : MathFns)
    (z1 r_comov1 dist_m1 weights1 delta1 z2 r_comov2 dist_m2 weights2 ang : list Q)
  : option XiRebin :=
  if negb (same_length (length r_comov1) [z1; dist_m1; weights1; delta1]
           && same_length (length r_comov2) [z2; dist_m2; weights2; ang])
  then None
  else xi_rebin G (List.filter (pair_mask G)
         (xi_pairs G M z1 r_comov1 dist_m1 weights1 delta1 z2 r_comov2 dist_m2
                   weights2 ang)).

(** ** The entities of a run and the loops over them *)

(** An entry of [data[healpix]]: a delta with its attributes, or a delta
    whose attributes have all been set to [None] (the end of [xcf1d]). *)
Inductive Entity :=
| Attrs (d : Delta)
| AllNone.

(** [data] and [objs] (dictionaries keyed by healpix), the shared
    progress counter and the number of draws taken from the random
    generator so far. *)
Record World := {
  data : gmap Z (list Entity);
  objs : gmap Z (list Object);
  counter : Z;
  rng_pos : nat
}.

Definition set_data (W : World) (dt : gmap Z (list Entity)) : World :=
  {| data := dt; objs := objs W; counter := counter W; rng_pos := rng_pos W |}.

Definition incr_counter (W : World) : World :=
  {| data := data W; objs := objs W; counter := (counter W + 1)%Z;
     rng_pos := rng_pos W |}.

Definition set_rng_pos (W : World) (n : nat) : World :=
  {| data := data W; objs := objs W; counter := counter W; rng_pos := n |}.

(** [userprint(... round(counter.value*100./num_data, 3) ...)]: only the
    division can fail. *)
Definition progress (G : Globals) : option unit :=
  if (num_data G =? 0)%Z then None else Some tt.

(** [for x in l: body], where the body updates the local state [s], the
    world, and the entity it visits. *)
Fixpoint for_each {S : Type}
    (body : S -> World -> Entity -> option (S * World * Entity))
    (s : S) (W : World) (l : list Entity) : option (S * World * list Entity) :=
  match l with
  | [] => Some (s, W, [])
  | e :: l' =>
      '(s1, W1, e1) ← body s W e;
      '(s2, W2, l2) ← for_each body s1 W1 l';
      Some (s2, W2, e1 :: l2)
  end.

(** [for healpix in healpixs: for delta in data[healpix]: body].  The
    deltas are objects of the store: what the body changes in one is
    seen when the same healpix is visited again. *)
Fixpoint for_healpixs {S : Type}
    (body : Z -> S -> World -> Entity -> option (S * World * Entity))
    (s : S) (W : World) (healpixs : list Z) : option (S * World) :=
  match healpixs with
  | [] => Some (s, W)
  | healpix :: hs =>
      l ← data W !! healpix;
      '(s1, W1, l1) ← for_each (body healpix) s W l;
      for_healpixs body s1 (set_data W1 (<[healpix := l1]> (data W1))) hs
  end.

(** ** compute_xi *)

Record XiAcc := {
  acc_xi : list Q;
  acc_weights : list Q;
  acc_r_par : list Q;
  acc_r_trans : list Q;
  acc_z : list Q;
  acc_num_pairs : list Z
}.

(** The arguments [compute_xi] passes to [compute_xi_forest_pairs]. *)
Definition xi_forest_pairs_of (G : Globals) (M : MathFns) (d : Delta)
    (nb : list Object) : option XiRebin :=
  let ang := map (xor_obj M d) nb in
  let z_qso := map o_z_qso nb in
  let weights_qso := map o_weights nb in
  if ang_correlation G then
    let lambda_qso := map (fun o => np_pow M 10 (o_log_lambda o)) nb in
    let lambda1 := map (np_pow M 10) (log_lambda d) in
    compute_xi_forest_pairs G M (z d) lambda1 lambda1 (weights d) (delta d)
                            z_qso lambda_qso lambda_qso weights_qso ang
  else
    compute_xi_forest_pairs G M (z d) (r_comov d) (dist_m d) (weights d)
                            (delta d) z_qso (map o_r_comov nb)
                            (map o_dist_m nb) weights_qso ang.

Definition xi_accumulate (a : XiAcc) (r : XiRebin) : option XiAcc :=
  x ← iadd_prefix Qplus (acc_xi a) (rebin_xi r);
  w ← iadd_prefix Qplus (acc_weights a) (rebin_weight r);
  rp ← iadd_prefix Qplus (acc_r_par a) (rebin_r_par r);
  rt ← iadd_prefix Qplus (acc_r_trans a) (rebin_r_trans r);
  zz ← iadd_prefix Qplus (acc_z a) (rebin_z r);
  n ← iadd_prefix Z.add (acc_num_pairs a) (map astype_int (rebin_num_pairs r));
  Some {| acc_xi := x; acc_weights := w; acc_r_par := rp; acc_r_trans := rt;
          acc_z := zz; acc_num_pairs := n |}.

Definition compute_xi_body (G : Globals) (M : MathFns)
    (a : XiAcc) (W : World) (e : Entity) : option (XiAcc * World * Entity) :=
  let W1 := incr_counter W in
  _ ← progress G;
  match e with
  | AllNone => None
  | Attrs d =>
      nb ← neighbours d;
      a1 ← (if nonempty nb
            then r ← xi_forest_pairs_of G M d nb; xi_accumulate a r
            else Some a);
      Some (a1, W1, Attrs (set_neighbours d None))
  end.

(** [x[w] /= weights[w]] with [w = weights > 0]. *)
Definition normalize (sums wsum : list Q) : list Q :=
  zip_with (fun s w => if Qltb 0 w then s / w else s) sums wsum.

Record XiResult := {
  res_weights : list Q;
  res_xi : list Q;
  res_r_par : list Q;
  res_r_trans : list Q;
  res_z : list Q;
  res_num_pairs : list Z
}.

Definition xi_zeros (n : Z) : option XiAcc :=
  zq ← np_zeros n;
  zi ← np_zeros_int n;
  Some {| acc_xi := zq; acc_weights := zq; acc_r_par := zq; acc_r_trans := zq;
          acc_z := zq; acc_num_pairs := zi |}.

(** The accumulation loop of [compute_xi], before the normalisation. *)
Definition compute_xi_sums (G : Globals) (M : MathFns) (healpixs : list Z)
    (W : World) : option (XiAcc * World) :=
  a0 ← xi_zeros (num_bins_r_par G * num_bins_r_trans G);
  for_healpixs (fun _ => compute_xi_body G M) a0 W healpixs.

Definition compute_xi (G : Globals) (M : MathFns) (healpixs : list Z)
    (W : World) : option (XiResult * World) :=
  '(a, W') ← compute_xi_sums G M healpixs W;
  let w := acc_weights a in
  Some ({| res_weights := w;
           res_xi := normalize (acc_xi a) w;
           res_r_par := normalize (acc_r_par a) w;
           res_r_trans := normalize (acc_r_trans a) w;
           res_z := normalize (acc_z a) w;
           res_num_pairs := acc_num_pairs a |}, W').

(** ** compute_dmat_forest_pairs *)

(** The accumulators [compute_dmat_forest_pairs] updates in place. *)
Record DmatAcc := {
  weights_dmat : list Q;
  dmat : list Q;
  r_par_eff : list Q;
  r_trans_eff : list Q;
  z_eff : list Q;
  weight_eff : list Q
}.

Definition dmat_pair (M : MathFns)
    (r_comov1 dist_m1 z1 weights1 r_comov2 dist_m2 z2 weights2 ang : list Q)
    (ij : nat * nat) : Pair :=
  let i := fst ij in
  let j := snd ij in
  {| pr_i := i; pr_j := j;
     pr_finite := true;
     pr_r_par := (nthQ r_comov1 i - nthQ r_comov2 j) * np_cos M (nthQ ang j / 2);
     pr_r_trans := (nthQ dist_m1 i + nthQ dist_m2 j) * np_sin M (nthQ ang j / 2);
     pr_z := (nthQ z1 i + nthQ z2 j) / 2;
     pr_weights12 := nthQ weights1 i * nthQ weights2 j;
     pr_delta_times_weight := 0 |}.

Definition dmat_pairs (M : MathFns)
    (r_comov1 dist_m1 z1 weights1 r_comov2 dist_m2 z2 weights2 ang : list Q)
  : list Pair :=
  map (dmat_pair M r_comov1 dist_m1 z1 weights1 r_comov2 dist_m2 z2 weights2 ang)
      (outer (length r_comov1) (length r_comov2)).

Fixpoint fold_opt {A B : Type} (f : B -> A -> option B) (l : list A) (b : B)
  : option B :=
  match l with
  | [] => Some b
  | x :: l' => b' ← f b x; fold_opt f l' b'
  end.

(** [np.average(log_lambda1, weights=weights1)] once the weights are
    known not to sum to zero. *)
Definition average (x w : list Q) : Q := sumQ (zip_with Qmult x w) / sumQ w.

Definition minus_mean (log_lambda1 weights1 : list Q) : list Q :=
  map (fun l => l - average log_lambda1 weights1) log_lambda1.

(** [(weights1*log_lambda_minus_mean1**2).sum()] *)
Definition second_moment (log_lambda1 weights1 : list Q) : Q :=
  sumQ (zip_with (fun w l => w * (l * l)) weights1
                 (minus_mean log_lambda1 weights1)).

(** [ij = (arange(n1)[:, None] + n1*arange(n2))[w]] *)
Definition pair_ij (num_pixels1 : Z) (p : Pair) : Z :=
  (Z.of_nat (pr_i p) + num_pixels1 * Z.of_nat (pr_j p))%Z.

(** [(ij - ij%num_pixels1)//num_pixels1 + num_pixels2*model_bins] *)
Definition eta_index (G : Globals) (num_pixels1 num_pixels2 : Z) (p : Pair) : Z :=
  let ij := pair_ij num_pixels1 p in
  ((ij - ij mod num_pixels1) / num_pixels1
   + num_pixels2 * model_bin G (pr_r_par p) (pr_r_trans p))%Z.

(** The effective separations, redshift and weight of the model bins,
    and the weight of the data bins. *)
Definition dmat_rebin (G : Globals) (sel : list Pair) (A : DmatAcc)
  : option DmatAcc :=
  let model_bins := map (fun p => model_bin G (pr_r_par p) (pr_r_trans p)) sel in
  let bins := map (fun p => data_bin G (pr_r_par p) (pr_r_trans p)) sel in
  rebin ← bincount (combine model_bins
                      (map (fun p => pr_weights12 p * pr_r_par p) sel));
  rp ← iadd_prefix Qplus (r_par_eff A) rebin;
  rebin ← bincount (combine model_bins
                      (map (fun p => pr_weights12 p * pr_r_trans p) sel));
  rt ← iadd_prefix Qplus (r_trans_eff A) rebin;
  rebin ← bincount (combine model_bins
                      (map (fun p => pr_weights12 p * pr_z p) sel));
  ze ← iadd_prefix Qplus (z_eff A) rebin;
  rebin ← bincount (combine model_bins (map pr_weights12 sel));
  we ← iadd_prefix Qplus (weight_eff A) rebin;
  rebin ← bincount (combine bins (map pr_weights12 sel));
  wd ← iadd_prefix Qplus (weights_dmat A) rebin;
  Some {| weights_dmat := wd; dmat := dmat A; r_par_eff := rp;
          r_trans_eff := rt; z_eff := ze; weight_eff := we |}.

(** [eta2]: weight/sum(weights), per object and model bin. *)
Definition dmat_eta2 (G : Globals) (weights1 : list Q)
    (num_pixels1 num_pixels2 : Z) (sel : list Pair) : option (list Q) :=
  eta2 ← np_zeros (num_model_bins_r_par G * num_model_bins_r_trans G * num_pixels2);
  rebin ← bincount
    (combine (map (eta_index G num_pixels1 num_pixels2) sel)
             (map (fun p => nthQ weights1 (pr_i p) * 1 / sumQ weights1) sel));
  iadd_prefix Qplus eta2 rebin.

(** [eta4]: weight*(log_lambda - mean)/second moment, per object and
    model bin.  With a zero second moment the entries of a selected pair
    are nan or inf, and so is every entry of [dmat] the loop below
    touches: such a run has no finite result. *)
Definition dmat_eta4 (G : Globals) (log_lambda1 weights1 : list Q)
    (num_pixels1 num_pixels2 : Z) (sel : list Pair) : option (list Q) :=
  let log_lambda_minus_mean1 := minus_mean log_lambda1 weights1 in
  let m2 := second_moment log_lambda1 weights1 in
  eta4 ← np_zeros (num_model_bins_r_par G * num_model_bins_r_trans G * num_pixels2);
  if Qeq_bool m2 0 && nonempty sel then None else
  rebin ← bincount
    (combine (map (eta_index G num_pixels1 num_pixels2) sel)
             (map (fun p => (nthQ weights1 (pr_i p)
                             * nthQ log_lambda_minus_mean1 (pr_i p)) * 1 / m2) sel));
  iadd_prefix Qplus eta4 rebin.

(** The body of the inner loop: [dmat[unique_model_bin + nm*bin] -= ...] *)
Definition dmat_subtract (G : Globals) (num_pixels1 num_pixels2 : Z)
    (eta2 eta4 log_lambda_minus_mean1 : list Q) (p : Pair)
    (dm : list Q) (unique_model_bin : Z) : option (list Q) :=
  let bin := data_bin G (pr_r_par p) (pr_r_trans p) in
  let i := (pair_ij num_pixels1 p mod num_pixels1)%Z in
  let j := ((pair_ij num_pixels1 p - i) / num_pixels1)%Z in
  e2 ← getitem eta2 (j + num_pixels2 * unique_model_bin)%Z;
  e4 ← getitem eta4 (j + num_pixels2 * unique_model_bin)%Z;
  l ← getitem log_lambda_minus_mean1 i;
  iadd_at Qminus dm
    (unique_model_bin
     + num_model_bins_r_par G * num_model_bins_r_trans G * bin)%Z
    (pr_weights12 p * (e2 + e4 * l)).

(** The body of the loop over the selected pairs. *)
Definition dmat_fill_pair (G : Globals) (num_pixels1 num_pixels2 : Z)
    (eta2 eta4 log_lambda_minus_mean1 : list Q) (unique_model_bins : list Z)
    (dm : list Q) (p : Pair) : option (list Q) :=
  let bin := data_bin G (pr_r_par p) (pr_r_trans p) in
  let mbin := model_bin G (pr_r_par p) (pr_r_trans p) in
  dm1 ← iadd_at Qplus dm
         (mbin + num_model_bins_r_par G * num_model_bins_r_trans G * bin)%Z
         (pr_weights12 p);
  fold_opt (dmat_subtract G num_pixels1 num_pixels2 eta2 eta4
                          log_lambda_minus_mean1 p)
           unique_model_bins dm1.

Definition dmat_fill (G : Globals) (num_pixels1 num_pixels2 : Z)
    (eta2 eta4 log_lambda_minus_mean1 : list Q) (sel : list Pair)
    (dm : list Q) : option (list Q) :=
  fold_opt (dmat_fill_pair G num_pixels1 num_pixels2 eta2 eta4
              log_lambda_minus_mean1
              (np_unique (map (fun p => model_bin G (pr_r_par p) (pr_r_trans p)) sel)))
           sel dm.

Definition set_dmat (A : DmatAcc) (dm : list Q) : DmatAcc :=
  {| weights_dmat := weights_dmat A; dmat := dm; r_par_eff := r_par_eff A;
     r_trans_eff := r_trans_eff A; z_eff := z_eff A; weight_eff := weight_eff A |}.

Definition dmat_selected (G : Globals) (M : MathFns)
    (r_comov1 dist_m1 z1 weights1 r_comov2 dist_m2 z2 weights2 ang : list Q)
  : list Pair :=
  List.filter (pair_mask G)
    (dmat_pairs M r_comov1 dist_m1 z1 weights1 r_comov2 dist_m2 z2 weights2 ang).

Definition compute_dmat_forest_pairs (G : Globals) (M : MathFns)
    (log_lambda1 r_comov1 dist_m1 z1 weights1
     r_comov2 dist_m2 z2 weights2 ang : list Q)
    (A : DmatAcc) : option DmatAcc :=
  if negb (same_length (length log_lambda1) [r_comov1; dist_m1; z1; weights1]
           && same_length (length r_comov2) [dist_m2; z2; weights2; ang])
  then None else
  let sel := dmat_selected G M r_comov1 dist_m1 z1 weights1
                           r_comov2 dist_m2 z2 weights2 ang in
  if cast_undefined G sel then None else
  (* np.average raises when the weights sum to zero *)
  if Qeq_bool (sumQ weights1) 0 then None else
  let num_pixels1 := Z.of_nat (length log_lambda1) in
  let num_pixels2 := Z.of_nat (length r_comov2) in
  A1 ← dmat_rebin G sel A;
  eta2 ← dmat_eta2 G weights1 num_pixels1 num_pixels2 sel;
  eta4 ← dmat_eta4 G log_lambda1 weights1 num_pixels1 num_pixels2 sel;
  dm ← dmat_fill G num_pixels1 num_pixels2 eta2 eta4
         (minus_mean log_lambda1 weights1) sel (dmat A1);
  Some (set_dmat A1 dm).

(** What section 4.3 of the specification asks of a forest of fit order
    [ord]: the linear term [eta4] enters only when [ord] is 1; otherwise
    only the identity term and the mean-subtraction term [eta2] do. *)
Definition spec_dmat_forest_pairs (ord : Z) (G : Globals) (M : MathFns)
    (log_lambda1 r_comov1 dist_m1 z1 weights1
     r_comov2 dist_m2 z2 weights2 ang : list Q)
    (A : DmatAcc) : option DmatAcc :=
  if negb (same_length (length log_lambda1) [r_comov1; dist_m1; z1; weights1]
           && same_length (length r_comov2) [dist_m2; z2; weights2; ang])
  then None else
  let sel := dmat_selected G M r_comov1 dist_m1 z1 weights1
                           r_comov2 dist_m2 z2 weights2 ang in
  if cast_undefined G sel then None else
  if Qeq_bool (sumQ weights1) 0 then None else
  let num_pixels1 := Z.of_nat (length log_lambda1) in
  let num_pixels2 := Z.of_nat (length r_comov2) in
  A1 ← dmat_rebin G sel A;
  eta2 ← dmat_eta2 G weights1 num_pixels1 num_pixels2 sel;
  eta4 ← (if (ord =? 1)%Z
          then dmat_eta4 G log_lambda1 weights1 num_pixels1 num_pixels2 sel
          else np_zeros (num_model_bins_r_par G * num_model_bins_r_trans G
                         * num_pixels2));
  dm ← dmat_fill G num_pixels1 num_pixels2 eta2 eta4
         (minus_mean log_lambda1 weights1) sel (dmat A1);
  Some (set_dmat A1 dm).

(** ** compute_dmat *)

(** [np.random.rand(n)]: the next [n] draws of the generator, each in
    [0, 1).  The generator is the stream [U]; the world records how many
    draws have been taken. *)
Definition rand (U : nat -> Q) (W : World) (n : nat) : list Q * World :=
  (map U (seq (rng_pos W) n), set_rng_pos W (rng_pos W + n)).

(** [w.sum()] and [a[w]] for a boolean array [w]. *)
Definition mask_sum (w : list bool) : Z :=
  Z.of_nat (length (List.filter (fun b => b) w)).

Definition mask_select {A : Type} (w : list bool) (a : list A) : list A :=
  map snd (List.filter fst (combine w a)).

(** [a[w]] raises when the boolean index has not the length of [a]. *)
Definition bool_index {A : Type} (a : list A) (w : list bool) : option (list A) :=
  if (length w =? length a)%nat then Some (mask_select w a) else None.

Record DmatState := {
  dm_acc : DmatAcc;
  dm_num_pairs : Z;
  dm_num_pairs_used : Z
}.

Definition compute_dmat_body (G : Globals) (M : MathFns) (U : nat -> Q)
    (s : DmatState) (W : World) (e : Entity)
  : option (DmatState * World * Entity) :=
  _ ← progress G;
  let W1 := incr_counter W in
  match e with
  | AllNone => None
  | Attrs delta1 =>
      nb ← neighbours delta1;
      let '(r, W2) := rand U W1 (length nb) in
      let w := map (fun u => Qltb (reject G) u) r in
      if (mask_sum w =? 0)%Z then Some (s, W2, Attrs delta1)
      else
        let neighbours := mask_select w nb in
        let ang := map (xor_obj M delta1) neighbours in
        A ← compute_dmat_forest_pairs G M
              (log_lambda delta1) (r_comov delta1) (dist_m delta1) (z delta1)
              (weights delta1)
              (map o_r_comov neighbours) (map o_dist_m neighbours)
              (map o_z_qso neighbours) (map o_weights neighbours) ang
              (dm_acc s);
        Some ({| dm_acc := A;
                 dm_num_pairs := (dm_num_pairs s + Z.of_nat (length nb))%Z;
                 dm_num_pairs_used := (dm_num_pairs_used s + mask_sum w)%Z |},
              W2, Attrs (set_neighbours delta1 None))
  end.

(** [a.reshape(rows, cols)] of a flat array of [rows*cols] entries. *)
Definition reshape (rows cols : nat) (a : list Q) : list (list Q) :=
  map (fun r => firstn cols (skipn (r * cols) a)) (seq 0 rows).

Record DmatResult := {
  out_weights_dmat : list Q;
  out_dmat : list (list Q);
  out_r_par_eff : list Q;
  out_r_trans_eff : list Q;
  out_z_eff : list Q;
  out_weight_eff : list Q;
  out_num_pairs : Z;
  out_num_pairs_used : Z
}.

Definition dmat_zeros (G : Globals) : option DmatState :=
  dm ← np_zeros (num_bins_r_par G * num_bins_r_trans G
                 * num_model_bins_r_trans G * num_model_bins_r_par G);
  wd ← np_zeros (num_bins_r_par G * num_bins_r_trans G);
  me ← np_zeros (num_model_bins_r_trans G * num_model_bins_r_par G);
  Some {| dm_acc := {| weights_dmat := wd; dmat := dm; r_par_eff := me;
                       r_trans_eff := me; z_eff := me; weight_eff := me |};
          dm_num_pairs := 0; dm_num_pairs_used := 0 |}.

Definition dmat_result (G : Globals) (s : DmatState) : DmatResult :=
  let A := dm_acc s in
  {| out_weights_dmat := weights_dmat A;
     out_dmat := reshape (Z.to_nat (num_bins_r_par G * num_bins_r_trans G))
                         (Z.to_nat (num_model_bins_r_par G * num_model_bins_r_trans G))
                         (dmat A);
     out_r_par_eff := r_par_eff A;
     out_r_trans_eff := r_trans_eff A;
     out_z_eff := z_eff A;
     out_weight_eff := weight_eff A;
     out_num_pairs := dm_num_pairs s;
     out_num_pairs_used := dm_num_pairs_used s |}.

Definition compute_dmat (G : Globals) (M : MathFns) (U : nat -> Q)
    (healpixs : list Z) (W : World) : option (DmatResult * World) :=
  s0 ← dmat_zeros G;
  '(s, W') ← for_healpixs (fun _ => compute_dmat_body G M U) s0 W healpixs;
  Some (dmat_result G s, W').

(** ** compute_metal_dmat *)

(** What [compute_metal_dmat] takes from outside xcf.py for the
    absorber [abs_igm]: its rest wavelength
    ([constants.ABSORBER_IGM[abs_igm]]), its evolution exponent
    ([alpha_abs[abs_igm]]) and the distance tables of [cosmo], which
    raise outside their range. *)
Record MetalEnv := {
  absorber_igm : Q;
  alpha_abs_igm : Q;
  get_r_comov : Q -> option Q;
  get_dist_m : Q -> option Q
}.

(** One pixel of the forest paired with [obj2]. *)
Record MetalPair := {
  mp_weights12 : Q;
  mp_w : bool;              (* window on the true geometry *)
  mp_bin : Z;
  mp_r_par_abs : Q;
  mp_r_trans_abs : Q;
  mp_z_weight_evol : Q;
  mp_z : Q;                 (* (z1_abs1 + z2)/2 *)
  mp_model_bin : Z;
  mp_w_abs : bool           (* [w &= ...]: both windows *)
}.

Definition metal_pair (G : Globals) (M : MathFns) (E : MetalEnv)
    (r_comov1 dist_m1 weights1 z1_abs1 r_comov1_abs1 dist_m1_abs1 : list Q)
    (ang : Q) (obj2 : Object) (k : nat) : MetalPair :=
  let r_par := (nthQ r_comov1 k - o_r_comov obj2) * np_cos M (ang / 2) in
  let r_trans := (nthQ dist_m1 k + o_dist_m obj2) * np_sin M (ang / 2) in
  let r_par_abs := (nthQ r_comov1_abs1 k - o_r_comov obj2) * np_cos M (ang / 2) in
  let r_trans_abs := (nthQ dist_m1_abs1 k + o_dist_m obj2) * np_sin M (ang / 2) in
  {| mp_weights12 := nthQ weights1 k * o_weights obj2;
     mp_w := window G r_par r_trans;
     mp_bin := data_bin G r_par r_trans;
     mp_r_par_abs := r_par_abs;
     mp_r_trans_abs := r_trans_abs;
     mp_z_weight_evol := np_pow M ((1 + nthQ z1_abs1 k) / (1 + z_ref G))
                                  (alpha_abs_igm E - 1);
     mp_z := (nthQ z1_abs1 k + o_z_qso obj2) / 2;
     mp_model_bin := model_bin G r_par_abs r_trans_abs;
     mp_w_abs := window G r_par r_trans && window G r_par_abs r_trans_abs |}.

(** The body of [for obj2 in np.array(delta1.neighbours)[w]]. *)
Definition metal_obj (G : Globals) (M : MathFns) (E : MetalEnv) (delta1 : Delta)
    (r_comov1 dist_m1 weights1 z1_abs1 r_comov1_abs1 dist_m1_abs1 : list Q)
    (A : DmatAcc) (obj2 : Object) : option DmatAcc :=
  let ang := xor_obj M delta1 obj2 in
  let ps := map (metal_pair G M E r_comov1 dist_m1 weights1 z1_abs1
                            r_comov1_abs1 dist_m1_abs1 ang obj2)
                (seq 0 (length r_comov1)) in
  let sel := List.filter mp_w ps in
  let sel_abs := List.filter mp_w_abs ps in
  if Qeq_bool (r_trans_max G) 0 && nonempty sel then None else
  rebin ← bincount (map (fun p => (mp_bin p, mp_weights12 p)) sel);
  wd ← iadd_prefix Qplus (weights_dmat A) rebin;
  rebin ← bincount
    (map (fun p => ((mp_model_bin p + num_model_bins_r_par G
                     * num_model_bins_r_trans G * mp_bin p)%Z,
                    mp_weights12 p * mp_z_weight_evol p)) sel_abs);
  dm ← iadd_prefix Qplus (dmat A) rebin;
  rebin ← bincount
    (map (fun p => (mp_model_bin p,
                    mp_r_par_abs p * mp_weights12 p * mp_z_weight_evol p)) sel_abs);
  rp ← iadd_prefix Qplus (r_par_eff A) rebin;
  rebin ← bincount
    (map (fun p => (mp_model_bin p,
                    mp_r_trans_abs p * mp_weights12 p * mp_z_weight_evol p)) sel_abs);
  rt ← iadd_prefix Qplus (r_trans_eff A) rebin;
  rebin ← bincount
    (map (fun p => (mp_model_bin p,
                    mp_z p * mp_weights12 p * mp_z_weight_evol p)) sel_abs);
  ze ← iadd_prefix Qplus (z_eff A) rebin;
  rebin ← bincount
    (map (fun p => (mp_model_bin p, mp_weights12 p * mp_z_weight_evol p)) sel_abs);
  we ← iadd_prefix Qplus (weight_eff A) rebin;
  Some {| weights_dmat := wd; dmat := dm; r_par_eff := rp; r_trans_eff := rt;
          z_eff := ze; weight_eff := we |}.

(** The neighbours the loop of [compute_metal_dmat] runs over for a
    delta whose pixel cut is [w_pix]: the list of neighbours indexed by
    [w_pix], the mask that holds [w] when the loop is reached. *)
Definition metal_processed (nb : list Object) (w_pix : list bool)
  : option (list Object) :=
  bool_index nb w_pix.

Definition compute_metal_dmat_body (G : Globals) (M : MathFns) (E : MetalEnv)
    (U : nat -> Q) (s : DmatState) (W : World) (e : Entity)
  : option (DmatState * World * Entity) :=
  _ ← progress G;
  let W1 := incr_counter W in
  match e with
  | AllNone => None
  | Attrs delta1 =>
      nb ← neighbours delta1;
      let '(r, W2) := rand U W1 (length nb) in
      let w := map (fun u => Qltb (reject G) u) r in
      let s1 := {| dm_acc := dm_acc s;
                   dm_num_pairs := (dm_num_pairs s + Z.of_nat (length nb))%Z;
                   dm_num_pairs_used := (dm_num_pairs_used s + mask_sum w)%Z |} in
      (* with a zero rest wavelength or 1 + z_ref = 0 the shifted
         redshifts or the evolution weights are not finite *)
      if Qeq_bool (absorber_igm E) 0 || Qeq_bool (1 + z_ref G) 0 then None else
      let z1_abs1 := map (fun l => np_pow M 10 l / absorber_igm E - 1)
                         (log_lambda delta1) in
      r_comov1_abs1 ← mapM (get_r_comov E) z1_abs1;
      dist_m1_abs1 ← mapM (get_dist_m E) z1_abs1;
      (* [w] now holds the cut on the pixels *)
      let w := map (fun za => Qltb za (z_qso delta1)) z1_abs1 in
      r_comov1 ← bool_index (r_comov delta1) w;
      dist_m1 ← bool_index (dist_m delta1) w;
      weights1 ← bool_index (weights delta1) w;
      let z1_abs1 := mask_select w z1_abs1 in
      let r_comov1_abs1 := mask_select w r_comov1_abs1 in
      let dist_m1_abs1 := mask_select w dist_m1_abs1 in
      if negb (nonempty r_comov1) then Some (s1, W2, Attrs delta1)
      else
        objs2 ← metal_processed nb w;
        A ← fold_opt (metal_obj G M E delta1 r_comov1 dist_m1 weights1 z1_abs1
                                r_comov1_abs1 dist_m1_abs1)
                     objs2 (dm_acc s1);
        Some ({| dm_acc := A; dm_num_pairs := dm_num_pairs s1;
                 dm_num_pairs_used := dm_num_pairs_used s1 |},
              W2, Attrs (set_neighbours delta1 None))
  end.

Definition compute_metal_dmat (G : Globals) (M : MathFns) (E : MetalEnv)
    (U : nat -> Q) (healpixs : list Z) (W : World)
  : option (DmatResult * World) :=
  s0 ← dmat_zeros G;
  '(s, W') ← for_healpixs (fun _ => compute_metal_dmat_body G M E U) s0 W healpixs;
  Some (dmat_result G s, W').

(** ** The Wick covariance engine *)

(** A two-dimensional array, as the list of its rows. *)
Abbreviation Matrix := (list (list Q)).

(** [np.zeros((n, n))] *)
Definition mzeros (n : Z) : option Matrix :=
  if (n <? 0)%Z then None
  else Some (repeat (repeat 0 (Z.to_nat n)) (Z.to_nat n)).

(** [T[i, j]] and [T[p1, p2] += v] *)
Definition mget (T : Matrix) (i j : Z) : option Q :=
  row ← getitem T i; getitem row j.

Definition miadd (T : Matrix) (p1 p2 : Z) (v : Q) : option Matrix :=
  i ← norm_index (length T) p1;
  row ← T !! i;
  row' ← iadd_at Qplus row p2 v;
  Some (<[i := row']> T).

(** [T[p1, p2] += wcorr; T[p2, p1] += wcorr] *)
Definition miadd_sym (T : Matrix) (p1 p2 : Z) (wcorr : Q) : option Matrix :=
  T' ← miadd T p1 p2 wcorr; miadd T' p2 p1 wcorr.

(** The one-dimensional models [v1d] and [c1d], keyed by [fname] (a
    missing key raises). *)
Record WickEnv := {
  v1d : Z -> option (Q -> Q);
  c1d : Z -> option (Q -> Q)
}.

Record Wick1234 := {
  wAll : list Q;
  num_pairs_wick : list Z;
  T1 : Matrix;
  T2 : Matrix;
  T3 : Matrix;
  T4 : Matrix
}.

(** The redshift-evolution weight [((1 + z)/(1 + z_ref))**(e - 1)]. *)
Definition z_evol (G : Globals) (M : MathFns) (e zz : Q) : Q :=
  np_pow M ((1 + zz) / (1 + z_ref G)) (e - 1).

(** The pairs of a forest and a list of objects, with the transverse
    separation [(r_comov1 + r_comov2)*sin(ang/2)] of the Wick engine. *)
Definition wick_pairs (G : Globals) (M : MathFns)
    (ang r_comov1 r_comov2 z1 z2 weights1 weights2 : list Q) : list Pair :=
  List.filter (pair_mask G)
    (dmat_pairs M r_comov1 r_comov1 z1 weights1 r_comov2 r_comov2 z2 weights2 ang).

(** The body of the loop over [k2]. *)
Definition wick_k2 (G : Globals) (c1d_1 : Matrix) (zw1 zw2 weights1 : list Q)
    (p1 : Pair) (s : Wick1234) (p2 : Pair) : option Wick1234 :=
  let b1 := data_bin G (pr_r_par p1) (pr_r_trans p1) in
  let b2 := data_bin G (pr_r_par p2) (pr_r_trans p2) in
  let i1 := Z.of_nat (pr_i p1) in
  let i2 := Z.of_nat (pr_i p2) in
  let q1 := Z.of_nat (pr_j p1) in
  let q2 := Z.of_nat (pr_j p2) in
  if (q1 =? q2)%Z then
    c ← mget c1d_1 i1 i2;
    zq ← getitem zw2 q1;
    T ← miadd_sym (T2 s) b1 b2 (c * (zq * zq));
    Some {| wAll := wAll s; num_pairs_wick := num_pairs_wick s; T1 := T1 s;
            T2 := T; T3 := T3 s; T4 := T4 s |}
  else if (i1 =? i2)%Z then
    we1 ← getitem weights1 i1;
    zp ← getitem zw1 i1;
    T ← miadd_sym (T3 s) b1 b2 ((pr_weights12 p1 * pr_weights12 p2) / we1 * zp);
    Some {| wAll := wAll s; num_pairs_wick := num_pairs_wick s; T1 := T1 s;
            T2 := T2 s; T3 := T; T4 := T4 s |}
  else
    c ← mget c1d_1 i1 i2;
    zq1 ← getitem zw2 q1;
    zq2 ← getitem zw2 q2;
    T ← miadd_sym (T4 s) b1 b2 (c * zq1 * zq2);
    Some {| wAll := wAll s; num_pairs_wick := num_pairs_wick s; T1 := T1 s;
            T2 := T2 s; T3 := T3 s; T4 := T |}.

(** The loop over [k1]; [sel] holds the pairs from [k1] on.  A selected
    pixel of weight zero makes the quotient by [we1] nan or inf. *)
Fixpoint wick_k1 (G : Globals) (c1d_1 : Matrix) (zw1 zw2 weights1 : list Q)
    (sel : list Pair) (s : Wick1234) : option Wick1234 :=
  match sel with
  | [] => Some s
  | p1 :: rest =>
      let b1 := data_bin G (pr_r_par p1) (pr_r_trans p1) in
      we1 ← getitem weights1 (Z.of_nat (pr_i p1));
      zp ← getitem zw1 (Z.of_nat (pr_i p1));
      if Qeq_bool we1 0 then None else
      wa ← iadd_at Qplus (wAll s) b1 (pr_weights12 p1);
      np ← iadd_at Z.add (num_pairs_wick s) b1 1%Z;
      t1 ← miadd (T1 s) b1 b1 ((pr_weights12 p1 * pr_weights12 p1) / we1 * zp);
      s1 ← fold_opt (wick_k2 G c1d_1 zw1 zw2 weights1 p1) rest
             {| wAll := wa; num_pairs_wick := np; T1 := t1; T2 := T2 s;
                T3 := T3 s; T4 := T4 s |};
      wick_k1 G c1d_1 zw1 zw2 weights1 rest s1
  end.

Definition fill_wickT1234 (G : Globals) (M : MathFns)
    (ang r_comov1 r_comov2 z1 z2 weights1 weights2 : list Q) (c1d_1 : Matrix)
    (s : Wick1234) : option Wick1234 :=
  if negb (same_length (length r_comov1) [z1; weights1]
           && same_length (length r_comov2) [z2; weights2; ang])
  then None else
  let zw1 := map (z_evol G M (z_evol_del G)) z1 in
  let zw2 := map (z_evol G M (z_evol_obj G)) z2 in
  let sel := wick_pairs G M ang r_comov1 r_comov2 z1 z2 weights1 weights2 in
  if negb (nonempty sel) then Some s else
  (* with 1 + z_ref = 0 the weights [zw1] that enter [T1] are not finite *)
  if Qeq_bool (1 + z_ref G) 0 then None else
  if cast_undefined G sel then None else
  wick_k1 G c1d_1 zw1 zw2 weights1 sel s.

(** *** fill_wickT56 *)

(** A bin index that is only defined when [r_trans_max] is not zero;
    using an undefined one as an index raises. *)
Definition data_bin_opt (G : Globals) (p : Pair) : option Z :=
  if Qeq_bool (r_trans_max G) 0 then None
  else Some (data_bin G (pr_r_par p) (pr_r_trans p)).

(** [cf13[i3, i1]]: the value of [cfWick] in the bin of pixel [i1] of
    forest 1 and pixel [i3] of forest 3, zero outside the window of
    [cfWick].  [None] when [cfWick[ba13]] raises. *)
Definition cf13_mask (G : Globals) (M : MathFns) (ang13 x1 x3 : Q) : bool :=
  let r_par := Qabs (x1 - x3) * np_cos M (ang13 / 2) in
  let r_trans := (x1 + x3) * np_sin M (ang13 / 2) in
  Qltb r_par (cfWick_rp_max G) && Qltb r_trans (cfWick_rt_max G)
  && Qle_bool (cfWick_rp_min G) r_par.

Definition cf13_entry (G : Globals) (M : MathFns) (cf : list Q)
    (ang13 x1 x3 : Q) : option Q :=
  let r_par := Qabs (x1 - x3) * np_cos M (ang13 / 2) in
  let r_trans := (x1 + x3) * np_sin M (ang13 / 2) in
  if cf13_mask G M ang13 x1 x3 then
    if Qeq_bool (cfWick_rt_max G) 0 then None else
    let bp := Qfloor ((r_par - cfWick_rp_min G)
                      / (cfWick_rp_max G - cfWick_rp_min G)
                      * inject_Z (cfWick_np G)) in
    let bt := astype_int (r_trans / cfWick_rt_max G * inject_Z (cfWick_nt G)) in
    getitem cf (bt + cfWick_nt G * bp)%Z
  else (_ ← getitem cf 0%Z; Some 0).

Definition wick_t5_inner (G : Globals) (cf13 : Matrix) (p1 : Pair) (T5 : Matrix)
    (p2 : Pair) : option Matrix :=
  b1 ← data_bin_opt G p1;
  b2 ← data_bin_opt G p2;
  c ← mget cf13 (Z.of_nat (pr_i p2)) (Z.of_nat (pr_i p1));
  miadd_sym T5 b1 b2 (c * pr_weights12 p1 * pr_weights12 p2).

Definition wick_t6_inner (G : Globals) (cf13 : Matrix) (thingid2 thingid4 : list Z)
    (p1 : Pair) (T6 : Matrix) (p2 : Pair) : option Matrix :=
  b1 ← data_bin_opt G p1;
  b2 ← data_bin_opt G p2;
  c ← mget cf13 (Z.of_nat (pr_i p2)) (Z.of_nat (pr_i p1));
  if (nth (pr_j p2) thingid4 0 =? nth (pr_j p1) thingid2 0)%Z then Some T6
  else miadd_sym T6 b1 b2 (c * pr_weights12 p1 * pr_weights12 p2).

Definition fill_wickT56 (G : Globals) (M : MathFns)
    (ang12 ang34 : list Q) (ang13 : Q)
    (r_comov1 r_comov2 r3 r4 weights1 weights2 w3 w4 : list Q)
    (thingid2 thingid4 : list Z) (T5 T6 : Matrix) : option (Matrix * Matrix) :=
  if negb (same_length (length r_comov1) [weights1]
           && same_length (length r_comov2) [weights2; ang12]
           && same_length (length r3) [w3]
           && same_length (length r4) [w4; ang34]
           && (length thingid2 =? length r_comov2)%nat
           && (length thingid4 =? length r4)%nat)
  then None else
  (* Pair forest_1 - forest_3 *)
  if negb (existsb (fun x3 => existsb (fun x1 => cf13_mask G M ang13 x1 x3) r_comov1) r3)
  then Some (T5, T6) else
  cf ← cfWick G;
  cf13 ← mapM (fun x3 => mapM (fun x1 => cf13_entry G M cf ang13 x1 x3) r_comov1) r3;
  (* Pair forest_1 - object_2; the redshifts play no part here *)
  let sel12 := wick_pairs G M ang12 r_comov1 r_comov2 r_comov1 r_comov2
                          weights1 weights2 in
  if negb (nonempty sel12) then Some (T5, T6) else
  (* Pair forest_3 - object_4 *)
  let sel34 := wick_pairs G M ang34 r3 r4 r3 r4 w3 w4 in
  if negb (nonempty sel34) then Some (T5, T6) else
  (* T5 *)
  T5' ← fold_opt (fun T p1 =>
            fold_opt (wick_t5_inner G cf13 p1)
              (List.filter (fun p2 => (nth (pr_j p2) thingid4 0
                                       =? nth (pr_j p1) thingid2 0)%Z) sel34) T)
          sel12 T5;
  (* T6 *)
  if (max_diagram G =? 5)%Z then Some (T5', T6) else
  T6' ← fold_opt (fun T p1 =>
            fold_opt (wick_t6_inner G cf13 thingid2 thingid4 p1) sel34 T)
          sel12 T6;
  Some (T5', T6').

(** *** wickT *)

Record WickAcc := {
  w_1234 : Wick1234;
  w_T5 : Matrix;
  w_T6 : Matrix;
  w_num_pairs : Z;
  w_num_pairs_used : Z
}.

(** [c1d_1 = (weights1*weights1[:,None])*c1d[fname](abs(ll - ll[:,None]))
            *sqrt(v1*v1[:,None])] with [v1 = v1d[fname](ll)] *)
Definition c1d_matrix (M : MathFns) (v1f c1f : Q -> Q)
    (log_lambda1 weights1 : list Q) : Matrix :=
  map (fun i =>
         map (fun k =>
                (nthQ weights1 k * nthQ weights1 i)
                * c1f (Qabs (nthQ log_lambda1 k - nthQ log_lambda1 i))
                * np_sqrt M (v1f (nthQ log_lambda1 k) * v1f (nthQ log_lambda1 i)))
             (seq 0 (length log_lambda1)))
      (seq 0 (length log_lambda1)).

(** [np.in1d(a, b)] on arrays of objects. *)
Definition in1d (a b : list Object) : list bool :=
  map (fun x => existsb (fun y => (o_id y =? o_id x)%Z) b) a.

(** The body of [for d3 in sp.array(d1.dneighs)].  The arrays
    [t_ang12], [t_r2], [t_w2] and [t_thingid2] are only bound when
    [max_diagram == 5]. *)
Definition wick_d3 (G : Globals) (M : MathFns) (d1 : Delta) (nb1 : list Object)
    (T : Matrix * Matrix) (d3 : Delta) : option (Matrix * Matrix) :=
  nb3 ← neighbours d3;
  if negb (nonempty nb3) then Some T else
  let ang13 := xor_delta M d1 d3 in
  if (max_diagram G =? 5)%Z then
    let w := in1d nb1 nb3 in
    if (mask_sum w =? 0)%Z then Some T else
    let t2 := mask_select w nb1 in
    let w' := in1d nb3 nb1 in
    if (mask_sum w' =? 0)%Z then Some T else
    let t4 := mask_select w' nb3 in
    fill_wickT56 G M (map (xor_obj M d1) t2) (map (xor_obj M d3) t4) ang13
                 (r_comov d1) (map o_r_comov t2) (r_comov d3) (map o_r_comov t4)
                 (weights d1) (map o_weights t2) (weights d3) (map o_weights t4)
                 (map o_thingid t2) (map o_thingid t4) (fst T) (snd T)
  else None.

(** The part of the loop body after [### Higher order diagrams]. *)
Definition wick_higher (G : Globals) (M : MathFns) (d1 : Delta)
    (nb1 : list Object) (T : Matrix * Matrix) : option (Matrix * Matrix) :=
  match cfWick G with
  | None => Some T
  | Some _ =>
      if (max_diagram G <=? 4)%Z then Some T
      else fold_opt (wick_d3 G M d1 nb1) (dneighs d1) T
  end.

(** The body of [for d1 in ...], with the treatment of the higher
    orders as a parameter. *)
Definition wick_d1
    (higher : Delta -> list Object -> Matrix * Matrix -> option (Matrix * Matrix))
    (G : Globals) (M : MathFns) (E : WickEnv)
    (sW : WickAcc * World) (e : Entity) : option (WickAcc * World) :=
  let '(s, W) := sW in
  if (num_data G =? 0)%Z || Qeq_bool (1 - reject G) 0 then None else
  let W1 := incr_counter W in
  match e with
  | AllNone => None
  | Attrs d1 =>
      nb ← neighbours d1;
      if negb (nonempty nb) then Some (s, W1) else
      v1f ← v1d E (fname d1);
      c1f ← c1d E (fname d1);
      if negb (length (weights d1) =? length (log_lambda d1))%nat then None else
      let c1d_1 := c1d_matrix M v1f c1f (log_lambda d1) (weights d1) in
      s1 ← fill_wickT1234 G M (map (xor_obj M d1) nb) (r_comov d1)
             (map o_r_comov nb) (z d1) (map o_z_qso nb) (weights d1)
             (map o_weights nb) c1d_1 (w_1234 s);
      '(t5, t6) ← higher d1 nb (w_T5 s, w_T6 s);
      Some ({| w_1234 := s1; w_T5 := t5; w_T6 := t6;
               w_num_pairs := w_num_pairs s;
               w_num_pairs_used := w_num_pairs_used s |}, W1)
  end.

(** The body of [for healpix in pix]. *)
Definition wick_healpix
    (higher : Delta -> list Object -> Matrix * Matrix -> option (Matrix * Matrix))
    (G : Globals) (M : MathFns) (E : WickEnv) (U : nat -> Q)
    (sW : WickAcc * World) (healpix : Z) : option (WickAcc * World) :=
  let '(s, W) := sW in
  l ← data W !! healpix;
  let '(r, W1) := rand U W (length l) in
  let w := map (fun u => Qltb (reject G) u) r in
  let s1 := {| w_1234 := w_1234 s; w_T5 := w_T5 s; w_T6 := w_T6 s;
               w_num_pairs := (w_num_pairs s + Z.of_nat (length l))%Z;
               w_num_pairs_used := (w_num_pairs_used s + mask_sum w)%Z |} in
  if (mask_sum w =? 0)%Z then Some (s1, W1)
  else fold_opt (wick_d1 higher G M E) (mask_select w l) (s1, W1).

Record WickResult := {
  wr_wAll : list Q;
  wr_num_pairs_wick : list Z;
  wr_num_pairs : Z;
  wr_num_pairs_used : Z;
  wr_T1 : Matrix;
  wr_T2 : Matrix;
  wr_T3 : Matrix;
  wr_T4 : Matrix;
  wr_T5 : Matrix;
  wr_T6 : Matrix
}.

Definition wick_zeros (G : Globals) : option WickAcc :=
  let n := (num_bins_r_par G * num_bins_r_trans G)%Z in
  T ← mzeros n;
  wa ← np_zeros n;
  np ← np_zeros_int n;
  Some {| w_1234 := {| wAll := wa; num_pairs_wick := np; T1 := T; T2 := T;
                       T3 := T; T4 := T |};
          w_T5 := T; w_T6 := T; w_num_pairs := 0; w_num_pairs_used := 0 |}.

Definition wick_result (s : WickAcc) : WickResult :=
  {| wr_wAll := wAll (w_1234 s);
     wr_num_pairs_wick := num_pairs_wick (w_1234 s);
     wr_num_pairs := w_num_pairs s;
     wr_num_pairs_used := w_num_pairs_used s;
     wr_T1 := T1 (w_1234 s); wr_T2 := T2 (w_1234 s);
     wr_T3 := T3 (w_1234 s); wr_T4 := T4 (w_1234 s);
     wr_T5 := w_T5 s; wr_T6 := w_T6 s |}.

Definition wickT_with
    (higher : Delta -> list Object -> Matrix * Matrix -> option (Matrix * Matrix))
    (G : Globals) (M : MathFns) (E : WickEnv) (U : nat -> Q)
    (pix : list Z) (W : World) : option (WickResult * World) :=
  s0 ← wick_zeros G;
  '(s, W') ← fold_opt (wick_healpix higher G M E U) pix (s0, W);
  Some (wick_result s, W').

Definition wickT (G : Globals) (M : MathFns) (E : WickEnv) (U : nat -> Q)
    (pix : list Z) (W : World) : option (WickResult * World) :=
  wickT_with (wick_higher G M) G M E U pix W.

(** ** xcf1d *)

(** The signature of [fast_xcf], the function [xcf1d] calls; xcf.py does
    not define it. *)
Definition FastXcf : Type :=
  list Q -> list Q -> list Q -> list Q -> list Q ->
  list Q -> list Q -> list Q -> list Q -> list Q -> option XiRebin.

Record Xcf1dAcc := {
  x_xi : list Q;
  x_weights : list Q;
  x_r_par : list Q;
  x_z : list Q;
  x_num_pairs : list Z
}.

Definition xcf1d_body (M : MathFns) (fast_xcf : FastXcf) (healpix : Z)
    (a : Xcf1dAcc) (W : World) (e : Entity)
  : option (Xcf1dAcc * World * Entity) :=
  os ← objs W !! healpix;
  match e with
  | AllNone => Some (a, W, e)        (* no [q.thingid] equals [None] *)
  | Attrs d =>
      let neighbours := List.filter (fun q => (o_thingid q =? thingid d)%Z) os in
      if negb (nonempty neighbours) then Some (a, W, e) else
      let z_qso := map o_z_qso neighbours in
      let weights_qso := map o_weights neighbours in
      let lambda_qso := map (fun q => np_pow M 10 (o_log_lambda q)) neighbours in
      let ang := map (fun _ => 0) lambda_qso in
      let lambda1 := map (np_pow M 10) (log_lambda d) in
      r ← fast_xcf (z d) lambda1 lambda1 (weights d) (delta d)
                   z_qso lambda_qso lambda_qso weights_qso ang;
      xi ← iadd_prefix Qplus (x_xi a) (rebin_xi r);
      w ← iadd_prefix Qplus (x_weights a) (rebin_weight r);
      rp ← iadd_prefix Qplus (x_r_par a) (rebin_r_par r);
      zz ← iadd_prefix Qplus (x_z a) (rebin_z r);
      n ← iadd_prefix Z.add (x_num_pairs a) (map astype_int (rebin_num_pairs r));
      (* for el in list(d.__dict__.keys()): setattr(d, el, None) *)
      Some ({| x_xi := xi; x_weights := w; x_r_par := rp; x_z := zz;
               x_num_pairs := n |}, W, AllNone)
  end.

Record Xcf1dResult := {
  x1_weights : list Q;
  x1_xi : list Q;
  x1_r_par : list Q;
  x1_z : list Q;
  x1_num_pairs : list Z
}.

Definition xcf1d (G : Globals) (M : MathFns) (fast_xcf : FastXcf)
    (pix : list Z) (W : World) : option (Xcf1dResult * World) :=
  zq ← np_zeros (num_bins_r_par G);
  zi ← np_zeros_int (num_bins_r_par G);
  '(a, W') ← for_healpixs (xcf1d_body M fast_xcf)
               {| x_xi := zq; x_weights := zq; x_r_par := zq; x_z := zq;
                  x_num_pairs := zi |} W pix;
  let w := x_weights a in
  Some ({| x1_weights := w;
           x1_xi := normalize (x_xi a) w;
           x1_r_par := normalize (x_r_par a) w;
           x1_z := normalize (x_z a) w;
           x1_num_pairs := x_num_pairs a |}, W').

(** [fast_xcf] as xcf.py has it: the name is not bound, the call raises. *)
Definition fast_xcf_unbound : FastXcf := fun _ _ _ _ _ _ _ _ _ _ => None.

(** ** fill_neighs *)

(** What [fill_neighs] takes from outside the loop: the module-level
    [ang_max], [z_cut_min] and [z_cut_max], and healpy's [query_disc] at
    the module's [nside] and [ang_max], as a function of the centre. *)
Record NeighEnv := {
  ang_max : Q;
  z_cut_min : Q;
  z_cut_max : Q;
  query_disc : Q -> Q -> Q -> list Z
}.

(** The objects of the healpixs of the disc that are keys of [objs],
    but for those with the [thingid] of the delta. *)
Definition neigh_candidates (N : NeighEnv) (W : World) (d : Delta) : list Object :=
  let healpix_neighbours :=
    List.filter (fun other_healpix =>
                   match objs W !! other_healpix with Some _ => true | None => false end)
                (query_disc N (x_cart d) (y_cart d) (z_cart d)) in
  flat_map (fun other_healpix =>
              List.filter (fun obj => negb (o_thingid obj =? thingid d)%Z)
                          (default [] (objs W !! other_healpix)))
           healpix_neighbours.

(** [w = ang < ang_max], and outside the angular mode
    [w &= (r_comov[0] - r)*cos(ang/2) < r_par_max] and
    [w &= (r_comov[-1] - r)*cos(ang/2) > r_par_min]. *)
Definition neigh_ang (M : MathFns) (N : NeighEnv) (d : Delta) (obj : Object) : bool :=
  Qltb (xor_obj M d obj) (ang_max N).

Definition neigh_r_par (G : Globals) (M : MathFns) (d : Delta)
    (r_first r_last : Q) (obj : Object) : bool :=
  Qltb ((r_first - o_r_comov obj) * np_cos M (xor_obj M d obj / 2)) (r_par_max G)
  && Qltb (r_par_min G)
          ((r_last - o_r_comov obj) * np_cos M (xor_obj M d obj / 2)).

(** [z_cut_min <= (z[-1] + z_qso)/2 < z_cut_max] *)
Definition neigh_z_cut (N : NeighEnv) (z_last : Q) (obj : Object) : bool :=
  Qle_bool (z_cut_min N) ((z_last + o_z_qso obj) / 2)
  && Qltb ((z_last + o_z_qso obj) / 2) (z_cut_max N).

(** The body of the inner loop: the new value of the delta.  Indexing
    an empty [r_comov] or [z] raises. *)
Definition fill_neighs_delta (G : Globals) (M : MathFns) (N : NeighEnv)
    (W : World) (d : Delta) : option Delta :=
  let neighbours := neigh_candidates N W d in
  w ← (if ang_correlation G then Some (map (neigh_ang M N d) neighbours)
       else
         r_first ← getitem (r_comov d) 0%Z;
         r_last ← getitem (r_comov d) (-1)%Z;
         Some (map (fun obj => neigh_ang M N d obj
                               && neigh_r_par G M d r_first r_last obj)
                   neighbours));
  let neighbours := mask_select w neighbours in
  nb ← (if nonempty neighbours
        then z_last ← getitem (z d) (-1)%Z;
             Some (List.filter (neigh_z_cut N z_last) neighbours)
        else Some []);
  Some (set_neighbours d (Some nb)).

(** A delta whose coordinates are [None] cannot be the centre of a
    disc. *)
Definition fill_neighs_body (G : Globals) (M : MathFns) (N : NeighEnv)
    (_ : Z) (s : unit) (W : World) (e : Entity) : option (unit * World * Entity) :=
  match e with
  | AllNone => None
  | Attrs d => d' ← fill_neighs_delta G M N W d; Some (s, W, Attrs d')
  end.

Definition fill_neighs (G : Globals) (M : MathFns) (N : NeighEnv)
    (healpixs : list Z) (W : World) : option World :=
  '(_, W') ← for_healpixs (fill_neighs_body G M N) tt W healpixs;
  Some W'.

(** ** delta.project (py/picca/data.py) *)

(** [delta.project]: the new [de] of a delta of fit order [order] with
    the arrays [ll], [we] and [de], over the rationals.  [np.average]
    raises when its two arrays have not the same length or when the
    weights sum to zero.  The embedding covers the calls in which the
    second moment of [ll] is not zero: where it is zero the result of
    the code is made of rounding alone (the slope [mld] is nan or inf
    when the float moment is zero as well, and a quotient of two
    rounding errors otherwise: see [project_pixel_b64]), and the call
    is [None] here. *)
Definition project (order : Z) (ll we de : list Q) : option (list Q) :=
  if negb (length de =? length we)%nat then None else
  if Qeq_bool (sumQ we) 0 then None else
  let mde := average de we in
  if (order =? 1)%Z then
    if negb (length ll =? length we)%nat then None else
    let mll := average ll we in
    let ll_minus_mll := map (fun l => l - mll) ll in
    let den := sumQ (zip_with (fun w l => w * (l * l)) we ll_minus_mll) in
    if Qeq_bool den 0 then None else
    let mld := sumQ (zip_with Qmult (zip_with Qmult we de) ll_minus_mll) / den in
    let res := map (fun l => mld * l) ll_minus_mll in
    Some (zip_with (fun d r => d - (mde + r)) de res)
  else Some (map (fun d => d - (mde + 0)) de).

(** ** The lines that depend on rounding, in binary64

    The definitions above compute over exact rationals.  Two places of
    the code have an outcome that rounding changes: the bin index of a
    pair at the upper edge of the window, and the projection of a
    one-pixel delta.  They are given here in the arithmetic the code
    runs in, IEEE 754 binary64 with rounding to nearest even, over the
    operations of [SpecFloat]. *)

Definition b64 : Type := spec_float.

(** The conversion of a Python [int] to a float. *)
Definition b64_of_Z (n : Z) : b64 := binary_normalize 53 1024 n 0 false.

Definition b64_add : b64 -> b64 -> b64 := SFadd 53 1024.
Definition b64_sub : b64 -> b64 -> b64 := SFsub 53 1024.
Definition b64_mul : b64 -> b64 -> b64 := SFmul 53 1024.
Definition b64_div : b64 -> b64 -> b64 := SFdiv 53 1024.

(** The exact value of a finite float. *)
Definition b64_to_Q (x : b64) : Q :=
  match x with
  | S754_finite s m e => inject_Z (cond_Zopp s (Z.pos m)) * Qpower 2 e
  | _ => 0
  end.

(** [x.astype(int)]: truncation towards zero; the cast of a nan, of an
    inf or of a value outside the range of [int64] is the most negative
    integer. *)
Definition b64_astype_int (x : b64) : Z :=
  let t := match x with
           | S754_finite s m (Z.neg k) => cond_Zopp s (Z.shiftr (Z.pos m) (Z.pos k))
           | S754_finite s m e => cond_Zopp s (Z.shiftl (Z.pos m) e)
           | S754_zero _ => 0
           | _ => - 2 ^ 63
           end%Z in
  if ((- 2 ^ 63 <=? t) && (t <? 2 ^ 63))%Z then t else (- 2 ^ 63)%Z.

(** The module-level grid. *)
Record Grid64 := {
  g_r_par_min : b64;
  g_r_par_max : b64;
  g_r_trans_max : b64;
  g_num_bins_r_par : Z;
  g_num_bins_r_trans : Z;
  g_num_model_bins_r_par : Z;
  g_num_model_bins_r_trans : Z
}.

(** [(r_comov1[:, None] - r_comov2)*np.cos(ang/2)] and
    [(dist_m1[:, None] + dist_m2)*np.sin(ang/2)] for one pixel and one
    object, the cosine and the sine being given. *)
Definition pair_r_par_b64 (r_comov1 r_comov2 cos_half : b64) : b64 :=
  b64_mul (b64_sub r_comov1 r_comov2) cos_half.

Definition pair_r_trans_b64 (dist_m1 dist_m2 sin_half : b64) : b64 :=
  b64_mul (b64_add dist_m1 dist_m2) sin_half.

(** [w = (r_par > r_par_min) & (r_par < r_par_max) & (r_trans < r_trans_max)] *)
Definition window_b64 (g : Grid64) (r_par r_trans : b64) : bool :=
  SFltb (g_r_par_min g) r_par && SFltb r_par (g_r_par_max g)
  && SFltb r_trans (g_r_trans_max g).

(** [((r_par - r_par_min)/(r_par_max - r_par_min)*n).astype(int)] *)
Definition bins_r_par_b64 (g : Grid64) (n : Z) (r_par : b64) : Z :=
  b64_astype_int
    (b64_mul (b64_div (b64_sub r_par (g_r_par_min g))
                      (b64_sub (g_r_par_max g) (g_r_par_min g)))
             (b64_of_Z n)).

(** [(r_trans/r_trans_max*n).astype(int)] *)
Definition bins_r_trans_b64 (g : Grid64) (n : Z) (r_trans : b64) : Z :=
  b64_astype_int (b64_mul (b64_div r_trans (g_r_trans_max g)) (b64_of_Z n)).

(** Lines 213 to 223 of [compute_xi_forest_pairs] for one pair: its flat
    bin, [None] when the mask leaves the pair out. *)
Definition xi_forest_pairs_bin_b64 (g : Grid64) (r_par r_trans : b64) : option Z :=
  if window_b64 g r_par r_trans
  then Some (bins_r_trans_b64 g (g_num_bins_r_trans g) r_trans
             + g_num_bins_r_trans g * bins_r_par_b64 g (g_num_bins_r_par g) r_par)%Z
  else None.

(** Lines 347 to 362 of [compute_dmat_forest_pairs] for one pair: its
    flat data bin and its flat model bin, [None] when the mask leaves
    the pair out. *)
Definition dmat_forest_pairs_bins_b64 (g : Grid64) (r_par r_trans : b64)
  : option (Z * Z) :=
  if window_b64 g r_par r_trans
  then Some ((bins_r_trans_b64 g (g_num_bins_r_trans g) r_trans
              + g_num_bins_r_trans g * bins_r_par_b64 g (g_num_bins_r_par g) r_par)%Z,
             (bins_r_trans_b64 g (g_num_model_bins_r_trans g) r_trans
              + g_num_model_bins_r_trans g
                * bins_r_par_b64 g (g_num_model_bins_r_par g) r_par)%Z)
  else None.

(** [delta.project] on a delta of one pixel: the sums of [np.average]
    and of [sp.sum] are their single term.  [np.average] raises when the
    weight is zero; a quotient by zero is an inf or a nan of the result. *)
Definition project_pixel_b64 (order : Z) (ll we de : b64) : option b64 :=
  if SFeqb we (b64_of_Z 0) then None else
  let mde := b64_div (b64_mul de we) we in
  if (order =? 1)%Z then
    let mll := b64_div (b64_mul ll we) we in
    let mld := b64_div (b64_mul (b64_mul we de) (b64_sub ll mll))
                       (b64_mul we (b64_mul (b64_sub ll mll) (b64_sub ll mll))) in
    let res := b64_mul mld (b64_sub ll mll) in
    Some (b64_sub de (b64_add mde res))
  else Some (b64_sub de (b64_add mde (b64_of_Z 0))).

(** ** Predicates of the statements *)






Definition world_all (P : Entity -> Prop) (W : World) : Prop :=
  forall h l, data W !! h = Some l -> Forall P l.

(** The mask of the draw: [w = np.random.rand(n) > reject]. *)
Definition draw_mask (G : Globals) (U : nat -> Q) (W : World) (n : nat) : list bool :=
  map (fun u => Qltb (reject G) u) (map U (seq (rng_pos W) n)).

Definition all_zero (l : list Q) : Prop := Forall (fun x => x = 0) l.

Definition entry (T : Matrix) (i j : nat) : option Q := row ← T !! i; row !! j.

Definition square (n : nat) (T : Matrix) : Prop :=
  length T = n /\ Forall (fun row => length row = n) T.

Definition symmetric (T : Matrix) : Prop :=
  forall i j, entry T i j = entry T j i.

Definition diagonal (T : Matrix) : Prop :=
  forall i j x, i <> j -> entry T i j = Some x -> x = 0.

Definition sym_ok (n : nat) (T : Matrix) : Prop := square n T /\ symmetric T.

Definition diag_ok (n : nat) (T : Matrix) : Prop := square n T /\ diagonal T.

Definition wick_ok (n : nat) (s : Wick1234) : Prop :=
  diag_ok n (T1 s) /\ sym_ok n (T2 s) /\ sym_ok n (T3 s) /\ sym_ok n (T4 s).

Definition wick_acc_ok (n : nat) (s : WickAcc) : Prop :=
  wick_ok n (w_1234 s) /\ sym_ok n (w_T5 s) /\ sym_ok n (w_T6 s).

Definition higher_ok (n : nat)
    (higher : Delta -> list Object -> Matrix * Matrix -> option (Matrix * Matrix))
  : Prop :=
  forall d nb T T',
    sym_ok n (fst T) /\ sym_ok n (snd T) -> higher d nb T = Some T' ->
    sym_ok n (fst T') /\ sym_ok n (snd T').

(** [e'] is [e] up to its [neighbours], which are kept or cleared. *)
Definition only_neighbours (e e' : Entity) : Prop :=
  match e, e' with
  | Attrs d, Attrs d' =>
      thingid d' = thingid d /\ x_cart d' = x_cart d /\ y_cart d' = y_cart d
      /\ z_cart d' = z_cart d /\ z_qso d' = z_qso d /\ order d' = order d
      /\ fname d' = fname d /\ z d' = z d /\ r_comov d' = r_comov d
      /\ dist_m d' = dist_m d /\ log_lambda d' = log_lambda d
      /\ weights d' = weights d /\ delta d' = delta d
      /\ dneighs d' = dneighs d
      /\ (neighbours d' = neighbours d \/ neighbours d' = None)
  | AllNone, AllNone => True
  | _, _ => False
  end.

(** [e'] is [e], or every attribute of [e] has been set to [None]. *)
Definition same_or_all_none (e e' : Entity) : Prop := e' = e \/ e' = AllNone.

(** The objects are untouched, and the deltas of every healpix are
    related one by one. *)
Definition world_frame (R : Entity -> Entity -> Prop) (W W' : World) : Prop :=
  objs W' = objs W
  /\ forall h, option_Forall2 (Forall2 R) (data W !! h) (data W' !! h).

(** The six accumulators of [compute_xi] have [n] entries each. *)
Definition xi_acc_shape (n : nat) (a : XiAcc) : Prop :=
  length (acc_xi a) = n /\ length (acc_weights a) = n /\ length (acc_r_par a) = n
  /\ length (acc_r_trans a) = n /\ length (acc_z a) = n
  /\ length (acc_num_pairs a) = n.

(** A delta whose neighbours have been cleared, or all of whose
    attributes have. *)
Definition spent (e : Entity) : Prop :=
  match e with
  | Attrs d => neighbours d = None
  | AllNone => True
  end.

(** The accumulators of the distortion matrix have [n] data bins and
    [m] model bins. *)
Definition dmat_shape (n m : nat) (A : DmatAcc) : Prop :=
  length (weights_dmat A) = n /\ length (dmat A) = (n * m)%nat
  /\ length (r_par_eff A) = m /\ length (r_trans_eff A) = m
  /\ length (z_eff A) = m /\ length (weight_eff A) = m.

(** The state of the loop of [compute_dmat]: the shape is kept, the two
    weight totals agree and the counters are ordered. *)
Definition dmat_state_ok (n m : nat) (s : DmatState) : Prop :=
  dmat_shape n m (dm_acc s)
  /\ sumQ (weights_dmat (dm_acc s)) == sumQ (weight_eff (dm_acc s))
  /\ (0 <= dm_num_pairs_used s <= dm_num_pairs s)%Z.

(** The state of the loop of [compute_metal_dmat]. *)
Definition metal_state_ok (n m : nat) (s : DmatState) : Prop :=
  dmat_shape n m (dm_acc s) /\ (0 <= dm_num_pairs_used s <= dm_num_pairs s)%Z.

(** The number of deltas stored under the healpixs of a list. *)
Definition num_deltas (W : World) (pix : list Z) : Z :=
  sumZ (map (fun h => Z.of_nat (length (default [] (data W !! h)))) pix).

(** What the visit of one delta by [wickT] leaves unchanged. *)
Definition wick_d1_keeps (sW sW' : WickAcc * World) : Prop :=
  w_T6 (fst sW') = w_T6 (fst sW)
  /\ w_num_pairs (fst sW') = w_num_pairs (fst sW)
  /\ w_num_pairs_used (fst sW') = w_num_pairs_used (fst sW)
  /\ data (snd sW') = data (snd sW)
  /\ rng_pos (snd sW') = rng_pos (snd sW).

(** No object of [os] has the [thingid] of the delta [e]. *)
Definition no_match (os : list Object) (e : Entity) : Prop :=
  match e with
  | Attrs d => Forall (fun q => o_thingid q <> thingid d) os
  | AllNone => True
  end.

(** [e'] is [e] up to its [neighbours]. *)
Definition up_to_neighbours (e e' : Entity) : Prop :=
  match e, e' with
  | Attrs d, Attrs d' => set_neighbours d' None = set_neighbours d None
  | AllNone, AllNone => True
  | _, _ => False
  end.

(** What [fill_neighs] guarantees of a neighbour [obj] of the delta [d]. *)
Definition neighbour_ok (G : Globals) (M : MathFns) (N : NeighEnv)
    (catalogue : gmap Z (list Object)) (d : Delta) (obj : Object) : Prop :=
  o_thingid obj <> thingid d
  /\ (exists other_healpix os,
        In other_healpix (query_disc N (x_cart d) (y_cart d) (z_cart d))
        /\ catalogue !! other_healpix = Some os /\ In obj os)
  /\ xor_obj M d obj < ang_max N
  /\ (exists z_last,
        getitem (z d) (-1)%Z = Some z_last
        /\ z_cut_min N <= (z_last + o_z_qso obj) / 2
        /\ (z_last + o_z_qso obj) / 2 < z_cut_max N)
  /\ (ang_correlation G = false ->
      exists r_first r_last,
        getitem (r_comov d) 0%Z = Some r_first
        /\ getitem (r_comov d) (-1)%Z = Some r_last
        /\ (r_first - o_r_comov obj) * np_cos M (xor_obj M d obj / 2) < r_par_max G
        /\ r_par_min G < (r_last - o_r_comov obj) * np_cos M (xor_obj M d obj / 2)).

(** A delta whose neighbours [fill_neighs] has set. *)
Definition filled (G : Globals) (M : MathFns) (N : NeighEnv)
    (catalogue : gmap Z (list Object)) (e : Entity) : Prop :=
  match e with
  | Attrs d => exists nb, neighbours d = Some nb
                          /\ Forall (neighbour_ok G M N catalogue d) nb
  | AllNone => False
  end.

(** The neighbours a delta holds when it is visited. *)
Definition entity_neighbours (e : Entity) : list Object :=
  match e with
  | Attrs d => default [] (neighbours d)
  | AllNone => []
  end.

(** The deltas a pass over [healpixs] visits, in the order of the visit,
    as the world holds them before the pass. *)
Definition visited (W : World) (healpixs : list Z) : list Entity :=
  flat_map (fun healpix => default [] (data W !! healpix)) healpixs.

(** The number of neighbours of [e] that the draws from position [pos]
    of the generator retain: [(rand(len(neighbours)) > reject).sum()]. *)
Definition retained (G : Globals) (U : nat -> Q) (pos : nat) (e : Entity) : Z :=
  mask_sum (map (fun u => Qltb (reject G) u)
                (map U (seq pos (length (entity_neighbours e))))).

(** The two counts of C10, in its words: over the deltas in the order of
    the visit, each taking as many draws as it has neighbours, a delta
    with no retained neighbour adds nothing; another one adds all its
    neighbours to the first count and the retained ones to the second. *)
Fixpoint counted_pairs (G : Globals) (U : nat -> Q) (pos : nat) (es : list Entity)
  : Z * Z :=
  match es with
  | [] => (0, 0)%Z
  | e :: es' =>
      let n := length (entity_neighbours e) in
      let rest := counted_pairs G U (pos + n) es' in
      if (retained G U pos e =? 0)%Z then rest
      else (Z.of_nat n + fst rest, retained G U pos e + snd rest)%Z
  end.

(** The draws a list of deltas takes. *)
Definition draws_taken (es : list Entity) : nat :=
  fold_right (fun e n => (length (entity_neighbours e) + n)%nat) 0%nat es.

(** [Wc] holds under every healpix the deltas [W] holds, or a delta
    that cannot be visited again. *)
Definition agrees_or_spent (W Wc : World) : Prop :=
  forall h, data Wc !! h = data W !! h
            \/ exists l, data Wc !! h = Some l /\ Exists spent l.

(** ** Concrete inputs

    The values the examples below are run on.  [math0] gives the
    transcendental functions at the only arguments those examples use:
    an angle of zero ([arccos 1 = 0], [cos 0 = 1], [sin 0 = 0]), an
    exponent of zero ([x**0 = 1]) and the square root of one. *)

Definition math0 : MathFns :=
  {| np_cos := fun _ => 1; np_sin := fun _ => 0; np_arccos := fun _ => 0;
     np_sqrt := fun _ => 1; np_pow := fun _ _ => 1 |}.

(** Two bins in [r_par] over (0, 40), one in [r_trans] over [0, 10);
    the model grid is the data grid. *)
Definition G0 : Globals :=
  {| num_bins_r_par := 2; num_bins_r_trans := 1;
     num_model_bins_r_par := 2; num_model_bins_r_trans := 1;
     r_par_max := 40; r_par_min := 0; r_trans_max := 10;
     num_data := 1; z_ref := 2; z_evol_del := 1; z_evol_obj := 1;
     reject := 0; ang_correlation := false;
     max_diagram := 4; cfWick := None; cfWick_np := 1; cfWick_nt := 1;
     cfWick_rp_min := 0; cfWick_rp_max := 40; cfWick_rt_max := 10 |}.

Definition with_reject (G : Globals) (r : Q) : Globals :=
  {| num_bins_r_par := num_bins_r_par G; num_bins_r_trans := num_bins_r_trans G;
     num_model_bins_r_par := num_model_bins_r_par G;
     num_model_bins_r_trans := num_model_bins_r_trans G;
     r_par_max := r_par_max G; r_par_min := r_par_min G;
     r_trans_max := r_trans_max G; num_data := num_data G; z_ref := z_ref G;
     z_evol_del := z_evol_del G; z_evol_obj := z_evol_obj G;
     reject := r; ang_correlation := ang_correlation G;
     max_diagram := max_diagram G; cfWick := cfWick G;
     cfWick_np := cfWick_np G; cfWick_nt := cfWick_nt G;
     cfWick_rp_min := cfWick_rp_min G; cfWick_rp_max := cfWick_rp_max G;
     cfWick_rt_max := cfWick_rt_max G |}.

(** Objects on the line of sight (1, 0, 0). *)
Definition obj_at (id : Z) (r : Q) : Object :=
  {| o_id := id; o_thingid := 100 + id; o_x_cart := 1; o_y_cart := 0;
     o_z_cart := 0; o_z_qso := 2; o_weights := 1; o_r_comov := r;
     o_dist_m := r; o_log_lambda := 0 |}.

Definition objA : Object := obj_at 1 100.
Definition objB : Object := obj_at 2 105.

(** A forest of two pixels on the same line of sight, of fit order
    [ord], with the neighbours [nb]. *)
Definition forest2 (ord : Z) (ll : list Q) (nb : option (list Object)) : Delta :=
  mkDelta 7 1 0 0 3 ord 0 [2; 2] [110; 130] [110; 130] ll [1; 1]
          [1 # 2; 1 # 4] nb [].

Definition world_of (d : Delta) : World :=
  {| data := {[ 5%Z := [Attrs d] ]}; objs := {[ 5%Z := [objA; objB] ]};
     counter := 0; rng_pos := 0 |}.

(** The accumulators of the distortion matrix for [G0], all zero. *)
Definition acc0 : DmatAcc :=
  {| weights_dmat := [0; 0]; dmat := [0; 0; 0; 0]; r_par_eff := [0; 0];
     r_trans_eff := [0; 0]; z_eff := [0; 0]; weight_eff := [0; 0] |}.

(** [forest2] with the neighbours [objA] and [objB], in healpix 5. *)
Definition forest_AB (ord : Z) : Delta := forest2 ord [3; 4] (Some [objA; objB]).

Definition world_with (ds : list Delta) : World :=
  {| data := {[ 5%Z := map Attrs ds ]}; objs := {[ 5%Z := [objA; objB] ]};
     counter := 0; rng_pos := 0 |}.

(** Streams of draws: all one half; a first draw of exactly zero; and
    two draws of one quarter followed by three quarters. *)
Definition U_half : nat -> Q := fun _ => 1 # 2.

Definition U_zero_first : nat -> Q :=
  fun k => match k with O => 0 | _ => 1 # 2 end.

Definition U_quarters : nat -> Q :=
  fun k => match k with O | 1%nat => 1 # 4 | _ => 3 # 4 end.

(** The number of delta-neighbour pairs of the deltas a pass visits. *)
Definition entity_pairs (e : Entity) : Z :=
  match e with
  | Attrs d => match neighbours d with
               | Some nb => Z.of_nat (length nb)
               | None => 0%Z
               end
  | AllNone => 0%Z
  end.

Definition input_pairs (W : World) (healpixs : list Z) : Z :=
  sumZ (map (fun h => sumZ (map entity_pairs (default [] (data W !! h)))) healpixs).

(** A metal absorber of rest wavelength 1/2 and exponent 1, with flat
    distance tables. *)
Definition env0 : MetalEnv :=
  {| absorber_igm := 1 # 2; alpha_abs_igm := 1;
     get_r_comov := fun _ => Some 120; get_dist_m := fun _ => Some 120 |}.

(** [forest2] at [log_lambda = 0], where [10**log_lambda] is 1. *)
Definition forest_metal (nb : list Object) : Delta := forest2 0 [0; 0] (Some nb).

(** Constant one-dimensional models, and a configuration with the
    higher-order diagrams enabled up to [T5]. *)
Definition wenv0 : WickEnv :=
  {| v1d := fun _ => Some (fun _ => 1); c1d := fun _ => Some (fun _ => 1) |}.

Definition G5 : Globals :=
  {| num_bins_r_par := 2; num_bins_r_trans := 1;
     num_model_bins_r_par := 2; num_model_bins_r_trans := 1;
     r_par_max := 40; r_par_min := 0; r_trans_max := 10;
     num_data := 1; z_ref := 2; z_evol_del := 1; z_evol_obj := 1;
     reject := 0; ang_correlation := false;
     max_diagram := 5; cfWick := Some [1 # 3; 1 # 5];
     cfWick_np := 2; cfWick_nt := 1;
     cfWick_rp_min := 0; cfWick_rp_max := 40; cfWick_rt_max := 10 |}.

(** [forest_AB] with a neighbouring forest that shares [objA]. *)
Definition forest_dn : Delta :=
  mkDelta 7 1 0 0 3 0 0 [2; 2] [110; 130] [110; 130] [3; 4] [1; 1]
          [1 # 2; 1 # 4] (Some [objA; objB])
          [mkDelta 8 1 0 0 3 0 0 [2; 2] [115; 135] [115; 135] [3; 4] [1; 2]
                   [1 # 2; 1 # 4] (Some [objA]) []].

(** The accumulators of [fill_wickT1234] for [G0], all zero. *)
Definition wick0 : Wick1234 :=
  {| wAll := [0; 0]; num_pairs_wick := [0%Z; 0%Z];
     T1 := [[0; 0]; [0; 0]]; T2 := [[0; 0]; [0; 0]];
     T3 := [[0; 0]; [0; 0]]; T4 := [[0; 0]; [0; 0]] |}.

(** A disc that covers the healpixs 5 and 6, an angle below 1 and
    redshifts in [0, 10). *)
Definition N0 : NeighEnv :=
  {| ang_max := 1; z_cut_min := 0; z_cut_max := 10;
     query_disc := fun _ _ _ => [5%Z; 6%Z] |}.

(** A grid of 100 bins over (-200, 200) in [r_par] and one bin in
    [r_trans], over the rationals and in binary64. *)
Definition G200 : Globals :=
  {| num_bins_r_par := 100; num_bins_r_trans := 1;
     num_model_bins_r_par := 100; num_model_bins_r_trans := 1;
     r_par_max := 200; r_par_min := -200; r_trans_max := 200;
     num_data := 1; z_ref := 2; z_evol_del := 1; z_evol_obj := 1;
     reject := 0; ang_correlation := false;
     max_diagram := 4; cfWick := None; cfWick_np := 1; cfWick_nt := 1;
     cfWick_rp_min := 0; cfWick_rp_max := 40; cfWick_rt_max := 10 |}.

Definition grid200 : Grid64 :=
  {| g_r_par_min := b64_of_Z (-200); g_r_par_max := b64_of_Z 200;
     g_r_trans_max := b64_of_Z 200;
     g_num_bins_r_par := 100; g_num_bins_r_trans := 1;
     g_num_model_bins_r_par := 100; g_num_model_bins_r_trans := 1 |}.

(** The float just below 200, [200 - 2**-45]. *)
Definition below_200 : b64 := SFpred 53 1024 (b64_of_Z 200).

(** The floats 0.1 and 0.5. *)
Definition tenth : b64 := b64_div (b64_of_Z 1) (b64_of_Z 10).
Definition half : b64 := b64_div (b64_of_Z 1) (b64_of_Z 2).



(** A stream of draws of one quarter, but for the third, of three
    quarters. *)
Definition U_third : nat -> Q :=
  fun k => match k with 2%nat => 3 # 4 | _ => 1 # 4 end.

(** ** Properties *)

(** *** Arithmetic of the mask and of the bin index *)

Lemma Qltb_lt (x y : Q) : Qltb x y = true <-> x < y.
Proof.
  unfold Qltb. rewrite negb_true_iff. split; intros H.
  - apply Qnot_le_lt. intros Hle. apply Qle_bool_iff in Hle. congruence.
  - destruct (Qle_bool y x) eqn:E; [|reflexivity].
    apply Qle_bool_iff in E. exfalso. apply (Qlt_not_le _ _ H E).
Qed.

Lemma Qltb_ge (x y : Q) : Qltb x y = false <-> y <= x.
Proof.
  unfold Qltb. rewrite negb_false_iff. apply Qle_bool_iff.
Qed.

(** The comparisons of binary64 are strict: no float is below itself,
    and [x < y] fails when [y <= x]. *)
Lemma SFcompare_antisym (x y : b64) (c : comparison) :
  SFcompare x y = Some c -> SFcompare y x = Some (CompOpp c).
Proof.
  destruct x as [sx|sx| |sx mx ex], y as [sy|sy| |sy my ey]; simpl;
    try discriminate; intros [= <-];
    try (destruct sx; reflexivity); try (destruct sy; reflexivity);
    try (destruct sx, sy; reflexivity).
  assert (Hm : Pos.compare_cont Eq my mx = CompOpp (Pos.compare_cont Eq mx my)).
  { rewrite Pos.compare_cont_antisym. reflexivity. }
  destruct sx, sy; try reflexivity; f_equal;
    rewrite (Z.compare_antisym ex ey), Hm;
    destruct (ex ?= ey)%Z; simpl; try reflexivity;
    destruct (Pos.compare_cont Eq mx my); reflexivity.
Qed.

Lemma SFltb_irrefl (x : b64) : SFltb x x = false.
Proof.
  unfold SFltb. destruct (SFcompare x x) as [c|] eqn:E; [|reflexivity].
  pose proof (SFcompare_antisym _ _ _ E) as E'. rewrite E in E'.
  injection E' as E'. destruct c; try reflexivity; discriminate.
Qed.

Lemma SFltb_of_SFleb (x y : b64) : SFleb y x = true -> SFltb x y = false.
Proof.
  unfold SFleb, SFltb. destruct (SFcompare y x) as [c|] eqn:E; [|discriminate].
  rewrite (SFcompare_antisym _ _ _ E). destruct c; [reflexivity.. | discriminate].
Qed.

Lemma window_b64_edges (g : Grid64) (r_par r_trans : b64) :
  window_b64 g (g_r_par_min g) r_trans = false
  /\ window_b64 g (g_r_par_max g) r_trans = false
  /\ (SFleb (g_r_trans_max g) r_trans = true -> window_b64 g r_par r_trans = false).
Proof.
  unfold window_b64. split; [|split].
  - rewrite SFltb_irrefl. reflexivity.
  - rewrite SFltb_irrefl, andb_false_r. reflexivity.
  - intros H. rewrite (SFltb_of_SFleb _ _ H). apply andb_false_r.
Qed.

(** C1, in binary64.  The mask of [compute_xi_forest_pairs] and of
    [compute_dmat_forest_pairs] is strict: a pair whose parallel
    separation is [r_par_min] or [r_par_max], or whose transverse
    separation is at least [r_trans_max], is left out of both.  But a
    surviving pair can have the parallel bin index [num_bins_r_par]:
    on the grid of 100 bins over (-200, 200), the pixel at
    [200 - 2**-45] and the object at 0 on the same line of sight are at
    a separation of one unit in the last place below [r_par_max].  The
    pair passes the mask; [r_par - r_par_min] rounds to 400, the
    quotient to 1, and the index is 100 where the exact quotient gives
    99.  [np.bincount] then returns 101 entries, and their addition to
    the 100 entries of the accumulator raises. *)
Theorem last_ulp_pair_is_binned_out_of_range :
  (forall (g : Grid64) (r_par r_trans : b64),
      xi_forest_pairs_bin_b64 g (g_r_par_min g) r_trans = None
      /\ xi_forest_pairs_bin_b64 g (g_r_par_max g) r_trans = None
      /\ dmat_forest_pairs_bins_b64 g (g_r_par_min g) r_trans = None
      /\ dmat_forest_pairs_bins_b64 g (g_r_par_max g) r_trans = None
      /\ (SFleb (g_r_trans_max g) r_trans = true ->
          xi_forest_pairs_bin_b64 g r_par r_trans = None
          /\ dmat_forest_pairs_bins_b64 g r_par r_trans = None))
  /\ (let r_par := pair_r_par_b64 below_200 (b64_of_Z 0) (b64_of_Z 1) in
      let r_trans := pair_r_trans_b64 (b64_of_Z 100) (b64_of_Z 100) (b64_of_Z 0) in
      b64_to_Q r_par == 200 - 1 / inject_Z (2 ^ 45)
      /\ b64_to_Q r_trans == 0
      /\ window_b64 grid200 r_par r_trans = true
      /\ window G200 (b64_to_Q r_par) (b64_to_Q r_trans) = true
      /\ bin_r_par G200 (num_bins_r_par G200) (b64_to_Q r_par) = 99%Z
      /\ bins_r_par_b64 grid200 (g_num_bins_r_par grid200) r_par
         = g_num_bins_r_par grid200
      /\ xi_forest_pairs_bin_b64 grid200 r_par r_trans = Some 100%Z
      /\ dmat_forest_pairs_bins_b64 grid200 r_par r_trans = Some (100%Z, 100%Z)
      /\ forall weights12 acc,
           np_zeros (num_bins_r_par G200 * num_bins_r_trans G200) = Some acc ->
           exists rebin,
             bincount [(100%Z, weights12)] = Some rebin
             /\ length rebin = 101%nat /\ length acc = 100%nat
             /\ iadd_prefix Qplus acc rebin = None).
Proof.
  split.
  - intros g r_par r_trans.
    destruct (window_b64_edges g r_par r_trans) as (E1 & E2 & E3).
    unfold xi_forest_pairs_bin_b64, dmat_forest_pairs_bins_b64.
    rewrite E1, E2.
    split; [reflexivity|]. split; [reflexivity|].
    split; [reflexivity|]. split; [reflexivity|].
    intros H. rewrite (E3 H). split; reflexivity.
  - cbv zeta. split; [vm_compute; reflexivity|]. split; [vm_compute; reflexivity|].
    split; [vm_compute; reflexivity|]. split; [vm_compute; reflexivity|].
    split; [vm_compute; reflexivity|]. split; [vm_compute; reflexivity|].
    split; [vm_compute; reflexivity|]. split; [vm_compute; reflexivity|].
    intros weights12 acc Hacc. injection Hacc as <-.
    eexists. split; [reflexivity|]. split; [reflexivity|].
    split; [reflexivity|]. reflexivity.
Qed.

(** *** Sums, histograms and slices *)

(** Inversion of a successful chain of binds. *)
Ltac bind_inv H :=
  repeat match type of H with
         | (mbind _ ?m = Some _) =>
             let r := fresh "r" in
             let E := fresh "E" in
             destruct m as [r|] eqn:E; simpl in H; [|discriminate]
         end.

Lemma sumQ_app (l1 l2 : list Q) : sumQ (l1 ++ l2) == sumQ l1 + sumQ l2.
Proof.
  induction l1 as [|x l1 IH]; simpl.
  - ring.
  - rewrite IH. ring.
Qed.

Lemma sumQ_zip_plus (l1 l2 : list Q) :
  length l1 = length l2 ->
  sumQ (zip_with Qplus l1 l2) == sumQ l1 + sumQ l2.
Proof.
  revert l2. induction l1 as [|x l1 IH]; intros [|y l2] Hlen; simpl in *;
    try discriminate.
  - ring.
  - rewrite IH by lia. ring.
Qed.

Lemma sumQ_firstn_skipn (k : nat) (a : list Q) :
  sumQ (firstn k a) + sumQ (skipn k a) == sumQ a.
Proof.
  rewrite <- sumQ_app, firstn_skipn. reflexivity.
Qed.

(** The two outcomes of [a[:len(rebin)] += rebin] that do not raise. *)
Lemma iadd_prefix_inv {A : Type} (add : A -> A -> A) (a rebin a' : list A) :
  iadd_prefix add a rebin = Some a' ->
  ((length rebin <= length a)%nat
   /\ a' = zip_with add (firstn (length rebin) a) rebin ++ skipn (length rebin) a)
  \/ (a = [] /\ a' = [] /\ length rebin = 1%nat).
Proof.
  unfold iadd_prefix. rewrite length_firstn.
  destruct (Nat.eqb_spec (Nat.min (length rebin) (length a)) (length rebin)) as [E|E].
  - intros [= <-]. left. split; [lia | reflexivity].
  - destruct (Nat.eqb_spec (length rebin) 1) as [E1|E1]; [|discriminate].
    intros [= <-]. right. destruct a; [auto | simpl in *; lia].
Qed.

Lemma iadd_prefix_length {A : Type} (add : A -> A -> A) (a rebin a' : list A) :
  iadd_prefix add a rebin = Some a' -> length a' = length a.
Proof.
  intros H. apply iadd_prefix_inv in H as [[Hle ->] | (-> & -> & _)]; [|reflexivity].
  rewrite length_app, length_zip_with, length_firstn, length_skipn. lia.
Qed.

Lemma iadd_prefix_sum (a rebin a' : list Q) :
  iadd_prefix Qplus a rebin = Some a' ->
  (sumQ a' == sumQ a + sumQ rebin)
  \/ (a = [] /\ a' = [] /\ length rebin = 1%nat).
Proof.
  intros H. apply iadd_prefix_inv in H as [[Hle ->] | H]; [left | right; exact H].
  rewrite sumQ_app, sumQ_zip_plus by (rewrite length_firstn; lia).
  pose proof (sumQ_firstn_skipn (length rebin) a) as Hs. lra.
Qed.

Lemma bin_total_cons (k b : Z) (w : Q) (bw : list (Z * Q)) :
  bin_total k ((b, w) :: bw)
  = if (b =? k)%Z then w + bin_total k bw else bin_total k bw.
Proof.
  unfold bin_total. simpl. destruct (b =? k)%Z; reflexivity.
Qed.

Lemma sum_indicator (b : Z) (w : Q) (n : nat) (m : nat) :
  sumQ (map (fun k => if (b =? Z.of_nat k)%Z then w else 0) (seq m n))
  == if ((Z.of_nat m <=? b) && (b <? Z.of_nat (m + n)))%Z then w else 0.
Proof.
  revert m. induction n as [|n IH]; intros m; simpl.
  - destruct (Z.leb_spec (Z.of_nat m) b), (Z.ltb_spec b (Z.of_nat (m + 0))); simpl;
      try reflexivity; lia.
  - rewrite IH.
    destruct (Z.eqb_spec b (Z.of_nat m)) as [->|Hne].
    + destruct (Z.leb_spec (Z.of_nat (S m)) (Z.of_nat m)); [lia|].
      destruct (Z.leb_spec (Z.of_nat m) (Z.of_nat m)); [|lia].
      destruct (Z.ltb_spec (Z.of_nat m) (Z.of_nat (m + S n))); [|lia].
      simpl. ring.
    + destruct (Z.leb_spec (Z.of_nat (S m)) b), (Z.leb_spec (Z.of_nat m) b),
        (Z.ltb_spec b (Z.of_nat (S m + n))), (Z.ltb_spec b (Z.of_nat (m + S n)));
        simpl; try ring; lia.
Qed.

Lemma sum_bin_totals (n : nat) (bw : list (Z * Q)) :
  Forall (fun e => (0 <= fst e < Z.of_nat n)%Z) bw ->
  sumQ (map (fun k => bin_total (Z.of_nat k) bw) (seq 0 n)) == sumQ (map snd bw).
Proof.
  induction 1 as [|[b w] bw Hb Hall IH]; simpl.
  - induction (seq 0 n) as [|k l IHl]; simpl; [reflexivity|].
    rewrite IHl. unfold bin_total. simpl. ring.
  - rewrite <- IH. simpl in Hb.
    transitivity (sumQ (map (fun k => if (b =? Z.of_nat k)%Z then w else 0) (seq 0 n))
                  + sumQ (map (fun k => bin_total (Z.of_nat k) bw) (seq 0 n))).
    + clear. induction (seq 0 n) as [|k l IHl]; simpl; [ring|].
      rewrite IHl, bin_total_cons. destruct (b =? Z.of_nat k)%Z; ring.
    + rewrite sum_indicator.
      destruct (Z.leb_spec (Z.of_nat 0) b), (Z.ltb_spec b (Z.of_nat (0 + n)));
        simpl; try reflexivity; lia.
Qed.

Lemma bincount_len_bound (bins : list Z) :
  Forall (fun b => (Z.to_nat b < bincount_len bins)%nat) bins.
Proof.
  induction bins as [|b bins IH]; constructor; simpl.
  - lia.
  - eapply List.Forall_impl; [|exact IH]. simpl. intros; lia.
Qed.

Lemma bincount_inv (bw : list (Z * Q)) (r : list Q) :
  bincount bw = Some r ->
  Forall (fun e => (0 <= fst e)%Z) bw
  /\ r = map (fun k => bin_total (Z.of_nat k) bw) (seq 0 (bincount_len (map fst bw))).
Proof.
  unfold bincount. destruct (existsb _ bw) eqn:E; [discriminate|].
  intros [= <-]. split; [|reflexivity].
  apply List.Forall_forall. intros e He.
  destruct (Z.ltb_spec (fst e) 0) as [Hneg|]; [|assumption].
  exfalso. assert (existsb (fun e => (fst e <? 0)%Z) bw = true); [|congruence].
  apply existsb_exists. exists e. split; [exact He|]. apply Z.ltb_lt. exact Hneg.
Qed.

Lemma bincount_sum (bw : list (Z * Q)) (r : list Q) :
  bincount bw = Some r -> sumQ r == sumQ (map snd bw).
Proof.
  intros H. apply bincount_inv in H as [Hpos ->].
  apply sum_bin_totals.
  pose proof (bincount_len_bound (map fst bw)) as Hb.
  rewrite List.Forall_map in Hb.
  rewrite List.Forall_forall in *. intros e He.
  specialize (Hpos e He). specialize (Hb e He). simpl in Hb. lia.
Qed.

(** *** Conservation of the weight in the distortion matrix *)

Lemma norm_index_0 (i : Z) : norm_index 0 i = None.
Proof.
  unfold norm_index. change (Z.of_nat 0) with 0%Z.
  destruct (Z.ltb_spec i 0).
  - destruct (Z.ltb_spec (i + 0) 0); [reflexivity | lia].
  - reflexivity.
Qed.

Lemma iadd_at_nil {A : Type} (add : A -> A -> A) (i : Z) (v : A) :
  iadd_at add [] i v = None.
Proof.
  unfold iadd_at. simpl length. rewrite norm_index_0. reflexivity.
Qed.

Lemma dmat_fill_nil (G : Globals) (n1 n2 : Z) (eta2 eta4 llmm : list Q)
    (sel : list Pair) :
  nonempty sel = true -> dmat_fill G n1 n2 eta2 eta4 llmm sel [] = None.
Proof.
  destruct sel as [|p sel]; [discriminate|]. intros _.
  unfold dmat_fill.
  match goal with
  | |- fold_opt ?f (p :: sel) [] = None =>
      change (f [] p ≫= fold_opt f sel = None)
  end.
  unfold dmat_fill_pair. rewrite iadd_at_nil. reflexivity.
Qed.

Lemma bincount_nil_of_empty {A : Type} (f : A -> Z) (g : A -> Q) (sel : list A)
    (r : list Q) :
  bincount (combine (map f sel) (map g sel)) = Some r ->
  length r = 1%nat -> nonempty sel = true.
Proof.
  destruct sel; [|reflexivity]. simpl. unfold bincount. simpl.
  intros [= <-]. discriminate.
Qed.

Lemma combine_map_snd {A : Type} (f : A -> Z) (g : A -> Q) (sel : list A) :
  map snd (combine (map f sel) (map g sel)) = map g sel.
Proof.
  induction sel; simpl; congruence.
Qed.

Lemma dmat_rebin_weights (G : Globals) (sel : list Pair) (A A1 : DmatAcc) :
  dmat_rebin G sel A = Some A1 ->
  dmat A1 = dmat A
  /\ ((sumQ (weight_eff A1) == sumQ (weight_eff A) + sumQ (map pr_weights12 sel))
      \/ (weight_eff A = [] /\ nonempty sel = true))
  /\ ((sumQ (weights_dmat A1) == sumQ (weights_dmat A) + sumQ (map pr_weights12 sel))
      \/ (weights_dmat A = [] /\ nonempty sel = true)).
Proof.
  unfold dmat_rebin. intros H. bind_inv H.
  injection H as <-. simpl. split; [reflexivity|]. split.
  - destruct (iadd_prefix_sum _ _ _ E6) as [Hs | (Hnil & _ & Hlen)].
    + left. rewrite Hs, (bincount_sum _ _ E5), combine_map_snd. reflexivity.
    + right. split; [exact Hnil|]. exact (bincount_nil_of_empty _ _ _ _ E5 Hlen).
  - destruct (iadd_prefix_sum _ _ _ E8) as [Hs | (Hnil & _ & Hlen)].
    + left. rewrite Hs, (bincount_sum _ _ E7), combine_map_snd. reflexivity.
    + right. split; [exact Hnil|]. exact (bincount_nil_of_empty _ _ _ _ E7 Hlen).
Qed.

(** C7.  A call of [compute_dmat_forest_pairs] on accumulators shaped
    as [compute_dmat] allocates them ([dmat] has one entry per data bin
    and model bin) adds the same total weight to [weights_dmat], summed
    over the data bins, and to [weight_eff], summed over the model bins:
    the total weight of the selected pairs.  The model grid has no
    window of its own, so no selected pair is ever removed by it. *)
Theorem dmat_weight_conservation (G : Globals) (M : MathFns)
    (log_lambda1 r_comov1 dist_m1 z1 weights1
     r_comov2 dist_m2 z2 weights2 ang : list Q) (A A' : DmatAcc) :
  length (dmat A) = (length (weights_dmat A) * length (weight_eff A))%nat ->
  compute_dmat_forest_pairs G M log_lambda1 r_comov1 dist_m1 z1 weights1
                            r_comov2 dist_m2 z2 weights2 ang A = Some A' ->
  let added := sumQ (map pr_weights12
                 (dmat_selected G M r_comov1 dist_m1 z1 weights1
                                r_comov2 dist_m2 z2 weights2 ang)) in
  sumQ (weights_dmat A') - sumQ (weights_dmat A) == added
  /\ sumQ (weight_eff A') - sumQ (weight_eff A) == added
  /\ sumQ (weights_dmat A') - sumQ (weights_dmat A)
     == sumQ (weight_eff A') - sumQ (weight_eff A).
Proof.
  intros Hsize H added. unfold compute_dmat_forest_pairs in H.
  destruct (negb _); [discriminate|].
  fold added in H.
  set (sel := dmat_selected G M r_comov1 dist_m1 z1 weights1
                            r_comov2 dist_m2 z2 weights2 ang) in *.
  destruct (cast_undefined G sel); [discriminate|].
  destruct (Qeq_bool (sumQ weights1) 0); [discriminate|].
  destruct (dmat_rebin G sel A) as [A1|] eqn:E1; simpl in H; [|discriminate].
  destruct (dmat_eta2 _ _ _ _ _) as [eta2|]; simpl in H; [|discriminate].
  destruct (dmat_eta4 _ _ _ _ _ _) as [eta4|]; simpl in H; [|discriminate].
  destruct (dmat_fill _ _ _ _ _ _ _ _) as [dm|] eqn:E4; simpl in H; [|discriminate].
  injection H as <-. simpl.
  apply dmat_rebin_weights in E1 as (Hdm & He & Hd).
  assert (Hne : nonempty sel = true -> length (dmat A) <> 0%nat).
  { intros Hn Hz. rewrite Hdm in E4.
    destruct (dmat A); [|discriminate].
    rewrite dmat_fill_nil in E4 by exact Hn. discriminate. }
  assert (He' : sumQ (weight_eff A1) == sumQ (weight_eff A) + added).
  { destruct He as [He | [Hnil Hn]]; [exact He|].
    exfalso. apply (Hne Hn). rewrite Hsize, Hnil. simpl. lia. }
  assert (Hd' : sumQ (weights_dmat A1) == sumQ (weights_dmat A) + added).
  { destruct Hd as [Hd | [Hnil Hn]]; [exact Hd|].
    exfalso. apply (Hne Hn). rewrite Hsize, Hnil. simpl. lia. }
  repeat split; lra.
Qed.

(** [forest2] against [objA]: both pixels are selected, one per bin. *)
Lemma dmat_weight_conservation_witness :
  exists A',
    compute_dmat_forest_pairs G0 math0 [3; 4] [110; 130] [110; 130] [2; 2] [1; 1]
                              [100] [100] [2] [1] [0] acc0 = Some A'
    /\ sumQ (weights_dmat A') - sumQ (weights_dmat acc0) == 2
    /\ sumQ (weights_dmat A') - sumQ (weights_dmat acc0)
       == sumQ (weight_eff A') - sumQ (weight_eff acc0).
Proof.
  assert (H : { A' | compute_dmat_forest_pairs G0 math0 [3; 4] [110; 130]
                       [110; 130] [2; 2] [1; 1] [100] [100] [2] [1] [0] acc0
                     = Some A' }).
  { eexists. vm_compute. reflexivity. }
  destruct H as [A' H]. exists A'. split; [exact H|].
  pose proof (dmat_weight_conservation G0 math0 [3; 4] [110; 130] [110; 130]
                [2; 2] [1; 1] [100] [100] [2] [1] [0] acc0 A' eq_refl H)
    as (Hd & _ & Hc).
  split; [|exact Hc].
  rewrite Hd. vm_compute. reflexivity.
Defined.

(** *** Normalisation of the correlation function *)

Lemma combine_map_fst {A : Type} (f : A -> Z) (g : A -> Q) (sel : list A) :
  map fst (combine (map f sel) (map g sel)) = map f sel.
Proof.
  induction sel; simpl; congruence.
Qed.


Lemma bincount_length (bw : list (Z * Q)) (r : list Q) :
  bincount bw = Some r -> length r = bincount_len (map fst bw).
Proof.
  intros H. apply bincount_inv in H as [_ ->].
  rewrite length_map, length_seq. reflexivity.
Qed.



















(** *** Invariants of the loops over the entities *)

Section LoopInvariant.
Context {S : Type} (I : S -> Prop) (P : Entity -> Prop).

Lemma for_each_inv (body : S -> World -> Entity -> option (S * World * Entity)) :
  (forall s W e s' W' e',
      I s -> P e -> body s W e = Some (s', W', e') ->
      I s' /\ P e' /\ data W' = data W) ->
  forall l s W s' W' l',
    I s -> Forall P l -> for_each body s W l = Some (s', W', l') ->
    I s' /\ Forall P l' /\ data W' = data W.
Proof.
  intros Hbody. induction l as [|e l IH]; intros s W s' W' l' Hs Hl H.
  - injection H as <- <- <-. auto.
  - cbn [for_each] in H. inversion Hl as [|? ? He Hl']; subst.
    destruct (body s W e) as [[[s1 W1] e1]|] eqn:Eb; simpl in H; [|discriminate].
    destruct (for_each body s1 W1 l) as [[[s2 W2] l2]|] eqn:El; simpl in H;
      [|discriminate].
    injection H as <- <- <-.
    destruct (Hbody _ _ _ _ _ _ Hs He Eb) as (Hs1 & He1 & Hd1).
    destruct (IH _ _ _ _ _ Hs1 Hl' El) as (Hs2 & Hl2 & Hd2).
    split; [exact Hs2|]. split; [constructor; assumption | congruence].
Qed.

Lemma for_healpixs_inv
    (body : Z -> S -> World -> Entity -> option (S * World * Entity)) :
  (forall h s W e s' W' e',
      I s -> P e -> body h s W e = Some (s', W', e') ->
      I s' /\ P e' /\ data W' = data W) ->
  forall healpixs s W s' W',
    I s -> world_all P W -> for_healpixs body s W healpixs = Some (s', W') ->
    I s' /\ world_all P W'.
Proof.
  intros Hbody. induction healpixs as [|h hs IH]; intros s W s' W' Hs HW H.
  - injection H as <- <-. auto.
  - cbn [for_healpixs] in H.
    destruct (data W !! h) as [l|] eqn:El; simpl in H; [|discriminate].
    destruct (for_each (body h) s W l) as [[[s1 W1] l1]|] eqn:Ef; simpl in H;
      [|discriminate].
    destruct (for_each_inv (body h) (Hbody h) _ _ _ _ _ _ Hs (HW _ _ El) Ef)
      as (Hs1 & Hl1 & Hd1).
    eapply IH; [exact Hs1 | | exact H].
    intros h' l' Hl'. simpl in Hl'. rewrite Hd1 in Hl'.
    destruct (decide (h = h')) as [->|Hne].
    + rewrite lookup_insert_eq in Hl'. injection Hl' as <-. exact Hl1.
    + rewrite lookup_insert_ne in Hl' by exact Hne. exact (HW _ _ Hl').
Qed.
End LoopInvariant.





(** *** The random rejection of neighbours in compute_dmat *)

Lemma mask_sum_all_false (w : list bool) :
  Forall (fun b => b = false) w -> mask_sum w = 0%Z.
Proof.
  unfold mask_sum. induction 1 as [|b w Hb _ IH]; [reflexivity|].
  subst b. simpl. exact IH.
Qed.

Lemma mask_sum_all_true (w : list bool) :
  Forall (fun b => b = true) w -> mask_sum w = Z.of_nat (length w).
Proof.
  unfold mask_sum. induction 1 as [|b w Hb _ IH]; [reflexivity|].
  subst b. simpl. simpl in IH. lia.
Qed.

Lemma mask_sum_nonneg (w : list bool) : (0 <= mask_sum w)%Z.
Proof. unfold mask_sum. lia. Qed.

(** What one turn of the loop of [compute_dmat] does to the counters. *)
Lemma compute_dmat_body_counters (G : Globals) (M : MathFns) (U : nat -> Q)
    (s s' : DmatState) (W W' : World) (d : Delta) (nb : list Object) (e' : Entity) :
  neighbours d = Some nb ->
  compute_dmat_body G M U s W (Attrs d) = Some (s', W', e') ->
  let w := draw_mask G U W (length nb) in
  (mask_sum w = 0%Z -> s' = s /\ e' = Attrs d)
  /\ (mask_sum w <> 0%Z ->
      dm_num_pairs s' = (dm_num_pairs s + Z.of_nat (length nb))%Z
      /\ dm_num_pairs_used s' = (dm_num_pairs_used s + mask_sum w)%Z
      /\ e' = Attrs (set_neighbours d None)).
Proof.
  intros Hnb H w. unfold compute_dmat_body in H.
  destruct (progress G); simpl in H; [|discriminate].
  rewrite Hnb in H. simpl in H.
  change (map (fun u => Qltb (reject G) u) (map U (seq (rng_pos W) (length nb))))
    with w in H.
  destruct (Z.eqb_spec (mask_sum w) 0) as [E|E].
  - injection H as <- <- <-. split; [auto | intros Hne; contradiction].
  - match type of H with
    | (mbind _ ?m = Some _) => destruct m as [A|]; simpl in H; [|discriminate]
    end.
    injection H as <- <- <-. split; [intros Hz; contradiction | auto].
Qed.

Lemma compute_dmat_body_data (G : Globals) (M : MathFns) (U : nat -> Q)
    (s s' : DmatState) (W W' : World) (e e' : Entity) :
  compute_dmat_body G M U s W e = Some (s', W', e') -> data W' = data W.
Proof.
  intros H. unfold compute_dmat_body in H.
  destruct (progress G); simpl in H; [|discriminate].
  destruct e as [d|]; [|discriminate].
  destruct (neighbours d) as [nb|]; simpl in H; [|discriminate].
  destruct (_ =? _)%Z.
  - injection H as <- <- <-. reflexivity.
  - match type of H with
    | (mbind _ ?m = Some _) => destruct m as [A|]; simpl in H; [|discriminate]
    end.
    injection H as <- <- <-. reflexivity.
Qed.

Lemma draw_mask_reject_one (G : Globals) (U : nat -> Q) (W : World) (n : nat) :
  (forall k, 0 <= U k /\ U k < 1) -> reject G == 1 ->
  mask_sum (draw_mask G U W n) = 0%Z.
Proof.
  intros HU Hr. apply mask_sum_all_false. unfold draw_mask.
  rewrite map_map. apply List.Forall_map. apply List.Forall_forall. intros k _.
  apply Qltb_ge. destruct (HU k) as [_ Hk]. lra.
Qed.

Lemma draw_mask_reject_zero (G : Globals) (U : nat -> Q) (W : World) (n : nat) :
  (forall k, 0 <= U k /\ U k < 1) -> (forall k, ~ U k == 0) -> reject G == 0 ->
  mask_sum (draw_mask G U W n) = Z.of_nat n.
Proof.
  intros HU Hnz Hr.
  replace n with (length (draw_mask G U W n)) at 2
    by (unfold draw_mask; rewrite !length_map, length_seq; reflexivity).
  apply mask_sum_all_true. unfold draw_mask.
  rewrite map_map. apply List.Forall_map. apply List.Forall_forall. intros k _.
  apply Qltb_lt. destruct (HU k) as [Hk _]. specialize (Hnz k).
  destruct (Qlt_le_dec 0 (U k)) as [Hlt|Hle]; [lra|].
  exfalso. apply Hnz. lra.
Qed.

Lemma all_zero_repeat (n : nat) : all_zero (repeat 0 n).
Proof. apply List.Forall_forall. intros x Hx. apply repeat_spec in Hx. exact Hx. Qed.

Lemma reshape_all_zero (rows cols : nat) (a : list Q) :
  all_zero a -> Forall all_zero (reshape rows cols a).
Proof.
  intros Ha. unfold reshape. apply List.Forall_map. apply List.Forall_forall.
  intros r _. apply Forall_take, Forall_drop. exact Ha.
Qed.

Lemma dmat_zeros_inv (G : Globals) (s0 : DmatState) :
  dmat_zeros G = Some s0 ->
  dm_num_pairs s0 = 0%Z /\ dm_num_pairs_used s0 = 0%Z
  /\ all_zero (weights_dmat (dm_acc s0)) /\ all_zero (dmat (dm_acc s0))
  /\ all_zero (r_par_eff (dm_acc s0)) /\ all_zero (r_trans_eff (dm_acc s0))
  /\ all_zero (z_eff (dm_acc s0)) /\ all_zero (weight_eff (dm_acc s0)).
Proof.
  unfold dmat_zeros, np_zeros. intros H.
  repeat match type of H with
         | context [(?n <? 0)%Z] => destruct (n <? 0)%Z; simpl in H; [discriminate|]
         end.
  injection H as <-. simpl. repeat split; apply all_zero_repeat.
Qed.

Lemma compute_dmat_loop_inv (I : DmatState -> Prop) (G : Globals) (M : MathFns)
    (U : nat -> Q) (healpixs : list Z) (s0 s : DmatState) (W W' : World) :
  (forall s1 s2 W1 W2 d nb e2,
      I s1 -> neighbours d = Some nb ->
      compute_dmat_body G M U s1 W1 (Attrs d) = Some (s2, W2, e2) -> I s2) ->
  I s0 ->
  for_healpixs (fun _ => compute_dmat_body G M U) s0 W healpixs = Some (s, W') ->
  I s.
Proof.
  intros Hbody H0 H.
  refine (proj1 (for_healpixs_inv I (fun _ => True) _ _ healpixs s0 W s W' H0 _ H)).
  - intros _ s1 W1 e s2 W2 e2 Hs _ Hb.
    split; [|split; [exact Logic.I | exact (compute_dmat_body_data _ _ _ _ _ _ _ _ _ Hb)]].
    destruct e as [d|].
    + destruct (neighbours d) as [nb|] eqn:Hnb.
      * exact (Hbody _ _ _ _ _ _ _ Hs Hnb Hb).
      * unfold compute_dmat_body in Hb. destruct (progress G); simpl in Hb;
          [|discriminate]. rewrite Hnb in Hb. discriminate.
    + unfold compute_dmat_body in Hb. destruct (progress G); discriminate.
  - intros h l _. apply List.Forall_forall. intros; exact Logic.I.
Qed.

(** C4, as the code has it.  The draws lie in [0, 1) and a neighbour is
    kept when its draw is strictly greater than [reject].  With
    [reject = 0] and no draw equal to zero, [num_pairs_used] equals
    [num_pairs]; with [reject = 1], [num_pairs_used] is zero and every
    accumulator array is returned all zero. *)
Theorem reject_probability_law (G : Globals) (M : MathFns) (U : nat -> Q)
    (healpixs : list Z) (W W' : World) (res : DmatResult) :
  (forall k, 0 <= U k /\ U k < 1) ->
  compute_dmat G M U healpixs W = Some (res, W') ->
  (reject G == 0 -> (forall k, ~ U k == 0) ->
   out_num_pairs_used res = out_num_pairs res)
  /\ (reject G == 1 ->
      out_num_pairs_used res = 0%Z
      /\ all_zero (out_weights_dmat res) /\ Forall all_zero (out_dmat res)
      /\ all_zero (out_r_par_eff res) /\ all_zero (out_r_trans_eff res)
      /\ all_zero (out_z_eff res) /\ all_zero (out_weight_eff res)).
Proof.
  intros HU H. unfold compute_dmat in H.
  destruct (dmat_zeros G) as [s0|] eqn:E0; simpl in H; [|discriminate].
  destruct (for_healpixs _ s0 W healpixs) as [[s W1]|] eqn:El; simpl in H;
    [|discriminate].
  injection H as <- <-.
  destruct (dmat_zeros_inv G s0 E0) as (Hp & Hu & Z1 & Z2 & Z3 & Z4 & Z5 & Z6).
  split.
  - intros Hr Hnz. simpl.
    apply (compute_dmat_loop_inv
             (fun s => dm_num_pairs_used s = dm_num_pairs s) G M U healpixs s0 s W W1);
      [| congruence | exact El].
    intros s1 s2 W1' W2 d nb e2 Hs Hnb Hb.
    destruct (compute_dmat_body_counters _ _ _ _ _ _ _ _ _ _ Hnb Hb) as [Hskip Hkeep].
    rewrite (draw_mask_reject_zero G U W1' (length nb) HU Hnz Hr) in Hskip, Hkeep.
    destruct (Z.eq_dec (Z.of_nat (length nb)) 0%Z) as [Ez|Enz].
    + destruct (Hskip Ez) as [-> _]. exact Hs.
    + destruct (Hkeep Enz) as (-> & -> & _). lia.
  - intros Hr.
    assert (Hs : s = s0).
    { apply (compute_dmat_loop_inv (fun s => s = s0) G M U healpixs s0 s W W1);
        [| reflexivity | exact El].
      intros s1 s2 W1' W2 d nb e2 -> Hnb Hb.
      destruct (compute_dmat_body_counters _ _ _ _ _ _ _ _ _ _ Hnb Hb) as [Hskip _].
      apply Hskip. apply draw_mask_reject_one; assumption. }
    subst s. simpl. rewrite Hu.
    repeat split; try assumption. apply reshape_all_zero. exact Z2.
Qed.

Lemma compute_dmat_body_skip (G : Globals) (M : MathFns) (U : nat -> Q)
    (s s' : DmatState) (W W' : World) (d : Delta) (nb : list Object) (e' : Entity) :
  neighbours d = Some nb ->
  compute_dmat_body G M U s W (Attrs d) = Some (s', W', e') ->
  let w := draw_mask G U W (length nb) in
  (mask_sum w = 0%Z ->
   dm_num_pairs s' = dm_num_pairs s
   /\ dm_num_pairs_used s' = dm_num_pairs_used s
   /\ dm_acc s' = dm_acc s /\ e' = Attrs d)
  /\ (mask_sum w <> 0%Z ->
      dm_num_pairs s' = (dm_num_pairs s + Z.of_nat (length nb))%Z
      /\ dm_num_pairs_used s' = (dm_num_pairs_used s + mask_sum w)%Z
      /\ e' = Attrs (set_neighbours d None)).
Proof.
  intros Hnb Hb w.
  destruct (compute_dmat_body_counters _ _ _ _ _ _ _ _ _ _ Hnb Hb) as [Hskip Hkeep].
  split; [|exact Hkeep].
  intros Hz. destruct (Hskip Hz) as [-> ->]. auto.
Qed.

Lemma counted_pairs_app (G : Globals) (U : nat -> Q) (pos : nat) (l l' : list Entity) :
  counted_pairs G U pos (l ++ l')
  = ((fst (counted_pairs G U pos l)
      + fst (counted_pairs G U (pos + draws_taken l) l'))%Z,
     (snd (counted_pairs G U pos l)
      + snd (counted_pairs G U (pos + draws_taken l) l'))%Z).
Proof.
  revert pos. induction l as [|e l IH]; intros pos.
  - simpl. rewrite Nat.add_0_r. destruct (counted_pairs G U pos l'). reflexivity.
  - cbn [app counted_pairs draws_taken fold_right].
    fold (draws_taken l). rewrite IH.
    replace (pos + length (entity_neighbours e) + draws_taken l)%nat
      with (pos + (length (entity_neighbours e) + draws_taken l))%nat by lia.
    destruct (retained G U pos e =? 0)%Z; simpl; f_equal; lia.
Qed.

Lemma visited_cons (W : World) (h : Z) (hs : list Z) (l : list Entity) :
  data W !! h = Some l -> visited W (h :: hs) = l ++ visited W hs.
Proof. intros H. unfold visited. simpl. rewrite H. reflexivity. Qed.

Lemma compute_dmat_body_spent (G : Globals) (M : MathFns) (U : nat -> Q)
    (s : DmatState) (W : World) (e : Entity) :
  spent e -> compute_dmat_body G M U s W e = None.
Proof.
  intros He. unfold compute_dmat_body.
  destruct (progress G); [|reflexivity]. simpl.
  destruct e as [d|]; [|reflexivity]. simpl in He. rewrite He. reflexivity.
Qed.

(** One turn of the loop of [compute_dmat]. *)
Lemma compute_dmat_body_step (G : Globals) (M : MathFns) (U : nat -> Q)
    (s s' : DmatState) (W W' : World) (e e' : Entity) :
  compute_dmat_body G M U s W e = Some (s', W', e') ->
  rng_pos W' = (rng_pos W + length (entity_neighbours e))%nat
  /\ data W' = data W
  /\ (if (retained G U (rng_pos W) e =? 0)%Z
      then dm_num_pairs s' = dm_num_pairs s
           /\ dm_num_pairs_used s' = dm_num_pairs_used s /\ e' = e
      else dm_num_pairs s'
           = (dm_num_pairs s + Z.of_nat (length (entity_neighbours e)))%Z
           /\ dm_num_pairs_used s'
              = (dm_num_pairs_used s + retained G U (rng_pos W) e)%Z
           /\ spent e').
Proof.
  intros H. pose proof H as Hb. unfold compute_dmat_body in H.
  destruct (progress G); simpl in H; [|discriminate].
  destruct e as [d|]; [|discriminate].
  destruct (neighbours d) as [nb|] eqn:Hnb; simpl in H; [|discriminate].
  destruct (compute_dmat_body_skip _ _ _ _ _ _ _ _ _ _ Hnb Hb) as [Hskip Hkeep].
  unfold retained, entity_neighbours. rewrite Hnb. simpl.
  unfold draw_mask in Hskip, Hkeep.
  assert (Hw : rng_pos W' = (rng_pos W + length nb)%nat /\ data W' = data W).
  { destruct (_ =? 0)%Z in H.
    - injection H as _ <- _. simpl. auto.
    - bind_inv H. injection H as _ <- _. simpl. auto. }
  destruct Hw as [Hr Hd]. split; [exact Hr|]. split; [exact Hd|].
  destruct (Z.eqb_spec (mask_sum (map (fun u => Qltb (reject G) u)
                                      (map U (seq (rng_pos W) (length nb))))) 0)
    as [Hz|Hz].
  - destruct (Hskip Hz) as (H1 & H2 & _ & H4). auto.
  - destruct (Hkeep Hz) as (H1 & H2 & ->). simpl. auto.
Qed.

Lemma compute_dmat_for_each_spent (G : Globals) (M : MathFns) (U : nat -> Q)
    (l : list Entity) (s : DmatState) (W : World) :
  Exists spent l -> for_each (compute_dmat_body G M U) s W l = None.
Proof.
  intros H. revert s W. induction H as [e l He | e l _ IH]; intros s W.
  - cbn [for_each]. rewrite (compute_dmat_body_spent _ _ _ _ _ _ He). reflexivity.
  - cbn [for_each].
    destruct (compute_dmat_body G M U s W e) as [[[s1 W1] e1]|]; [|reflexivity].
    simpl. rewrite IH. reflexivity.
Qed.

Lemma compute_dmat_for_each_counts (G : Globals) (M : MathFns) (U : nat -> Q)
    (l : list Entity) (s s' : DmatState) (W W' : World) (l' : list Entity) :
  for_each (compute_dmat_body G M U) s W l = Some (s', W', l') ->
  dm_num_pairs s'
  = (dm_num_pairs s + fst (counted_pairs G U (rng_pos W) l))%Z
  /\ dm_num_pairs_used s'
     = (dm_num_pairs_used s + snd (counted_pairs G U (rng_pos W) l))%Z
  /\ rng_pos W' = (rng_pos W + draws_taken l)%nat
  /\ data W' = data W
  /\ (l' = l \/ Exists spent l').
Proof.
  revert s W s' W' l'. induction l as [|e l IH]; intros s W s' W' l' H.
  - injection H as <- <- <-. simpl. repeat split; try lia. left. reflexivity.
  - cbn [for_each] in H.
    destruct (compute_dmat_body G M U s W e) as [[[s1 W1] e1]|] eqn:Eb;
      simpl in H; [|discriminate].
    destruct (for_each _ s1 W1 l) as [[[s2 W2] l2]|] eqn:El; simpl in H;
      [|discriminate].
    injection H as <- <- <-.
    destruct (compute_dmat_body_step _ _ _ _ _ _ _ _ _ Eb) as (Hr & Hd & Hc).
    destruct (IH _ _ _ _ _ El) as (I1 & I2 & I3 & I4 & I5).
    rewrite Hr in I1, I2, I3.
    cbn [counted_pairs draws_taken fold_right]. fold (draws_taken l).
    destruct (retained G U (rng_pos W) e =? 0)%Z.
    + destruct Hc as (C1 & C2 & ->).
      repeat split; try congruence; try lia.
      destruct I5 as [-> | I5]; [left; reflexivity | right; right; exact I5].
    + destruct Hc as (C1 & C2 & C3). simpl.
      repeat split; try congruence; try lia.
      right. left. exact C3.
Qed.

Lemma compute_dmat_loop_counts (G : Globals) (M : MathFns) (U : nat -> Q) (W : World)
    (healpixs : list Z) (s s' : DmatState) (Wc W' : World) :
  agrees_or_spent W Wc ->
  for_healpixs (fun _ => compute_dmat_body G M U) s Wc healpixs = Some (s', W') ->
  dm_num_pairs s'
  = (dm_num_pairs s + fst (counted_pairs G U (rng_pos Wc) (visited W healpixs)))%Z
  /\ dm_num_pairs_used s'
     = (dm_num_pairs_used s
        + snd (counted_pairs G U (rng_pos Wc) (visited W healpixs)))%Z.
Proof.
  revert s Wc. induction healpixs as [|h hs IH]; intros s Wc Hag H.
  - injection H as <- <-. simpl. lia.
  - cbn [for_healpixs] in H.
    destruct (data Wc !! h) as [l|] eqn:El; simpl in H; [|discriminate].
    destruct (for_each _ s Wc l) as [[[s1 W1] l1]|] eqn:Ef; simpl in H;
      [|discriminate].
    assert (HlW : data W !! h = Some l).
    { destruct (Hag h) as [Heq | (l0 & Hl0 & Hsp)]; [congruence|].
      assert (l0 = l) by congruence. subst l0.
      rewrite (compute_dmat_for_each_spent _ _ _ _ _ _ Hsp) in Ef. discriminate. }
    destruct (compute_dmat_for_each_counts _ _ _ _ _ _ _ _ _ Ef)
      as (C1 & C2 & C3 & C4 & C5).
    apply IH in H.
    + simpl in H. destruct H as [H1 H2].
      rewrite (visited_cons _ _ _ _ HlW), counted_pairs_app. simpl.
      rewrite C3 in H1, H2. lia.
    + intros h'. simpl. rewrite C4.
      destruct (decide (h = h')) as [<-|Hne].
      * rewrite lookup_insert_eq.
        destruct C5 as [-> | C5]; [left; congruence | right; eauto].
      * rewrite lookup_insert_ne by exact Hne. apply Hag.
Qed.

Lemma counted_pairs_le (G : Globals) (U : nat -> Q) (pos : nat) (es : list Entity) :
  (0 <= fst (counted_pairs G U pos es) <= sumZ (map entity_pairs es))%Z.
Proof.
  revert pos. induction es as [|e es IH]; intros pos; simpl; [lia|].
  specialize (IH (pos + length (entity_neighbours e))%nat).
  assert (He : entity_pairs e = Z.of_nat (length (entity_neighbours e))).
  { destruct e as [d|]; [|reflexivity]. simpl. destruct (neighbours d); reflexivity. }
  rewrite He. destruct (_ =? 0)%Z; simpl; lia.
Qed.

Lemma sumZ_app (l l' : list Z) : sumZ (l ++ l') = (sumZ l + sumZ l')%Z.
Proof. induction l as [|x l IH]; simpl; lia. Qed.

Lemma input_pairs_visited (W : World) (healpixs : list Z) :
  input_pairs W healpixs = sumZ (map entity_pairs (visited W healpixs)).
Proof.
  unfold input_pairs, visited. induction healpixs as [|h hs IH]; [reflexivity|].
  simpl. rewrite map_app, sumZ_app, IH. reflexivity.
Qed.

(** C10.  In [compute_dmat] a delta all of whose neighbours are rejected
    is skipped before its neighbours are added to [num_pairs].  So the
    [num_pairs] and the [num_pairs_used] a run returns are the counts
    over the visited deltas that kept at least one neighbour, of all
    their neighbours and of the retained ones; [num_pairs] is at most
    the number of delta-neighbour pairs of the input, and with
    0 < reject < 1 it can be smaller. *)
Theorem compute_dmat_counts_unrejected_deltas :
  (forall (G : Globals) (M : MathFns) (U : nat -> Q) (healpixs : list Z)
          (W W' : World) (res : DmatResult),
      compute_dmat G M U healpixs W = Some (res, W') ->
      (out_num_pairs res, out_num_pairs_used res)
      = counted_pairs G U (rng_pos W) (visited W healpixs)
      /\ (out_num_pairs res <= input_pairs W healpixs)%Z)
  /\ (exists (G : Globals) (M : MathFns) (U : nat -> Q) (healpixs : list Z)
             (W W' : World) (res : DmatResult),
         0 < reject G /\ reject G < 1
         /\ (forall k, 0 <= U k /\ U k < 1)
         /\ compute_dmat G M U healpixs W = Some (res, W')
         /\ (out_num_pairs res < input_pairs W healpixs)%Z).
Proof.
  split.
  - intros G M U healpixs W W' res H. unfold compute_dmat in H.
    destruct (dmat_zeros G) as [s0|] eqn:E0; simpl in H; [|discriminate].
    destruct (for_healpixs _ s0 W healpixs) as [[s W1]|] eqn:Es; simpl in H;
      [|discriminate].
    injection H as <- <-. simpl.
    destruct (dmat_zeros_inv _ _ E0) as (Z1 & Z2 & _).
    destruct (compute_dmat_loop_counts G M U W healpixs s0 s W W1) as [H1 H2];
      [intros h; left; reflexivity | exact Es |].
    rewrite Z1 in H1. rewrite Z2 in H2. simpl in H1, H2.
    pose proof (counted_pairs_le G U (rng_pos W) (visited W healpixs)) as Hle.
    rewrite <- input_pairs_visited in Hle.
    split; [|lia].
    rewrite H1, H2.
    destruct (counted_pairs G U (rng_pos W) (visited W healpixs)). reflexivity.
  - exists (with_reject G0 (1 # 2)), math0, U_third, [5%Z],
           (world_with [forest_AB 0; forest_AB 0]).
    assert (H : { rw | compute_dmat (with_reject G0 (1 # 2)) math0 U_third [5%Z]
                         (world_with [forest_AB 0; forest_AB 0])
                       = Some rw }).
    { eexists. vm_compute. reflexivity. }
    destruct H as [[res W'] H]. exists W', res.
    split; [reflexivity|]. split; [reflexivity|]. split.
    + intros [|[|[|k]]]; split; simpl; lra.
    + split; [exact H|]. vm_compute in H. injection H as <- <-. reflexivity.
Qed.

(** Two deltas with the neighbours [objA] and [objB], under
    [reject = 1/2]: the draws are 1/4, 1/4 for the first, which is
    skipped, and 3/4, 1/4 for the second.  Of the four pairs of the
    input the two of the second delta are counted, and one is used. *)
Lemma compute_dmat_counts_unrejected_deltas_witness :
  exists res W',
    compute_dmat (with_reject G0 (1 # 2)) math0 U_third [5%Z]
                 (world_with [forest_AB 0; forest_AB 0])
    = Some (res, W')
    /\ input_pairs (world_with [forest_AB 0; forest_AB 0]) [5%Z] = 4%Z
    /\ out_num_pairs res = 2%Z /\ out_num_pairs_used res = 1%Z.
Proof.
  assert (H : { rw | compute_dmat (with_reject G0 (1 # 2)) math0 U_third [5%Z]
                       (world_with [forest_AB 0; forest_AB 0])
                     = Some rw }).
  { eexists. vm_compute. reflexivity. }
  destruct H as [[res W'] H]. exists res, W'. split; [exact H|].
  split; [reflexivity|].
  destruct (proj1 compute_dmat_counts_unrejected_deltas _ _ _ _ _ _ _ H) as [Hc _].
  injection Hc as -> ->. split; reflexivity.
Defined.

(** [reject = 0] with a first draw of exactly zero: of the two
    neighbours of [forest_AB] one is kept. *)
Lemma reject_zero_counterexample :
  reject G0 == 0
  /\ (forall k, 0 <= U_zero_first k /\ U_zero_first k < 1)
  /\ exists res W',
       compute_dmat G0 math0 U_zero_first [5%Z] (world_of (forest_AB 0))
       = Some (res, W')
       /\ out_num_pairs res = 2%Z /\ out_num_pairs_used res = 1%Z
       /\ out_num_pairs_used res <> out_num_pairs res.
Proof.
  split; [reflexivity|]. split.
  - intros [|k]; split; simpl; lra.
  - assert (H : { rw | compute_dmat G0 math0 U_zero_first [5%Z]
                         (world_of (forest_AB 0)) = Some rw }).
    { eexists. vm_compute. reflexivity. }
    destruct H as [[res W'] H]. exists res, W'. split; [exact H|].
    vm_compute in H. injection H as <- <-.
    split; [reflexivity|]. split; [reflexivity | discriminate].
Qed.

(** [reject = 0] with every draw at one half. *)
Lemma reject_probability_law_witness :
  exists res W',
    compute_dmat G0 math0 U_half [5%Z] (world_of (forest_AB 0)) = Some (res, W')
    /\ out_num_pairs res = 2%Z
    /\ out_num_pairs_used res = out_num_pairs res.
Proof.
  assert (H : { rw | compute_dmat G0 math0 U_half [5%Z] (world_of (forest_AB 0))
                     = Some rw }).
  { eexists. vm_compute. reflexivity. }
  destruct H as [[res W'] H]. exists res, W'. split; [exact H|].
  assert (HU : forall k, 0 <= U_half k /\ U_half k < 1).
  { intros k. unfold U_half. split; lra. }
  pose proof (proj1 (reject_probability_law G0 math0 U_half [5%Z] _ _ _ HU H)
                    (Qeq_refl 0)) as Heq.
  split; [|apply Heq; intros k; unfold U_half; lra].
  vm_compute in H. injection H as <- <-. reflexivity.
Defined.

(** *** The linear term of the distortion matrix *)

(** C2 fails on the code.  [compute_dmat_forest_pairs] takes no fit
    order and always applies [eta4]: on every input it does what the
    specification asks for a forest of order 1.  For the two-pixel
    forest [forest2] of fit order 0 and the neighbour [objA], the code
    returns an all-zero distortion matrix (the linear term removes what
    the mean term left), where the identity and mean-subtraction terms
    alone give [1/2, -1/2, -1/2, 1/2]; [compute_dmat] returns the same
    matrix for the forest at order 0 and at order 1. *)
Theorem dmat_linear_term_at_order_zero :
  (forall (G : Globals) (M : MathFns)
          (log_lambda1 r_comov1 dist_m1 z1 weights1
           r_comov2 dist_m2 z2 weights2 ang : list Q) (A : DmatAcc),
      compute_dmat_forest_pairs G M log_lambda1 r_comov1 dist_m1 z1 weights1
                                r_comov2 dist_m2 z2 weights2 ang A
      = spec_dmat_forest_pairs 1 G M log_lambda1 r_comov1 dist_m1 z1 weights1
                               r_comov2 dist_m2 z2 weights2 ang A)
  /\ order (forest2 0 [3; 4] (Some [objA])) = 0%Z
  /\ (exists A,
        compute_dmat_forest_pairs G0 math0 [3; 4] [110; 130] [110; 130] [2; 2]
                                  [1; 1] [100] [100] [2] [1] [0] acc0 = Some A
        /\ map Qred (dmat A) = [0; 0; 0; 0])
  /\ (exists A,
        spec_dmat_forest_pairs 0 G0 math0 [3; 4] [110; 130] [110; 130] [2; 2]
                               [1; 1] [100] [100] [2] [1] [0] acc0 = Some A
        /\ map Qred (dmat A) = [1 # 2; -1 # 2; -1 # 2; 1 # 2])
  /\ (exists r0 W0 r1 W1,
        compute_dmat G0 math0 U_half [5%Z] (world_of (forest2 0 [3; 4] (Some [objA])))
        = Some (r0, W0)
        /\ compute_dmat G0 math0 U_half [5%Z]
                        (world_of (forest2 1 [3; 4] (Some [objA])))
           = Some (r1, W1)
        /\ out_dmat r0 = out_dmat r1
        /\ map (map Qred) (out_dmat r0) = [[0; 0]; [0; 0]]).
Proof.
  split; [reflexivity|]. split; [reflexivity|]. split; [|split].
  - eexists. split; [vm_compute; reflexivity | reflexivity].
  - eexists. split; [vm_compute; reflexivity | reflexivity].
  - do 4 eexists. split; [vm_compute; reflexivity|].
    split; [vm_compute; reflexivity|]. split; reflexivity.
Qed.

(** *** The neighbours compute_metal_dmat runs over *)

(** The draws reach nothing but [num_pairs_used]: two turns of the loop
    of [compute_metal_dmat] that differ in the stream of draws only
    raise together, or end with the same accumulators, the same
    [num_pairs], the same world and the same delta. *)
Lemma metal_body_draw_irrelevant (G : Globals) (M : MathFns) (E : MetalEnv)
    (U U' : nat -> Q) (s : DmatState) (W : World) (e : Entity) :
  match compute_metal_dmat_body G M E U s W e,
        compute_metal_dmat_body G M E U' s W e with
  | Some (s1, W1, e1), Some (s2, W2, e2) =>
      dm_acc s1 = dm_acc s2 /\ dm_num_pairs s1 = dm_num_pairs s2
      /\ W1 = W2 /\ e1 = e2
  | None, None => True
  | _, _ => False
  end.
Proof.
  unfold compute_metal_dmat_body.
  destruct (progress G); simpl; [|exact Logic.I].
  destruct e as [delta1|]; [|exact Logic.I].
  destruct (neighbours delta1) as [nb|]; simpl; [|exact Logic.I].
  destruct (_ || _); [exact Logic.I|].
  destruct (mapM (get_r_comov E) _) as [rc|]; simpl; [|exact Logic.I].
  destruct (mapM (get_dist_m E) _) as [dm|]; simpl; [|exact Logic.I].
  destruct (bool_index (r_comov delta1) _) as [r1|]; simpl; [|exact Logic.I].
  destruct (bool_index (dist_m delta1) _) as [d1|]; simpl; [|exact Logic.I].
  destruct (bool_index (weights delta1) _) as [w1|]; simpl; [|exact Logic.I].
  destruct (negb (nonempty r1)); [simpl; auto|].
  destruct (metal_processed nb _) as [objs2|]; simpl; [|exact Logic.I].
  destruct (fold_opt _ objs2 _) as [A|]; simpl; [auto | exact Logic.I].
Qed.

(** C3 fails on the code.  The mask of the draw is overwritten by the
    cut on the pixels before [delta1.neighbours] is indexed with it, so
    the draws decide [num_pairs_used] and nothing else.  With
    [reject = 1/2], [forest_metal [objA; objB]] (two pixels, both passing
    the cut) and both draws at 1/4, no neighbour is retained
    ([num_pairs_used = 0]), yet both are binned; the accumulators are
    those of a run whose draws retain both neighbours.  With a single
    neighbour the index has not the length of the array and the call
    raises. *)
Theorem metal_dmat_ignores_the_draw :
  let G := with_reject G0 (1 # 2) in
  (forall (M : MathFns) (E : MetalEnv) (U U' : nat -> Q) (s : DmatState)
          (W : World) (e : Entity),
      match compute_metal_dmat_body G M E U s W e,
            compute_metal_dmat_body G M E U' s W e with
      | Some (s1, W1, e1), Some (s2, W2, e2) =>
          dm_acc s1 = dm_acc s2 /\ dm_num_pairs s1 = dm_num_pairs s2
          /\ W1 = W2 /\ e1 = e2
      | None, None => True
      | _, _ => False
      end)
  /\ mask_select (draw_mask G U_quarters (world_of (forest_metal [objA; objB])) 2)
                 [objA; objB] = []
  /\ metal_processed [objA; objB] [true; true] = Some [objA; objB]
  /\ (exists r W' r2 W2,
        compute_metal_dmat G math0 env0 U_quarters [5%Z]
                           (world_of (forest_metal [objA; objB])) = Some (r, W')
        /\ compute_metal_dmat G math0 env0 (fun _ => 3 # 4) [5%Z]
                              (world_of (forest_metal [objA; objB])) = Some (r2, W2)
        /\ out_num_pairs r = 2%Z /\ out_num_pairs_used r = 0%Z
        /\ out_num_pairs_used r2 = 2%Z
        /\ map Qred (out_weights_dmat r) = [2; 2]
        /\ out_weights_dmat r = out_weights_dmat r2
        /\ out_dmat r = out_dmat r2
        /\ out_weight_eff r = out_weight_eff r2)
  /\ compute_metal_dmat G math0 env0 (fun _ => 3 # 4) [5%Z]
                        (world_of (forest_metal [objA])) = None.
Proof.
  intros G. split; [intros M E U U' s W e; apply metal_body_draw_irrelevant|].
  split; [reflexivity|]. split; [reflexivity|]. split.
  - do 4 eexists. split; [vm_compute; reflexivity|].
    split; [vm_compute; reflexivity|]. repeat split; reflexivity.
  - vm_compute. reflexivity.
Qed.

(** *** Shape of the Wick diagram matrices *)

Lemma fold_opt_inv {A B : Type} (I : B -> Prop) (f : B -> A -> option B) :
  (forall b x b', I b -> f b x = Some b' -> I b') ->
  forall l b b', I b -> fold_opt f l b = Some b' -> I b'.
Proof.
  intros Hf. induction l as [|x l IH]; intros b b' Hb H.
  - injection H as <-. exact Hb.
  - cbn [fold_opt] in H. destruct (f b x) as [b1|] eqn:E; simpl in H; [|discriminate].
    exact (IH _ _ (Hf _ _ _ Hb E) H).
Qed.

Lemma norm_index_lt (n : nat) (i : Z) (k : nat) :
  norm_index n i = Some k -> (k < n)%nat.
Proof.
  unfold norm_index. destruct (Z.ltb_spec i 0).
  - destruct (Z.ltb_spec (i + Z.of_nat n) 0); [discriminate|]. intros [= <-]. lia.
  - destruct (Z.ltb_spec i (Z.of_nat n)); [|discriminate]. intros [= <-]. lia.
Qed.

Lemma iadd_at_inv {A : Type} (add : A -> A -> A) (a a' : list A) (i : Z) (v : A) :
  iadd_at add a i v = Some a' ->
  exists k x, norm_index (length a) i = Some k /\ a !! k = Some x
              /\ a' = <[k := add x v]> a.
Proof.
  unfold iadd_at. intros H.
  destruct (norm_index (length a) i) as [k|]; simpl in H; [|discriminate].
  destruct (a !! k) as [x|] eqn:E; simpl in H; [|discriminate].
  injection H as <-. eauto.
Qed.

Lemma miadd_inv (n : nat) (T T' : Matrix) (p1 p2 : Z) (v : Q) :
  square n T -> miadd T p1 p2 v = Some T' ->
  exists i j x,
    norm_index n p1 = Some i /\ norm_index n p2 = Some j
    /\ entry T i j = Some x /\ square n T'
    /\ forall a b, entry T' a b
                   = if decide (a = i /\ b = j) then Some (x + v) else entry T a b.
Proof.
  intros [Hlen Hrows] H. unfold miadd in H. rewrite Hlen in H.
  destruct (norm_index n p1) as [i|] eqn:Ei; simpl in H; [|discriminate].
  destruct (T !! i) as [row|] eqn:Er; simpl in H; [|discriminate].
  destruct (iadd_at Qplus row p2 v) as [row'|] eqn:Ea; simpl in H; [|discriminate].
  injection H as <-.
  assert (Hrow : length row = n).
  { rewrite List.Forall_forall in Hrows. apply Hrows.
    apply list_elem_of_In. eapply list_elem_of_lookup_2. exact Er. }
  apply iadd_at_inv in Ea as (j & x & Ej & Ex & ->). rewrite Hrow in Ej.
  exists i, j, x. split; [reflexivity|]. split; [exact Ej|].
  split; [unfold entry; rewrite Er; exact Ex|]. split.
  - split; [rewrite length_insert; exact Hlen|].
    apply Forall_insert; [exact Hrows|]. rewrite length_insert. exact Hrow.
  - intros a b. unfold entry.
    assert (Hi : (i < length T)%nat) by (eapply lookup_lt_Some; exact Er).
    destruct (decide (a = i)) as [->|Hne].
    + rewrite list_lookup_insert_eq by exact Hi. simpl.
      rewrite Er. simpl.
      destruct (decide (b = j)) as [->|Hnb].
      * rewrite list_lookup_insert_eq by (eapply lookup_lt_Some; exact Ex).
        destruct (decide (i = i /\ j = j)); [reflexivity | tauto].
      * rewrite list_lookup_insert_ne by congruence.
        destruct (decide (i = i /\ b = j)); [tauto | reflexivity].
    + rewrite list_lookup_insert_ne by congruence.
      destruct (decide (a = i /\ b = j)); [tauto | reflexivity].
Qed.

Lemma miadd_sym_ok (n : nat) (T T' : Matrix) (p1 p2 : Z) (v : Q) :
  square n T -> symmetric T -> miadd_sym T p1 p2 v = Some T' ->
  square n T' /\ symmetric T'.
Proof.
  intros Hsq Hsym H. unfold miadd_sym in H.
  destruct (miadd T p1 p2 v) as [T1|] eqn:E1; simpl in H; [|discriminate].
  destruct (miadd_inv n _ _ _ _ _ Hsq E1) as (i & j & x & Hi & Hj & Hx & Hsq1 & H1).
  destruct (miadd_inv n _ _ _ _ _ Hsq1 H) as (j' & i' & y & Hj' & Hi' & Hy & Hsq2 & H2).
  assert (j' = j) by congruence. assert (i' = i) by congruence. subst i' j'.
  split; [exact Hsq2|]. intros a b. rewrite !H2, !H1.
  rewrite H1 in Hy. pose proof (Hsym i j) as Hij. pose proof (Hsym a b) as Hab.
  repeat (destruct (decide _) as [[? ?]|?]; subst); try tauto; try congruence.
Qed.

Lemma miadd_diag_ok (n : nat) (T T' : Matrix) (p : Z) (v : Q) :
  square n T -> diagonal T -> miadd T p p v = Some T' ->
  square n T' /\ diagonal T'.
Proof.
  intros Hsq Hd H.
  destruct (miadd_inv n _ _ _ _ _ Hsq H) as (i & j & x & Hi & Hj & Hx & Hsq1 & H1).
  assert (j = i) by congruence. subst j.
  split; [exact Hsq1|]. intros a b y Hne Hy. rewrite H1 in Hy.
  destruct (decide (a = i /\ b = i)) as [[-> ->]|_]; [contradiction|].
  exact (Hd a b y Hne Hy).
Qed.

Lemma entry_repeat (n a b : nat) (x : Q) :
  entry (repeat (repeat 0 n) n) a b = Some x -> x = 0.
Proof.
  unfold entry. intros H.
  destruct (repeat (repeat 0 n) n !! a) as [row|] eqn:E; simpl in H; [|discriminate].
  apply list_elem_of_lookup_2, list_elem_of_In, repeat_spec in E. subst row.
  apply list_elem_of_lookup_2, list_elem_of_In, repeat_spec in H. exact H.
Qed.

Lemma lookup_repeat {A : Type} (x : A) (n k : nat) :
  repeat x n !! k = if (k <? n)%nat then Some x else None.
Proof.
  revert k. induction n as [|n IH]; intros [|k]; try reflexivity.
  simpl. rewrite IH. reflexivity.
Qed.

Lemma entry_repeat_sym (n a b : nat) :
  entry (repeat (repeat 0 n) n) a b = entry (repeat (repeat 0 n) n) b a.
Proof.
  unfold entry. rewrite !lookup_repeat.
  destruct (a <? n)%nat eqn:Ea, (b <? n)%nat eqn:Eb; simpl;
    rewrite ?lookup_repeat, ?Ea, ?Eb; reflexivity.
Qed.

Lemma mzeros_ok (n : Z) (T : Matrix) :
  mzeros n = Some T ->
  square (Z.to_nat n) T /\ symmetric T /\ diagonal T
  /\ T = repeat (repeat 0 (Z.to_nat n)) (Z.to_nat n).
Proof.
  unfold mzeros. destruct (n <? 0)%Z; [discriminate|]. intros [= <-].
  split; [|split; [|split; [|reflexivity]]].
  - split; [apply repeat_length|].
    apply List.Forall_forall. intros row Hr. apply repeat_spec in Hr. subst row.
    apply repeat_length.
  - intros a b. apply entry_repeat_sym.
  - intros a b x _ Hx. eapply entry_repeat. exact Hx.
Qed.

Lemma miadd_sym_sym_ok (n : nat) (T T' : Matrix) (p1 p2 : Z) (v : Q) :
  sym_ok n T -> miadd_sym T p1 p2 v = Some T' -> sym_ok n T'.
Proof. intros [Hsq Hs] H. exact (miadd_sym_ok n _ _ _ _ _ Hsq Hs H). Qed.

Lemma wick_k2_ok (n : nat) (G : Globals) (c1d_1 : Matrix)
    (zw1 zw2 weights1 : list Q) (p1 p2 : Pair) (s s' : Wick1234) :
  wick_ok n s -> wick_k2 G c1d_1 zw1 zw2 weights1 p1 s p2 = Some s' -> wick_ok n s'.
Proof.
  intros (H1 & H2 & H3 & H4) H. unfold wick_k2 in H.
  destruct (_ =? _)%Z; [|destruct (_ =? _)%Z];
    bind_inv H; injection H as <-; unfold wick_ok; simpl;
    repeat split; try apply H1; try apply H2; try apply H3; try apply H4;
    try (eapply miadd_sym_sym_ok; [|eassumption]; assumption);
    match goal with
    | E : miadd_sym ?T _ _ _ = Some ?T', Hs : sym_ok n ?T |- _ =>
        apply (miadd_sym_sym_ok n T T' _ _ _ Hs E)
    end.
Qed.

Lemma wick_k1_ok (n : nat) (G : Globals) (c1d_1 : Matrix)
    (zw1 zw2 weights1 : list Q) (sel : list Pair) (s s' : Wick1234) :
  wick_ok n s -> wick_k1 G c1d_1 zw1 zw2 weights1 sel s = Some s' -> wick_ok n s'.
Proof.
  revert s. induction sel as [|p1 rest IH]; intros s Hs H.
  - injection H as <-. exact Hs.
  - cbn [wick_k1] in H.
    destruct (getitem weights1 _) as [we1|]; simpl in H; [|discriminate].
    destruct (getitem zw1 _) as [zp|]; simpl in H; [|discriminate].
    destruct (Qeq_bool we1 0); [discriminate|].
    destruct (iadd_at Qplus _ _ _) as [wa|]; simpl in H; [|discriminate].
    destruct (iadd_at Z.add _ _ _) as [np|]; simpl in H; [|discriminate].
    destruct (miadd (T1 s) _ _ _) as [t1|] eqn:Et; simpl in H; [|discriminate].
    destruct (fold_opt _ rest _) as [s1|] eqn:Ef; simpl in H; [|discriminate].
    apply (IH s1); [|exact H].
    refine (fold_opt_inv (wick_ok n) _ _ rest _ _ _ Ef).
    + intros b x b'. apply wick_k2_ok.
    + destruct Hs as ([Hq Hd] & H2 & H3 & H4). unfold wick_ok. simpl.
      split; [|auto]. exact (miadd_diag_ok n _ _ _ _ Hq Hd Et).
Qed.

Lemma fill_wickT1234_ok (n : nat) (G : Globals) (M : MathFns)
    (ang r_comov1 r_comov2 z1 z2 weights1 weights2 : list Q) (c1d_1 : Matrix)
    (s s' : Wick1234) :
  wick_ok n s ->
  fill_wickT1234 G M ang r_comov1 r_comov2 z1 z2 weights1 weights2 c1d_1 s = Some s' ->
  wick_ok n s'.
Proof.
  intros Hs H. unfold fill_wickT1234 in H.
  destruct (negb _); [discriminate|].
  destruct (negb _); [injection H as <-; exact Hs|].
  destruct (Qeq_bool _ 0); [discriminate|].
  destruct (cast_undefined _ _); [discriminate|].
  eapply wick_k1_ok; eassumption.
Qed.

Lemma fill_wickT56_ok (n : nat) (G : Globals) (M : MathFns)
    (ang12 ang34 : list Q) (ang13 : Q)
    (r_comov1 r_comov2 r3 r4 weights1 weights2 w3 w4 : list Q)
    (thingid2 thingid4 : list Z) (T5 T6 T5' T6' : Matrix) :
  sym_ok n T5 -> sym_ok n T6 ->
  fill_wickT56 G M ang12 ang34 ang13 r_comov1 r_comov2 r3 r4 weights1 weights2
               w3 w4 thingid2 thingid4 T5 T6 = Some (T5', T6') ->
  sym_ok n T5' /\ sym_ok n T6'.
Proof.
  intros H5 H6 H. unfold fill_wickT56 in H.
  destruct (negb _); [discriminate|].
  destruct (negb _); [injection H as <- <-; auto|].
  destruct (cfWick G) as [cf|]; simpl in H; [|discriminate].
  destruct (mapM _ r3) as [cf13|]; simpl in H; [|discriminate].
  destruct (negb _); [injection H as <- <-; auto|].
  destruct (negb _); [injection H as <- <-; auto|].
  match type of H with
  | (mbind _ ?m = Some _) => destruct m as [t5|] eqn:E5; simpl in H; [|discriminate]
  end.
  assert (H5' : sym_ok n t5).
  { refine (fold_opt_inv (sym_ok n) _ _ _ _ _ H5 E5).
    intros T p1 T' HT. apply fold_opt_inv; [|exact HT].
    intros T0 p2 T0' HT0 Hi. unfold wick_t5_inner in Hi. bind_inv Hi.
    eapply miadd_sym_sym_ok; eassumption. }
  destruct (_ =? _)%Z; [injection H as <- <-; auto|].
  match type of H with
  | (mbind _ ?m = Some _) => destruct m as [t6|] eqn:E6; simpl in H; [|discriminate]
  end.
  injection H as <- <-. split; [exact H5'|].
  refine (fold_opt_inv (sym_ok n) _ _ _ _ _ H6 E6).
  intros T p1 T' HT. apply fold_opt_inv; [|exact HT].
  intros T0 p2 T0' HT0 Hi. unfold wick_t6_inner in Hi. bind_inv Hi.
  destruct (_ =? _)%Z; [injection Hi as <-; exact HT0|].
  eapply miadd_sym_sym_ok; eassumption.
Qed.

Lemma wick_d3_ok (n : nat) (G : Globals) (M : MathFns) (d1 d3 : Delta)
    (nb1 : list Object) (T T' : Matrix * Matrix) :
  sym_ok n (fst T) /\ sym_ok n (snd T) ->
  wick_d3 G M d1 nb1 T d3 = Some T' ->
  sym_ok n (fst T') /\ sym_ok n (snd T').
Proof.
  intros HT H. unfold wick_d3 in H.
  destruct (neighbours d3) as [nb3|]; simpl in H; [|discriminate].
  destruct (negb _); [injection H as <-; exact HT|].
  destruct (_ =? 5)%Z; [|discriminate].
  destruct (_ =? 0)%Z; [injection H as <-; exact HT|].
  destruct (_ =? 0)%Z; [injection H as <-; exact HT|].
  destruct T' as [T5' T6']. destruct HT as [H5 H6].
  exact (fill_wickT56_ok n _ _ _ _ _ _ _ _ _ _ _ _ _ _ _ _ _ _ _ H5 H6 H).
Qed.

Lemma wick_higher_ok (n : nat) (G : Globals) (M : MathFns) :
  higher_ok n (wick_higher G M).
Proof.
  intros d nb T T' HT H. unfold wick_higher in H.
  destruct (cfWick G); [|injection H as <-; exact HT].
  destruct (_ <=? 4)%Z; [injection H as <-; exact HT|].
  refine (fold_opt_inv (fun T => sym_ok n (fst T) /\ sym_ok n (snd T))
                       _ _ _ _ _ HT H).
  intros T0 d3 T0'. apply wick_d3_ok.
Qed.

Lemma skip_higher_ok (n : nat) : higher_ok n (fun _ _ T => Some T).
Proof. intros d nb T T' HT [= <-]. exact HT. Qed.

Lemma wick_d1_ok (n : nat)
    (higher : Delta -> list Object -> Matrix * Matrix -> option (Matrix * Matrix))
    (G : Globals) (M : MathFns) (E : WickEnv)
    (sW sW' : WickAcc * World) (e : Entity) :
  higher_ok n higher -> wick_acc_ok n (fst sW) ->
  wick_d1 higher G M E sW e = Some sW' -> wick_acc_ok n (fst sW').
Proof.
  intros Hh Hs H. destruct sW as [s W]. unfold wick_d1 in H.
  destruct (_ || _); [discriminate|].
  destruct e as [d1|]; [|discriminate].
  destruct (neighbours d1) as [nb|]; simpl in H; [|discriminate].
  destruct (negb (nonempty nb)); [injection H as <-; exact Hs|].
  destruct (v1d E _) as [v1f|]; simpl in H; [|discriminate].
  destruct (c1d E _) as [c1f|]; simpl in H; [|discriminate].
  destruct (negb _); [discriminate|].
  destruct (fill_wickT1234 _ _ _ _ _ _ _ _ _ _ _) as [s1|] eqn:E1; simpl in H;
    [|discriminate].
  destruct (higher d1 nb _) as [[t5 t6]|] eqn:E2; simpl in H; [|discriminate].
  injection H as <-. destruct Hs as (H1 & H5 & H6). unfold wick_acc_ok. simpl.
  split; [exact (fill_wickT1234_ok n _ _ _ _ _ _ _ _ _ _ _ _ H1 E1)|].
  exact (Hh d1 nb (w_T5 s, w_T6 s) (t5, t6) (conj H5 H6) E2).
Qed.

Lemma wick_healpix_ok (n : nat)
    (higher : Delta -> list Object -> Matrix * Matrix -> option (Matrix * Matrix))
    (G : Globals) (M : MathFns) (E : WickEnv) (U : nat -> Q)
    (sW sW' : WickAcc * World) (healpix : Z) :
  higher_ok n higher -> wick_acc_ok n (fst sW) ->
  wick_healpix higher G M E U sW healpix = Some sW' -> wick_acc_ok n (fst sW').
Proof.
  intros Hh Hs H. destruct sW as [s W]. unfold wick_healpix in H.
  destruct (data W !! healpix) as [l|]; simpl in H; [|discriminate].
  destruct (_ =? 0)%Z; [injection H as <-; exact Hs|].
  refine (fold_opt_inv (fun sW => wick_acc_ok n (fst sW)) _ _ _ _ _ _ H).
  - intros b x b'. apply wick_d1_ok. exact Hh.
  - exact Hs.
Qed.

Lemma wick_zeros_ok (G : Globals) (s0 : WickAcc) :
  wick_zeros G = Some s0 ->
  wick_acc_ok (Z.to_nat (num_bins_r_par G * num_bins_r_trans G)) s0.
Proof.
  unfold wick_zeros. intros H.
  destruct (mzeros _) as [T|] eqn:ET; simpl in H; [|discriminate].
  bind_inv H. injection H as <-.
  destruct (mzeros_ok _ _ ET) as (Hsq & Hsym & Hd & _).
  unfold wick_acc_ok, wick_ok, sym_ok, diag_ok. simpl. tauto.
Qed.

Lemma wickT_with_ok
    (higher : Delta -> list Object -> Matrix * Matrix -> option (Matrix * Matrix))
    (G : Globals) (M : MathFns) (E : WickEnv) (U : nat -> Q) (pix : list Z)
    (W W' : World) (res : WickResult) :
  higher_ok (Z.to_nat (num_bins_r_par G * num_bins_r_trans G)) higher ->
  wickT_with higher G M E U pix W = Some (res, W') ->
  diagonal (wr_T1 res) /\ symmetric (wr_T2 res) /\ symmetric (wr_T3 res)
  /\ symmetric (wr_T4 res) /\ symmetric (wr_T5 res) /\ symmetric (wr_T6 res).
Proof.
  intros Hh H. unfold wickT_with in H.
  destruct (wick_zeros G) as [s0|] eqn:E0; simpl in H; [|discriminate].
  destruct (fold_opt _ pix _) as [[s W1]|] eqn:Ef; simpl in H; [|discriminate].
  injection H as <- <-.
  assert (Hs : wick_acc_ok (Z.to_nat (num_bins_r_par G * num_bins_r_trans G))
                           (fst (s, W1))).
  { refine (fold_opt_inv (fun sW => wick_acc_ok _ (fst sW)) _ _ _ _ _ _ Ef).
    - intros b x b'. apply wick_healpix_ok. exact Hh.
    - exact (wick_zeros_ok G s0 E0). }
  destruct Hs as (((_ & H1) & (_ & H2) & (_ & H3) & (_ & H4)) & (_ & H5) & (_ & H6)).
  simpl. tauto.
Qed.

(** C6.  Of the matrices [wickT] returns, [T1] is zero off its diagonal
    and [T2] to [T6] are symmetric ([T[i, j]] and [T[j, i]] are the same
    number for all bins).  Every contribution off the diagonal goes
    through [T[p1, p2] += wcorr; T[p2, p1] += wcorr]: [fill_wickT1234]
    and [fill_wickT56] keep these shapes, whatever [max_diagram] is. *)
Theorem wick_matrices_shape (G : Globals) (M : MathFns) (E : WickEnv)
    (U : nat -> Q) (pix : list Z) (W W' : World) (res : WickResult) :
  wickT G M E U pix W = Some (res, W') ->
  (diagonal (wr_T1 res) /\ symmetric (wr_T2 res) /\ symmetric (wr_T3 res)
   /\ symmetric (wr_T4 res) /\ symmetric (wr_T5 res) /\ symmetric (wr_T6 res))
  /\ (forall n ang r_comov1 r_comov2 z1 z2 weights1 weights2 c1d_1 s s',
         wick_ok n s ->
         fill_wickT1234 G M ang r_comov1 r_comov2 z1 z2 weights1 weights2 c1d_1 s
         = Some s' ->
         wick_ok n s')
  /\ (forall n ang12 ang34 ang13 r_comov1 r_comov2 r3 r4 weights1 weights2 w3 w4
             thingid2 thingid4 T5 T6 T5' T6',
         sym_ok n T5 -> sym_ok n T6 ->
         fill_wickT56 G M ang12 ang34 ang13 r_comov1 r_comov2 r3 r4 weights1
                      weights2 w3 w4 thingid2 thingid4 T5 T6 = Some (T5', T6') ->
         sym_ok n T5' /\ sym_ok n T6').
Proof.
  intros H. split; [|split].
  - eapply wickT_with_ok; [apply wick_higher_ok | exact H].
  - intros n ang r_comov1 r_comov2 z1 z2 weights1 weights2 c1d_1 s s' Hs Hf.
    exact (fill_wickT1234_ok n _ _ _ _ _ _ _ _ _ _ _ _ Hs Hf).
  - intros n ang12 ang34 ang13 r_comov1 r_comov2 r3 r4 weights1 weights2 w3 w4
           thingid2 thingid4 T5 T6 T5' T6' H5 H6 Hf.
    exact (fill_wickT56_ok n _ _ _ _ _ _ _ _ _ _ _ _ _ _ _ _ _ _ _ H5 H6 Hf).
Qed.

(** A run with [max_diagram = 5]: [T5] receives the pairs of
    [forest_dn] and of its neighbouring forest that share [objA]. *)
Lemma wick_matrices_shape_witness :
  exists res W',
    wickT G5 math0 wenv0 U_half [5%Z] (world_of forest_dn) = Some (res, W')
    /\ map (map Qred) (wr_T3 res) = [[2; 0]; [0; 2]]
    /\ map (map Qred) (wr_T5 res) = [[2 # 3; 11 # 15]; [11 # 15; 4 # 3]]
    /\ diagonal (wr_T1 res) /\ symmetric (wr_T2 res) /\ symmetric (wr_T5 res).
Proof.
  assert (H : { rw | wickT G5 math0 wenv0 U_half [5%Z] (world_of forest_dn)
                     = Some rw }).
  { eexists. vm_compute. reflexivity. }
  destruct H as [[res W'] H]. exists res, W'. split; [exact H|].
  destruct (wick_matrices_shape G5 math0 wenv0 U_half [5%Z] _ _ _ H)
    as ((H1 & H2 & _ & _ & H5 & _) & _).
  vm_compute in H. injection H as <- <-.
  split; [reflexivity|]. split; [reflexivity|]. auto.
Defined.

(** *** The higher-order diagrams of wickT *)








(** *** What a pass changes in the entities *)

Lemma only_neighbours_refl (e : Entity) : only_neighbours e e.
Proof. destruct e as [d|]; simpl; [|exact Logic.I]. repeat split; auto. Qed.

Lemma only_neighbours_clear (d : Delta) :
  only_neighbours (Attrs d) (Attrs (set_neighbours d None)).
Proof. simpl. repeat split; auto. Qed.

Lemma only_neighbours_trans (e1 e2 e3 : Entity) :
  only_neighbours e1 e2 -> only_neighbours e2 e3 -> only_neighbours e1 e3.
Proof.
  destruct e1 as [d1|], e2 as [d2|], e3 as [d3|]; simpl; try tauto.
  intros (A1 & A2 & A3 & A4 & A5 & A6 & A7 & A8 & A9 & A10 & A11 & A12 & A13 & A14 & A15)
         (B1 & B2 & B3 & B4 & B5 & B6 & B7 & B8 & B9 & B10 & B11 & B12 & B13 & B14 & B15).
  repeat split; try congruence.
  destruct B15 as [B|B]; [|right; exact B].
  destruct A15 as [A|A]; [left | right]; congruence.
Qed.

Lemma same_or_all_none_refl (e : Entity) : same_or_all_none e e.
Proof. left. reflexivity. Qed.

Lemma same_or_all_none_trans (e1 e2 e3 : Entity) :
  same_or_all_none e1 e2 -> same_or_all_none e2 e3 -> same_or_all_none e1 e3.
Proof. intros [-> | ->] [-> | ->]; unfold same_or_all_none; auto. Qed.

Section Frame.
Context {S : Type} (R : Entity -> Entity -> Prop).
Hypothesis R_refl : forall e, R e e.
Hypothesis R_trans : forall e1 e2 e3, R e1 e2 -> R e2 e3 -> R e1 e3.

Lemma Forall2_R_refl (l : list Entity) : Forall2 R l l.
Proof. induction l; constructor; auto. Qed.

Lemma Forall2_R_trans (l1 l2 l3 : list Entity) :
  Forall2 R l1 l2 -> Forall2 R l2 l3 -> Forall2 R l1 l3.
Proof.
  intros H12. revert l3. induction H12 as [|x y l1 l2 Hxy _ IH]; intros l3 H23.
  - inversion H23. constructor.
  - inversion H23; subst. constructor; eauto.
Qed.

Lemma world_frame_refl' (W W' : World) :
  data W' = data W -> objs W' = objs W -> world_frame R W W'.
Proof.
  intros Hd Ho. split; [exact Ho|]. intros h. rewrite Hd.
  destruct (data W !! h); constructor. apply Forall2_R_refl.
Qed.

Lemma world_frame_trans (W1 W2 W3 : World) :
  world_frame R W1 W2 -> world_frame R W2 W3 -> world_frame R W1 W3.
Proof.
  intros [Ho1 Hd1] [Ho2 Hd2]. split; [congruence|]. intros h.
  specialize (Hd1 h). specialize (Hd2 h).
  destruct Hd1 as [l1 l2 H12|]; inversion Hd2; subst; constructor.
  eapply Forall2_R_trans; eassumption.
Qed.

Lemma for_each_frame (body : S -> World -> Entity -> option (S * World * Entity)) :
  (forall s W e s' W' e',
      body s W e = Some (s', W', e') ->
      R e e' /\ data W' = data W /\ objs W' = objs W) ->
  forall l s W s' W' l',
    for_each body s W l = Some (s', W', l') ->
    Forall2 R l l' /\ data W' = data W /\ objs W' = objs W.
Proof.
  intros Hbody. induction l as [|e l IH]; intros s W s' W' l' H.
  - injection H as <- <- <-. split; [constructor | auto].
  - cbn [for_each] in H.
    destruct (body s W e) as [[[s1 W1] e1]|] eqn:Eb; simpl in H; [|discriminate].
    destruct (for_each body s1 W1 l) as [[[s2 W2] l2]|] eqn:El; simpl in H;
      [|discriminate].
    injection H as <- <- <-.
    destruct (Hbody _ _ _ _ _ _ Eb) as (He & Hd1 & Ho1).
    destruct (IH _ _ _ _ _ El) as (Hl & Hd2 & Ho2).
    split; [constructor; assumption|]. split; congruence.
Qed.

Lemma for_healpixs_frame
    (body : Z -> S -> World -> Entity -> option (S * World * Entity)) :
  (forall h s W e s' W' e',
      body h s W e = Some (s', W', e') ->
      R e e' /\ data W' = data W /\ objs W' = objs W) ->
  forall healpixs s W s' W',
    for_healpixs body s W healpixs = Some (s', W') -> world_frame R W W'.
Proof.
  intros Hbody. induction healpixs as [|h hs IH]; intros s W s' W' H.
  - injection H as <- <-. apply world_frame_refl'; reflexivity.
  - cbn [for_healpixs] in H.
    destruct (data W !! h) as [l|] eqn:El; simpl in H; [|discriminate].
    destruct (for_each (body h) s W l) as [[[s1 W1] l1]|] eqn:Ef; simpl in H;
      [|discriminate].
    destruct (for_each_frame (body h) (Hbody h) _ _ _ _ _ _ Ef) as (Hl & Hd & Ho).
    eapply world_frame_trans; [|exact (IH _ _ _ _ H)].
    split; [exact Ho|]. intros h'. simpl. rewrite Hd.
    destruct (decide (h = h')) as [->|Hne].
    + rewrite lookup_insert_eq, El. constructor. exact Hl.
    + rewrite lookup_insert_ne by exact Hne.
      destruct (data W !! h'); constructor. apply Forall2_R_refl.
Qed.
End Frame.

Lemma compute_xi_body_frame (G : Globals) (M : MathFns) (a a' : XiAcc)
    (W W' : World) (e e' : Entity) :
  compute_xi_body G M a W e = Some (a', W', e') ->
  only_neighbours e e' /\ data W' = data W /\ objs W' = objs W.
Proof.
  intros H. unfold compute_xi_body in H.
  destruct (progress G); simpl in H; [|discriminate].
  destruct e as [d|]; [|discriminate].
  bind_inv H. injection H as <- <- <-.
  split; [apply only_neighbours_clear | auto].
Qed.

Lemma compute_dmat_body_frame (G : Globals) (M : MathFns) (U : nat -> Q)
    (s s' : DmatState) (W W' : World) (e e' : Entity) :
  compute_dmat_body G M U s W e = Some (s', W', e') ->
  only_neighbours e e' /\ data W' = data W /\ objs W' = objs W.
Proof.
  intros H. unfold compute_dmat_body in H.
  destruct (progress G); simpl in H; [|discriminate].
  destruct e as [d|]; [|discriminate].
  destruct (neighbours d) as [nb|]; simpl in H; [|discriminate].
  destruct (_ =? _)%Z.
  - injection H as <- <- <-. split; [apply only_neighbours_refl | auto].
  - bind_inv H. injection H as <- <- <-.
    split; [apply only_neighbours_clear | auto].
Qed.

Lemma compute_metal_dmat_body_frame (G : Globals) (M : MathFns) (E : MetalEnv)
    (U : nat -> Q) (s s' : DmatState) (W W' : World) (e e' : Entity) :
  compute_metal_dmat_body G M E U s W e = Some (s', W', e') ->
  only_neighbours e e' /\ data W' = data W /\ objs W' = objs W.
Proof.
  intros H. unfold compute_metal_dmat_body in H.
  destruct (progress G); simpl in H; [|discriminate].
  destruct e as [d|]; [|discriminate].
  destruct (neighbours d) as [nb|]; simpl in H; [|discriminate].
  destruct (_ || _); [discriminate|].
  bind_inv H.
  destruct (negb _).
  - injection H as <- <- <-. split; [apply only_neighbours_refl | auto].
  - bind_inv H. injection H as <- <- <-.
    split; [apply only_neighbours_clear | auto].
Qed.

Lemma xcf1d_body_frame (M : MathFns) (fast_xcf : FastXcf) (healpix : Z)
    (a a' : Xcf1dAcc) (W W' : World) (e e' : Entity) :
  xcf1d_body M fast_xcf healpix a W e = Some (a', W', e') ->
  same_or_all_none e e' /\ data W' = data W /\ objs W' = objs W.
Proof.
  intros H. unfold xcf1d_body in H.
  destruct (objs W !! healpix) as [os|]; simpl in H; [|discriminate].
  destruct e as [d|].
  - destruct (negb _).
    + injection H as <- <- <-. split; [left; reflexivity | auto].
    + bind_inv H. injection H as <- <- <-. split; [right; reflexivity | auto].
  - injection H as <- <- <-. split; [left; reflexivity | auto].
Qed.

Lemma wickT_data (G : Globals) (M : MathFns) (E : WickEnv) (U : nat -> Q)
    (pix : list Z) (W W' : World) (res : WickResult) :
  wickT G M E U pix W = Some (res, W') -> data W' = data W /\ objs W' = objs W.
Proof.
  intros H. unfold wickT, wickT_with in H.
  destruct (wick_zeros G) as [s0|]; simpl in H; [|discriminate].
  destruct (fold_opt _ pix _) as [[s W1]|] eqn:Ef; simpl in H; [|discriminate].
  injection H as <- <-.
  refine (fold_opt_inv (fun sW => data (snd sW) = data W /\ objs (snd sW) = objs W)
                       _ _ pix (s0, W) (s, W1) _ Ef); [|simpl; auto].
  intros [s1 W2] healpix [s2 W3] Hs1 Hh. unfold wick_healpix in Hh.
  destruct (data W2 !! healpix) as [l|]; simpl in Hh; [|discriminate].
  destruct (_ =? 0)%Z; [injection Hh as <- <-; exact Hs1|].
  refine (fold_opt_inv (fun sW => data (snd sW) = data W /\ objs (snd sW) = objs W)
                       _ _ _ _ _ _ Hh); [|exact Hs1].
  intros [s3 W4] e [s4 W5] Hs3 Hd. unfold wick_d1 in Hd.
  destruct (_ || _); [discriminate|].
  destruct e as [d1|]; [|discriminate].
  destruct (neighbours d1) as [nb|]; simpl in Hd; [|discriminate].
  destruct (negb (nonempty nb)); [injection Hd as <- <-; exact Hs3|].
  bind_inv Hd.
  destruct (negb _); [discriminate|].
  bind_inv Hd.
  match type of Hd with
  | context [let '(_, _) := ?r in _] => destruct r as [t5 t6]
  end.
  injection Hd as <- <-. exact Hs3.
Qed.

(** [xcf1d] as xcf.py has it, [fast_xcf] being bound nowhere: a delta
    that shares its [thingid] with an object raises at the call, before
    the loop that sets its attributes to [None] is reached; the others
    are left as they are. *)
Lemma xcf1d_body_unbound_frame (M : MathFns) (healpix : Z)
    (a a' : Xcf1dAcc) (W W' : World) (e e' : Entity) :
  xcf1d_body M fast_xcf_unbound healpix a W e = Some (a', W', e') ->
  only_neighbours e e' /\ data W' = data W /\ objs W' = objs W.
Proof.
  intros H. unfold xcf1d_body in H.
  destruct (objs W !! healpix) as [os|]; simpl in H; [|discriminate].
  destruct e as [d|].
  - destruct (negb _); [|discriminate].
    injection H as <- <- <-. split; [apply only_neighbours_refl | auto].
  - injection H as <- <- <-. split; [apply only_neighbours_refl | auto].
Qed.

(** C9.  A pass of [compute_xi], [compute_dmat], [compute_metal_dmat],
    [wickT] or [xcf1d] that returns leaves every object and every field
    of every delta as it was, but for the [neighbours] of the deltas it
    has processed, which it clears.  [wickT] clears none; and [xcf1d],
    which calls a [fast_xcf] that xcf.py does not bind, returns only
    when no delta shares its [thingid] with an object, and then has
    changed nothing. *)
Theorem passes_frame (G : Globals) (M : MathFns) (Em : MetalEnv) (Ew : WickEnv)
    (U : nat -> Q) (healpixs : list Z) (W W' : World) :
  (forall res, compute_xi G M healpixs W = Some (res, W') ->
               world_frame only_neighbours W W')
  /\ (forall res, compute_dmat G M U healpixs W = Some (res, W') ->
                  world_frame only_neighbours W W')
  /\ (forall res, compute_metal_dmat G M Em U healpixs W = Some (res, W') ->
                  world_frame only_neighbours W W')
  /\ (forall res, wickT G M Ew U healpixs W = Some (res, W') ->
                  data W' = data W /\ world_frame only_neighbours W W')
  /\ (forall res, xcf1d G M fast_xcf_unbound healpixs W = Some (res, W') ->
                  world_frame only_neighbours W W').
Proof.
  split; [|split; [|split; [|split]]]; intros res H.
  - unfold compute_xi in H.
    destruct (compute_xi_sums G M healpixs W) as [[a W1]|] eqn:Es; simpl in H;
      [|discriminate].
    injection H as _ <-. unfold compute_xi_sums in Es.
    destruct (xi_zeros _) as [a0|]; simpl in Es; [|discriminate].
    eapply (for_healpixs_frame only_neighbours only_neighbours_refl
                               only_neighbours_trans); [|exact Es].
    intros h s W0 e s' W0' e' Hb. cbv beta in Hb.
    exact (compute_xi_body_frame _ _ _ _ _ _ _ _ Hb).
  - unfold compute_dmat in H.
    destruct (dmat_zeros G) as [s0|]; simpl in H; [|discriminate].
    destruct (for_healpixs _ s0 W healpixs) as [[s W1]|] eqn:Es; simpl in H;
      [|discriminate].
    injection H as _ <-.
    eapply (for_healpixs_frame only_neighbours only_neighbours_refl
                               only_neighbours_trans); [|exact Es].
    intros h s1 W0 e s' W0' e' Hb. cbv beta in Hb.
    exact (compute_dmat_body_frame _ _ _ _ _ _ _ _ _ Hb).
  - unfold compute_metal_dmat in H.
    destruct (dmat_zeros G) as [s0|]; simpl in H; [|discriminate].
    destruct (for_healpixs _ s0 W healpixs) as [[s W1]|] eqn:Es; simpl in H;
      [|discriminate].
    injection H as _ <-.
    eapply (for_healpixs_frame only_neighbours only_neighbours_refl
                               only_neighbours_trans); [|exact Es].
    intros h s1 W0 e s' W0' e' Hb. cbv beta in Hb.
    exact (compute_metal_dmat_body_frame _ _ _ _ _ _ _ _ _ _ Hb).
  - destruct (wickT_data _ _ _ _ _ _ _ _ H) as [Hd Ho].
    split; [exact Hd|].
    apply (world_frame_refl' only_neighbours only_neighbours_refl); assumption.
  - unfold xcf1d in H.
    destruct (np_zeros _) as [zq|]; simpl in H; [|discriminate].
    destruct (np_zeros_int _) as [zi|]; simpl in H; [|discriminate].
    destruct (for_healpixs _ _ W healpixs) as [[a W1]|] eqn:Es; simpl in H;
      [|discriminate].
    injection H as _ <-.
    eapply (for_healpixs_frame only_neighbours only_neighbours_refl
                               only_neighbours_trans); [|exact Es].
    intros h s1 W0 e s' W0' e' Hb.
    exact (xcf1d_body_unbound_frame _ _ _ _ _ _ _ _ Hb).
Qed.

(** A pass of [compute_xi] over [forest_AB]: its neighbours are cleared
    and nothing else has changed. *)
Lemma passes_frame_witness :
  exists res W',
    compute_xi G0 math0 [5%Z] (world_of (forest_AB 0)) = Some (res, W')
    /\ data W' !! 5%Z = Some [Attrs (set_neighbours (forest_AB 0) None)]
    /\ world_frame only_neighbours (world_of (forest_AB 0)) W'.
Proof.
  assert (H : { rw | compute_xi G0 math0 [5%Z] (world_of (forest_AB 0)) = Some rw }).
  { eexists. vm_compute. reflexivity. }
  destruct H as [[res W'] H]. exists res, W'. split; [exact H|].
  pose proof (proj1 (passes_frame G0 math0 env0 wenv0 U_half [5%Z]
                       (world_of (forest_AB 0)) W') res H) as Hf.
  split; [|exact Hf].
  vm_compute in H. injection H as <- <-. reflexivity.
Defined.

(** *** Totals and shape of the correlation function *)

Lemma sumQ_indicator_filter {A : Type} (f : A -> bool) (l : list A) :
  sumQ (map (fun p => indicator (f p)) l)
  == inject_Z (Z.of_nat (length (List.filter f l))).
Proof.
  induction l as [|x l IH]; [reflexivity|].
  cbn [map sumQ fold_right List.filter]. fold (sumQ (map (fun p => indicator (f p)) l)).
  rewrite IH. destruct (f x); cbn [indicator length].
  - rewrite Nat2Z.inj_succ, <- Z.add_1_l, inject_Z_plus. reflexivity.
  - ring.
Qed.

Lemma hist_total {A : Type} (g : A -> Z) (f : A -> Q) (sel : list A) (r : list Q) :
  bincount (combine (map g sel) (map f sel)) = Some r ->
  sumQ r == sumQ (map f sel)
  /\ length r = bincount_len (map g sel).
Proof.
  intros H. split.
  - rewrite (bincount_sum _ _ H), combine_map_snd. reflexivity.
  - rewrite (bincount_length _ _ H), combine_map_fst. reflexivity.
Qed.

(** X2.  The histograms a call of [compute_xi_forest_pairs] returns:
    the weights sum to the total weight of the pairs that pass the mask,
    the correlation sums to their total [delta*weight], the pair counts
    sum to the number of those pairs whose weight is positive (a pair of
    weight zero or less is binned but not counted), and the six arrays
    have the same length. *)
Theorem xi_forest_pairs_totals (G : Globals) (M : MathFns)
    (z1 r_comov1 dist_m1 weights1 delta1 z2 r_comov2 dist_m2 weights2 ang : list Q)
    (r : XiRebin) :
  compute_xi_forest_pairs G M z1 r_comov1 dist_m1 weights1 delta1
                          z2 r_comov2 dist_m2 weights2 ang = Some r ->
  let sel := List.filter (pair_mask G)
               (xi_pairs G M z1 r_comov1 dist_m1 weights1 delta1
                         z2 r_comov2 dist_m2 weights2 ang) in
  sumQ (rebin_weight r) == sumQ (map pr_weights12 sel)
  /\ sumQ (rebin_xi r) == sumQ (map pr_delta_times_weight sel)
  /\ sumQ (rebin_num_pairs r)
     == inject_Z (Z.of_nat (length (List.filter
                                      (fun p => Qltb 0 (pr_weights12 p)) sel)))
  /\ length (rebin_xi r) = length (rebin_weight r)
  /\ length (rebin_r_par r) = length (rebin_weight r)
  /\ length (rebin_r_trans r) = length (rebin_weight r)
  /\ length (rebin_z r) = length (rebin_weight r)
  /\ length (rebin_num_pairs r) = length (rebin_weight r).
Proof.
  intros H sel. unfold compute_xi_forest_pairs in H.
  destruct (negb _); [discriminate|]. fold sel in H.
  unfold xi_rebin in H. destruct (cast_undefined G sel); [discriminate|].
  bind_inv H. injection H as <-. simpl.
  destruct (hist_total _ _ _ _ E) as [S1 L1].
  destruct (hist_total _ _ _ _ E0) as [S2 L2].
  destruct (hist_total _ _ _ _ E1) as [S3 L3].
  destruct (hist_total _ _ _ _ E2) as [S4 L4].
  destruct (hist_total _ _ _ _ E3) as [S5 L5].
  destruct (hist_total _ _ _ _ E4) as [S6 L6].
  split; [exact S2|]. split; [exact S1|].
  split; [rewrite S6; apply (sumQ_indicator_filter (fun p => Qltb 0 (pr_weights12 p)))|].
  repeat split; congruence.
Qed.

(** The two pixels of [forest2] against [objA] and an object of weight
    zero. *)
Lemma xi_forest_pairs_totals_witness :
  exists r,
    compute_xi_forest_pairs G0 math0 [2; 2] [110; 130] [110; 130] [1; 1]
                            [1 # 2; 1 # 4] [2; 2] [100; 105] [100; 105] [1; 0] [0; 0]
    = Some r
    /\ sumQ (rebin_weight r) == 2 /\ sumQ (rebin_num_pairs r) == 2.
Proof.
  assert (H : { r | compute_xi_forest_pairs G0 math0 [2; 2] [110; 130] [110; 130]
                      [1; 1] [1 # 2; 1 # 4] [2; 2] [100; 105] [100; 105] [1; 0] [0; 0]
                    = Some r }).
  { eexists. vm_compute. reflexivity. }
  destruct H as [r H]. exists r. split; [exact H|].
  destruct (xi_forest_pairs_totals _ _ _ _ _ _ _ _ _ _ _ _ _ H) as (Sw & _ & Sn & _).
  split.
  - rewrite Sw. vm_compute. reflexivity.
  - rewrite Sn. vm_compute. reflexivity.
Defined.

Lemma np_zeros_length (n : Z) (a : list Q) :
  np_zeros n = Some a -> length a = Z.to_nat n.
Proof.
  unfold np_zeros. destruct (n <? 0)%Z; [discriminate|].
  intros [= <-]. apply repeat_length.
Qed.

Lemma np_zeros_int_length (n : Z) (a : list Z) :
  np_zeros_int n = Some a -> length a = Z.to_nat n.
Proof.
  unfold np_zeros_int. destruct (n <? 0)%Z; [discriminate|].
  intros [= <-]. apply repeat_length.
Qed.

Lemma xi_accumulate_shape (n : nat) (a a' : XiAcc) (r : XiRebin) :
  xi_acc_shape n a -> xi_accumulate a r = Some a' -> xi_acc_shape n a'.
Proof.
  intros (A1 & A2 & A3 & A4 & A5 & A6) H. unfold xi_accumulate in H.
  bind_inv H. injection H as <-. unfold xi_acc_shape. simpl.
  rewrite (iadd_prefix_length _ _ _ _ E), (iadd_prefix_length _ _ _ _ E0),
    (iadd_prefix_length _ _ _ _ E1), (iadd_prefix_length _ _ _ _ E2),
    (iadd_prefix_length _ _ _ _ E3), (iadd_prefix_length _ _ _ _ E4).
  auto 6.
Qed.

Lemma compute_xi_body_shape (n : nat) (G : Globals) (M : MathFns) (a a' : XiAcc)
    (W W' : World) (e e' : Entity) :
  xi_acc_shape n a -> True ->
  compute_xi_body G M a W e = Some (a', W', e') ->
  xi_acc_shape n a' /\ True /\ data W' = data W.
Proof.
  intros Ha _ H. unfold compute_xi_body in H.
  destruct (progress G); simpl in H; [|discriminate].
  destruct e as [d|]; [|discriminate].
  destruct (neighbours d) as [nb|]; simpl in H; [|discriminate].
  destruct (nonempty nb).
  - bind_inv H. injection H as <- <- <-.
    split; [|auto]. destruct (xi_forest_pairs_of G M d nb) as [r0|] eqn:Er;
      simpl in E; [|discriminate].
    exact (xi_accumulate_shape _ _ _ _ Ha E).
  - simpl in H. injection H as <- <- <-. auto.
Qed.

Lemma world_all_True (W : World) : world_all (fun _ => True) W.
Proof. intros h l _. apply List.Forall_forall. auto. Qed.

Lemma normalize_length (sums wsum : list Q) :
  length sums = length wsum -> length (normalize sums wsum) = length wsum.
Proof. intros H. unfold normalize. rewrite length_zip_with. lia. Qed.

(** X3.  Every array [compute_xi] returns has
    [num_bins_r_par*num_bins_r_trans] entries, whatever the deltas it
    has visited; the product of the two bin counts is not negative in a
    run that returns. *)
Theorem compute_xi_shape (G : Globals) (M : MathFns) (healpixs : list Z)
    (W W' : World) (res : XiResult) :
  compute_xi G M healpixs W = Some (res, W') ->
  let n := Z.to_nat (num_bins_r_par G * num_bins_r_trans G) in
  (0 <= num_bins_r_par G * num_bins_r_trans G)%Z
  /\ length (res_weights res) = n /\ length (res_xi res) = n
  /\ length (res_r_par res) = n /\ length (res_r_trans res) = n
  /\ length (res_z res) = n /\ length (res_num_pairs res) = n.
Proof.
  intros H n. unfold compute_xi in H.
  destruct (compute_xi_sums G M healpixs W) as [[a W1]|] eqn:Es; simpl in H;
    [|discriminate].
  injection H as <- <-. simpl. unfold compute_xi_sums in Es.
  destruct (xi_zeros _) as [a0|] eqn:E0; simpl in Es; [|discriminate].
  unfold xi_zeros in E0.
  destruct (np_zeros _) as [zq|] eqn:Ez; simpl in E0; [|discriminate].
  destruct (np_zeros_int _) as [zi|] eqn:Ei; simpl in E0; [|discriminate].
  injection E0 as <-.
  assert (Hn : (0 <= num_bins_r_par G * num_bins_r_trans G)%Z).
  { unfold np_zeros in Ez.
    destruct (Z.ltb_spec (num_bins_r_par G * num_bins_r_trans G) 0);
      [discriminate | assumption]. }
  apply np_zeros_length in Ez. apply np_zeros_int_length in Ei.
  assert (Ha : xi_acc_shape n a /\ world_all (fun _ => True) W1).
  { refine (for_healpixs_inv (xi_acc_shape n) (fun _ => True) _ _ healpixs _ W a W1
              _ (world_all_True W) Es).
    - intros h s W0 e s' W0' e' Hs Hp Hb. cbv beta in Hb.
      exact (compute_xi_body_shape n _ _ _ _ _ _ _ _ Hs Hp Hb).
    - unfold xi_acc_shape. simpl. auto 6. }
  destruct Ha as [(A1 & A2 & A3 & A4 & A5 & A6) _].
  split; [exact Hn|]. rewrite !normalize_length by congruence. auto 6.
Qed.

Lemma compute_xi_shape_witness :
  exists res W',
    compute_xi G0 math0 [5%Z] (world_of (forest_AB 0)) = Some (res, W')
    /\ length (res_xi res) = 2%nat /\ length (res_num_pairs res) = 2%nat.
Proof.
  assert (H : { rw | compute_xi G0 math0 [5%Z] (world_of (forest_AB 0)) = Some rw }).
  { eexists. vm_compute. reflexivity. }
  destruct H as [[res W'] H]. exists res, W'. split; [exact H|].
  destruct (compute_xi_shape _ _ _ _ _ _ H) as (_ & _ & L2 & _ & _ & _ & L6).
  split; [exact L2 | exact L6].
Defined.

(** *** The normalisation, whatever the weights *)





(** *** A healpix listed twice, or not stored *)

Section Revisit.
Context {S : Type} (body : Z -> S -> World -> Entity -> option (S * World * Entity)).
Hypothesis body_data :
  forall h s W e s' W' e', body h s W e = Some (s', W', e') -> data W' = data W.

Lemma for_each_data (h : Z) (l : list Entity) (s : S) (W : World)
    (s' : S) (W' : World) (l' : list Entity) :
  for_each (body h) s W l = Some (s', W', l') ->
  data W' = data W /\ length l' = length l.
Proof.
  revert s W s' W' l'. induction l as [|e l IH]; intros s W s' W' l' H.
  - injection H as <- <- <-. auto.
  - cbn [for_each] in H.
    destruct (body h s W e) as [[[s1 W1] e1]|] eqn:Eb; simpl in H; [|discriminate].
    destruct (for_each (body h) s1 W1 l) as [[[s2 W2] l2]|] eqn:El; simpl in H;
      [|discriminate].
    injection H as <- <- <-.
    destruct (IH _ _ _ _ _ El) as [Hd Hl]. apply body_data in Eb.
    split; [congruence | simpl; lia].
Qed.

(** [data[healpix]] raises a KeyError. *)
Lemma for_healpixs_missing (h : Z) (healpixs : list Z) (s : S) (W : World) :
  In h healpixs -> data W !! h = None -> for_healpixs body s W healpixs = None.
Proof.
  revert s W. induction healpixs as [|h' hs IH]; intros s W Hin Hnone; [destruct Hin|].
  cbn [for_healpixs].
  destruct (data W !! h') as [l|] eqn:El; [|reflexivity]. simpl.
  destruct (for_each (body h') s W l) as [[[s1 W1] l1]|] eqn:Ef; [|reflexivity].
  simpl. destruct (for_each_data _ _ _ _ _ _ _ Ef) as [Hd _].
  destruct Hin as [->|Hin]; [congruence|].
  apply IH; [exact Hin|]. simpl. rewrite Hd.
  destruct (decide (h' = h)) as [->|Hne]; [congruence|].
  rewrite lookup_insert_ne by exact Hne. exact Hnone.
Qed.

Hypothesis body_spent : forall h s W e, spent e -> body h s W e = None.
Hypothesis body_marks :
  forall h s W e s' W' e', body h s W e = Some (s', W', e') -> spent e'.

Lemma for_healpixs_spent (h : Z) (healpixs : list Z) (s : S) (W : World)
    (e : Entity) (l : list Entity) :
  In h healpixs -> data W !! h = Some (e :: l) -> spent e ->
  for_healpixs body s W healpixs = None.
Proof.
  revert s W. induction healpixs as [|h' hs IH]; intros s W Hin Hl He; [destruct Hin|].
  cbn [for_healpixs].
  destruct (decide (h' = h)) as [->|Hne].
  - rewrite Hl. simpl. rewrite (body_spent _ _ _ _ He). reflexivity.
  - destruct Hin as [Heq|Hin]; [congruence|].
    destruct (data W !! h') as [l0|] eqn:El; [|reflexivity]. simpl.
    destruct (for_each (body h') s W l0) as [[[s1 W1] l1]|] eqn:Ef; [|reflexivity].
    simpl. destruct (for_each_data _ _ _ _ _ _ _ Ef) as [Hd _].
    apply IH; [exact Hin | | exact He]. simpl. rewrite Hd.
    rewrite lookup_insert_ne by exact Hne. exact Hl.
Qed.

Lemma for_healpixs_twice (h : Z) (a b c : list Z) (s : S) (W : World)
    (e : Entity) (l : list Entity) :
  data W !! h = Some (e :: l) ->
  for_healpixs body s W (a ++ h :: b ++ h :: c) = None.
Proof.
  revert s W e l. induction a as [|h' a IH]; intros s W e l Hl.
  - cbn [app for_healpixs]. rewrite Hl. simpl.
    destruct (body h s W e) as [[[s1 W1] e1]|] eqn:Eb; [|reflexivity]. simpl.
    destruct (for_each (body h) s1 W1 l) as [[[s2 W2] l2]|] eqn:Ef; [|reflexivity].
    simpl. apply (for_healpixs_spent h _ _ _ e1 l2).
    + apply in_or_app. right. left. reflexivity.
    + simpl. apply lookup_insert_eq.
    + exact (body_marks _ _ _ _ _ _ _ Eb).
  - cbn [app for_healpixs].
    destruct (data W !! h') as [l0|] eqn:El; [|reflexivity]. simpl.
    destruct (for_each (body h') s W l0) as [[[s1 W1] l1]|] eqn:Ef; [|reflexivity].
    simpl. destruct (for_each_data _ _ _ _ _ _ _ Ef) as [Hd Hlen].
    destruct (decide (h' = h)) as [->|Hne].
    + assert (l0 = e :: l) by congruence. subst l0.
      destruct l1 as [|e1 l1]; [discriminate|].
      apply (IH _ _ e1 l1). simpl. apply lookup_insert_eq.
    + apply (IH _ _ e l). simpl. rewrite Hd.
      rewrite lookup_insert_ne by exact Hne. exact Hl.
Qed.
End Revisit.

Lemma compute_xi_body_spent (G : Globals) (M : MathFns) (a : XiAcc) (W : World)
    (e : Entity) :
  spent e -> compute_xi_body G M a W e = None.
Proof.
  intros He. unfold compute_xi_body.
  destruct (progress G); [|reflexivity]. simpl.
  destruct e as [d|]; [|reflexivity]. simpl in He. rewrite He. reflexivity.
Qed.

Lemma compute_xi_body_marks (G : Globals) (M : MathFns) (a a' : XiAcc)
    (W W' : World) (e e' : Entity) :
  compute_xi_body G M a W e = Some (a', W', e') -> spent e'.
Proof.
  intros H. unfold compute_xi_body in H.
  destruct (progress G); simpl in H; [|discriminate].
  destruct e as [d|]; [|discriminate].
  bind_inv H. injection H as <- <- <-. reflexivity.
Qed.

(** X4.  [compute_xi] clears the neighbours of every delta it visits,
    and reads them without a test: a list of healpixs that names twice a
    healpix holding a delta makes it raise (on the [.size] of [None]),
    however the run goes in between. *)
Theorem compute_xi_revisit_raises (G : Globals) (M : MathFns) (h : Z)
    (a b c : list Z) (W : World) (e : Entity) (l : list Entity) :
  data W !! h = Some (e :: l) ->
  compute_xi G M (a ++ h :: b ++ h :: c) W = None.
Proof.
  intros Hl. unfold compute_xi, compute_xi_sums.
  destruct (xi_zeros _) as [a0|]; [|reflexivity]. simpl.
  rewrite (for_healpixs_twice (fun _ => compute_xi_body G M)) with (e := e) (l := l);
    [reflexivity | | | | exact Hl].
  - intros h0 s W0 e0 s' W0' e0' Hb. cbv beta in Hb.
    exact (proj1 (proj2 (compute_xi_body_frame _ _ _ _ _ _ _ _ Hb))).
  - intros h0 s W0 e0 He. cbv beta. exact (compute_xi_body_spent _ _ _ _ _ He).
  - intros h0 s W0 e0 s' W0' e0' Hb. cbv beta in Hb.
    exact (compute_xi_body_marks _ _ _ _ _ _ _ _ Hb).
Qed.

(** One visit of healpix 5 returns, two do not. *)
Lemma compute_xi_revisit_raises_witness :
  (exists r, compute_xi G0 math0 [5%Z] (world_of (forest_AB 0)) = Some r)
  /\ compute_xi G0 math0 [5%Z; 5%Z] (world_of (forest_AB 0)) = None.
Proof.
  split.
  - eexists. vm_compute. reflexivity.
  - apply (compute_xi_revisit_raises G0 math0 5%Z [] [] []
             (world_of (forest_AB 0)) (Attrs (forest_AB 0)) []).
    reflexivity.
Defined.

(** *** Shape and totals of the distortion matrix *)

Lemma mask_sum_le (w : list bool) : (mask_sum w <= Z.of_nat (length w))%Z.
Proof.
  unfold mask_sum. apply inj_le. induction w as [|b w IH]; simpl; [lia|].
  destruct b; simpl; lia.
Qed.

Lemma iadd_at_length {A : Type} (add : A -> A -> A) (a a' : list A) (i : Z) (v : A) :
  iadd_at add a i v = Some a' -> length a' = length a.
Proof.
  intros H. apply iadd_at_inv in H as (k & x & _ & _ & ->). apply length_insert.
Qed.

Lemma dmat_rebin_shape (n m : nat) (G : Globals) (sel : list Pair) (A A1 : DmatAcc) :
  dmat_shape n m A -> dmat_rebin G sel A = Some A1 -> dmat_shape n m A1.
Proof.
  intros (S1 & S2 & S3 & S4 & S5 & S6) H. unfold dmat_rebin in H. bind_inv H.
  injection H as <-. unfold dmat_shape. simpl.
  rewrite (iadd_prefix_length _ _ _ _ E0), (iadd_prefix_length _ _ _ _ E2),
    (iadd_prefix_length _ _ _ _ E4), (iadd_prefix_length _ _ _ _ E6),
    (iadd_prefix_length _ _ _ _ E8).
  auto 6.
Qed.

Lemma dmat_fill_length (G : Globals) (n1 n2 : Z) (eta2 eta4 llmm : list Q)
    (sel : list Pair) (dm dm' : list Q) :
  dmat_fill G n1 n2 eta2 eta4 llmm sel dm = Some dm' -> length dm' = length dm.
Proof.
  unfold dmat_fill. intros H.
  refine (fold_opt_inv (fun x => length x = length dm) _ _ _ _ _ _ H); [|reflexivity].
  intros b p b' Hb Hp. unfold dmat_fill_pair in Hp.
  destruct (iadd_at Qplus b _ _) as [dm1|] eqn:E1; simpl in Hp; [|discriminate].
  apply iadd_at_length in E1.
  refine (fold_opt_inv (fun x => length x = length dm) _ _ _ _ _ _ Hp); [|congruence].
  intros c u c' Hc Hu. unfold dmat_subtract in Hu. bind_inv Hu.
  apply iadd_at_length in Hu. congruence.
Qed.

(** One call of [compute_dmat_forest_pairs] on accumulators of a given
    shape keeps the shape, and adds the same total to the data-bin
    weights and to the model-bin weights. *)
Lemma dmat_forest_pairs_step (n m : nat) (G : Globals) (M : MathFns)
    (log_lambda1 r_comov1 dist_m1 z1 weights1
     r_comov2 dist_m2 z2 weights2 ang : list Q) (A A' : DmatAcc) :
  dmat_shape n m A ->
  compute_dmat_forest_pairs G M log_lambda1 r_comov1 dist_m1 z1 weights1
                            r_comov2 dist_m2 z2 weights2 ang A = Some A' ->
  dmat_shape n m A'
  /\ sumQ (weights_dmat A') - sumQ (weights_dmat A)
     == sumQ (weight_eff A') - sumQ (weight_eff A).
Proof.
  intros Hshape H. unfold compute_dmat_forest_pairs in H.
  destruct (negb _); [discriminate|].
  set (sel := dmat_selected G M r_comov1 dist_m1 z1 weights1
                            r_comov2 dist_m2 z2 weights2 ang) in *.
  destruct (cast_undefined G sel); [discriminate|].
  destruct (Qeq_bool (sumQ weights1) 0); [discriminate|].
  destruct (dmat_rebin G sel A) as [A1|] eqn:E1; simpl in H; [|discriminate].
  destruct (dmat_eta2 _ _ _ _ _) as [eta2|]; simpl in H; [|discriminate].
  destruct (dmat_eta4 _ _ _ _ _ _) as [eta4|]; simpl in H; [|discriminate].
  destruct (dmat_fill _ _ _ _ _ _ _ _) as [dm|] eqn:E4; simpl in H; [|discriminate].
  injection H as <-.
  pose proof (dmat_rebin_shape _ _ _ _ _ _ Hshape E1) as (S1 & S2 & S3 & S4 & S5 & S6).
  pose proof (dmat_fill_length _ _ _ _ _ _ _ _ _ E4) as Hlen.
  split.
  { unfold dmat_shape. simpl. repeat split; try assumption. congruence. }
  simpl. destruct Hshape as (H1 & H2 & _ & _ & _ & H6).
  apply dmat_rebin_weights in E1 as (Hdm & He & Hd).
  assert (Hne : nonempty sel = true -> length (dmat A) <> 0%nat).
  { intros Hn Hz. rewrite Hdm in E4.
    destruct (dmat A); [|discriminate].
    rewrite dmat_fill_nil in E4 by exact Hn. discriminate. }
  assert (He' : sumQ (weight_eff A1)
                == sumQ (weight_eff A) + sumQ (map pr_weights12 sel)).
  { destruct He as [He | [Hnil Hn]]; [exact He|].
    exfalso. apply (Hne Hn). rewrite H2, <- H6, Hnil. simpl. lia. }
  assert (Hd' : sumQ (weights_dmat A1)
                == sumQ (weights_dmat A) + sumQ (map pr_weights12 sel)).
  { destruct Hd as [Hd | [Hnil Hn]]; [exact Hd|].
    exfalso. apply (Hne Hn). rewrite H2, <- H1, Hnil. simpl. lia. }
  lra.
Qed.

Lemma dmat_zeros_shape (G : Globals) (s0 : DmatState) :
  dmat_zeros G = Some s0 ->
  (0 <= num_bins_r_par G * num_bins_r_trans G)%Z
  /\ (0 <= num_model_bins_r_par G * num_model_bins_r_trans G)%Z
  /\ dmat_shape (Z.to_nat (num_bins_r_par G * num_bins_r_trans G))
                (Z.to_nat (num_model_bins_r_par G * num_model_bins_r_trans G))
                (dm_acc s0).
Proof.
  unfold dmat_zeros. intros H.
  destruct (np_zeros (_ * _ * _ * _)) as [dm|] eqn:E1; simpl in H; [|discriminate].
  destruct (np_zeros (num_bins_r_par G * _)) as [wd|] eqn:E2; simpl in H;
    [|discriminate].
  destruct (np_zeros (num_model_bins_r_trans G * _)) as [me|] eqn:E3; simpl in H;
    [|discriminate].
  injection H as <-.
  assert (Hn : (0 <= num_bins_r_par G * num_bins_r_trans G)%Z).
  { unfold np_zeros in E2. destruct (Z.ltb_spec (num_bins_r_par G * num_bins_r_trans G) 0);
      [discriminate | assumption]. }
  assert (Hm : (0 <= num_model_bins_r_trans G * num_model_bins_r_par G)%Z).
  { unfold np_zeros in E3.
    destruct (Z.ltb_spec (num_model_bins_r_trans G * num_model_bins_r_par G) 0);
      [discriminate | assumption]. }
  apply np_zeros_length in E1. apply np_zeros_length in E2.
  apply np_zeros_length in E3.
  rewrite (Z.mul_comm (num_model_bins_r_par G)).
  split; [exact Hn|]. split; [exact Hm|].
  unfold dmat_shape. simpl. repeat split; try assumption.
  rewrite E1, <- Z2Nat.inj_mul by assumption. f_equal. ring.
Qed.

Lemma reshape_shape (rows cols : nat) (a : list Q) :
  length a = (rows * cols)%nat ->
  length (reshape rows cols a) = rows
  /\ Forall (fun row => length row = cols) (reshape rows cols a).
Proof.
  intros Hlen. unfold reshape. split; [rewrite length_map; apply length_seq|].
  apply List.Forall_forall. intros row Hin. apply in_map_iff in Hin as (r & <- & Hr).
  apply in_seq in Hr. rewrite length_firstn, length_skipn. nia.
Qed.

Lemma sumQ_repeat0 (n : nat) : sumQ (repeat 0 n) == 0.
Proof. induction n as [|n IH]; simpl; [reflexivity|]. rewrite IH. ring. Qed.

Lemma dmat_zeros_ok (G : Globals) (s0 : DmatState) :
  dmat_zeros G = Some s0 ->
  dmat_state_ok (Z.to_nat (num_bins_r_par G * num_bins_r_trans G))
                (Z.to_nat (num_model_bins_r_par G * num_model_bins_r_trans G)) s0.
Proof.
  intros H. pose proof (dmat_zeros_shape _ _ H) as (_ & _ & Hs).
  split; [exact Hs|]. unfold dmat_zeros in H. bind_inv H. injection H as <-. simpl.
  unfold np_zeros in E0, E1.
  destruct (_ <? 0)%Z in E0; [discriminate|]. injection E0 as <-.
  destruct (_ <? 0)%Z in E1; [discriminate|]. injection E1 as <-.
  rewrite !sumQ_repeat0. split; [reflexivity | lia].
Qed.

Lemma compute_dmat_body_ok (n m : nat) (G : Globals) (M : MathFns) (U : nat -> Q)
    (s s' : DmatState) (W W' : World) (d : Delta) (nb : list Object) (e' : Entity) :
  dmat_state_ok n m s -> neighbours d = Some nb ->
  compute_dmat_body G M U s W (Attrs d) = Some (s', W', e') ->
  dmat_state_ok n m s'.
Proof.
  intros (Hs & Hsum & Hc) Hnb H. unfold compute_dmat_body in H.
  destruct (progress G); simpl in H; [|discriminate].
  rewrite Hnb in H. simpl in H.
  match type of H with context [mask_sum ?x] => set (w := x) in * end.
  destruct (mask_sum w =? 0)%Z.
  - injection H as <- <- <-. split; [exact Hs | split; [exact Hsum | exact Hc]].
  - bind_inv H. injection H as <- <- <-.
    destruct (dmat_forest_pairs_step _ _ _ _ _ _ _ _ _ _ _ _ _ _ _ _ Hs E) as [Hs' Hd].
    split; [exact Hs'|]. simpl. split; [lra|].
    pose proof (mask_sum_le w) as Hle. pose proof (mask_sum_nonneg w) as H0.
    unfold w in Hle. rewrite !length_map, length_seq in Hle. fold w in Hle. lia.
Qed.

Lemma compute_dmat_ok (G : Globals) (M : MathFns) (U : nat -> Q)
    (healpixs : list Z) (W W' : World) (res : DmatResult) :
  compute_dmat G M U healpixs W = Some (res, W') ->
  exists s,
    res = dmat_result G s
    /\ dmat_state_ok (Z.to_nat (num_bins_r_par G * num_bins_r_trans G))
         (Z.to_nat (num_model_bins_r_par G * num_model_bins_r_trans G)) s.
Proof.
  intros H. unfold compute_dmat in H.
  destruct (dmat_zeros G) as [s0|] eqn:E0; simpl in H; [|discriminate].
  destruct (for_healpixs _ s0 W healpixs) as [[s W1]|] eqn:Es; simpl in H;
    [|discriminate].
  injection H as <- <-. exists s. split; [reflexivity|].
  refine (compute_dmat_loop_inv _ G M U healpixs s0 s W W1 _ (dmat_zeros_ok _ _ E0) Es).
  intros s1 s2 W2 W3 d nb e2 Hs1 Hnb Hb.
  exact (compute_dmat_body_ok _ _ _ _ _ _ _ _ _ _ _ _ Hs1 Hnb Hb).
Qed.

(** X6.  What [compute_dmat] returns has the shape it was allocated
    with: [weights_dmat] has one entry per data bin, [dmat] one row per
    data bin and one column per model bin, and the four effective
    arrays one entry per model bin. *)
Theorem compute_dmat_shape (G : Globals) (M : MathFns) (U : nat -> Q)
    (healpixs : list Z) (W W' : World) (res : DmatResult) :
  compute_dmat G M U healpixs W = Some (res, W') ->
  let n := Z.to_nat (num_bins_r_par G * num_bins_r_trans G) in
  let m := Z.to_nat (num_model_bins_r_par G * num_model_bins_r_trans G) in
  length (out_weights_dmat res) = n
  /\ length (out_dmat res) = n
  /\ Forall (fun row => length row = m) (out_dmat res)
  /\ length (out_r_par_eff res) = m /\ length (out_r_trans_eff res) = m
  /\ length (out_z_eff res) = m /\ length (out_weight_eff res) = m.
Proof.
  intros H n m. apply compute_dmat_ok in H as (s & -> & (S1 & S2 & S3 & S4 & S5 & S6) & _).
  simpl. destruct (reshape_shape n m _ S2) as [R1 R2]. auto 8.
Qed.

Lemma compute_dmat_shape_witness :
  exists res W',
    compute_dmat G0 math0 U_half [5%Z] (world_of (forest_AB 0)) = Some (res, W')
    /\ length (out_dmat res) = 2%nat
    /\ Forall (fun row => length row = 2%nat) (out_dmat res).
Proof.
  assert (H : { rw | compute_dmat G0 math0 U_half [5%Z] (world_of (forest_AB 0))
                     = Some rw }).
  { eexists. vm_compute. reflexivity. }
  destruct H as [[res W'] H]. exists res, W'. split; [exact H|].
  destruct (compute_dmat_shape _ _ _ _ _ _ _ H) as (_ & L2 & L3 & _).
  split; [exact L2 | exact L3].
Defined.

(** X7.  Over a whole pass of [compute_dmat] the weights of the data
    bins and the weights of the model bins have the same total, and
    [0 <= num_pairs_used <= num_pairs]. *)
Theorem compute_dmat_totals (G : Globals) (M : MathFns) (U : nat -> Q)
    (healpixs : list Z) (W W' : World) (res : DmatResult) :
  compute_dmat G M U healpixs W = Some (res, W') ->
  sumQ (out_weights_dmat res) == sumQ (out_weight_eff res)
  /\ (0 <= out_num_pairs_used res <= out_num_pairs res)%Z.
Proof.
  intros H. apply compute_dmat_ok in H as (s & -> & _ & Hsum & Hc).
  simpl. split; assumption.
Qed.

Lemma compute_dmat_totals_witness :
  exists res W',
    compute_dmat G0 math0 U_half [5%Z] (world_of (forest_AB 0)) = Some (res, W')
    /\ sumQ (out_weights_dmat res) == 4
    /\ sumQ (out_weights_dmat res) == sumQ (out_weight_eff res).
Proof.
  assert (H : { rw | compute_dmat G0 math0 U_half [5%Z] (world_of (forest_AB 0))
                     = Some rw }).
  { eexists. vm_compute. reflexivity. }
  destruct H as [[res W'] H]. exists res, W'. split; [exact H|].
  split; [|exact (proj1 (compute_dmat_totals _ _ _ _ _ _ _ H))].
  vm_compute in H. injection H as <- <-. vm_compute. reflexivity.
Defined.

Lemma metal_obj_shape (n m : nat) (G : Globals) (M : MathFns) (E : MetalEnv)
    (delta1 : Delta)
    (r_comov1 dist_m1 weights1 z1_abs1 r_comov1_abs1 dist_m1_abs1 : list Q)
    (A A' : DmatAcc) (obj2 : Object) :
  dmat_shape n m A ->
  metal_obj G M E delta1 r_comov1 dist_m1 weights1 z1_abs1 r_comov1_abs1
            dist_m1_abs1 A obj2 = Some A' ->
  dmat_shape n m A'.
Proof.
  intros (S1 & S2 & S3 & S4 & S5 & S6) H. unfold metal_obj in H.
  destruct (_ && _); [discriminate|]. bind_inv H. injection H as <-.
  unfold dmat_shape. simpl.
  rewrite (iadd_prefix_length _ _ _ _ E1), (iadd_prefix_length _ _ _ _ E3),
    (iadd_prefix_length _ _ _ _ E5), (iadd_prefix_length _ _ _ _ E7),
    (iadd_prefix_length _ _ _ _ E9), (iadd_prefix_length _ _ _ _ E11).
  auto 6.
Qed.

Lemma compute_metal_dmat_body_ok (n m : nat) (G : Globals) (M : MathFns)
    (E : MetalEnv) (U : nat -> Q) (s s' : DmatState) (W W' : World) (e e' : Entity) :
  metal_state_ok n m s -> True ->
  compute_metal_dmat_body G M E U s W e = Some (s', W', e') ->
  metal_state_ok n m s' /\ True /\ data W' = data W.
Proof.
  intros [Hs Hc] _ H. unfold compute_metal_dmat_body in H.
  destruct (progress G); simpl in H; [|discriminate].
  destruct e as [d|]; [|discriminate].
  destruct (neighbours d) as [nb|]; simpl in H; [|discriminate].
  match type of H with context [mask_sum ?x] => set (w := x) in * end.
  pose proof (mask_sum_le w) as Hle. pose proof (mask_sum_nonneg w) as H0.
  unfold w in Hle. rewrite !length_map, length_seq in Hle. fold w in Hle.
  destruct (_ || _); [discriminate|].
  bind_inv H.
  destruct (negb _).
  - injection H as <- <- <-. split; [|auto]. split; [exact Hs | simpl; lia].
  - bind_inv H. injection H as <- <- <-. split; [|auto].
    split; [|simpl; lia]. simpl.
    match goal with
    | Hf : fold_opt _ _ _ = Some _ |- _ =>
        refine (fold_opt_inv (dmat_shape n m) _ _ _ _ _ _ Hf); [|exact Hs]
    end.
    intros b x b' Hb Hx. exact (metal_obj_shape _ _ _ _ _ _ _ _ _ _ _ _ _ _ _ Hb Hx).
Qed.

(** X8.  What [compute_metal_dmat] returns has the shape of the
    result of [compute_dmat], and [0 <= num_pairs_used <= num_pairs]. *)
Theorem compute_metal_dmat_shape (G : Globals) (M : MathFns) (E : MetalEnv)
    (U : nat -> Q) (healpixs : list Z) (W W' : World) (res : DmatResult) :
  compute_metal_dmat G M E U healpixs W = Some (res, W') ->
  let n := Z.to_nat (num_bins_r_par G * num_bins_r_trans G) in
  let m := Z.to_nat (num_model_bins_r_par G * num_model_bins_r_trans G) in
  length (out_weights_dmat res) = n
  /\ length (out_dmat res) = n
  /\ Forall (fun row => length row = m) (out_dmat res)
  /\ length (out_r_par_eff res) = m /\ length (out_r_trans_eff res) = m
  /\ length (out_z_eff res) = m /\ length (out_weight_eff res) = m
  /\ (0 <= out_num_pairs_used res <= out_num_pairs res)%Z.
Proof.
  intros H n m. unfold compute_metal_dmat in H.
  destruct (dmat_zeros G) as [s0|] eqn:E0; simpl in H; [|discriminate].
  destruct (for_healpixs _ s0 W healpixs) as [[s W1]|] eqn:Es; simpl in H;
    [|discriminate].
  injection H as <- <-.
  assert (Hs : metal_state_ok n m s /\ world_all (fun _ => True) W1).
  { refine (for_healpixs_inv (metal_state_ok n m) (fun _ => True) _ _ healpixs
              _ W s W1 _ (world_all_True W) Es).
    - intros h s1 W0 e s' W0' e' Hs1 Hp Hb. cbv beta in Hb.
      exact (compute_metal_dmat_body_ok n m _ _ _ _ _ _ _ _ _ _ Hs1 Hp Hb).
    - destruct (dmat_zeros_ok _ _ E0) as (Hsh & _ & Hc). split; assumption. }
  destruct Hs as [[(S1 & S2 & S3 & S4 & S5 & S6) Hc] _].
  simpl. destruct (reshape_shape n m _ S2) as [R1 R2]. auto 9.
Qed.

Lemma compute_metal_dmat_shape_witness :
  exists res W',
    compute_metal_dmat (with_reject G0 (1 # 2)) math0 env0 U_quarters [5%Z]
                       (world_of (forest_metal [objA; objB])) = Some (res, W')
    /\ length (out_dmat res) = 2%nat
    /\ (0 <= out_num_pairs_used res <= out_num_pairs res)%Z.
Proof.
  assert (H : { rw | compute_metal_dmat (with_reject G0 (1 # 2)) math0 env0
                       U_quarters [5%Z] (world_of (forest_metal [objA; objB]))
                     = Some rw }).
  { eexists. vm_compute. reflexivity. }
  destruct H as [[res W'] H]. exists res, W'. split; [exact H|].
  destruct (compute_metal_dmat_shape _ _ _ _ _ _ _ _ H)
    as (_ & L2 & _ & _ & _ & _ & _ & Hc).
  split; [exact L2 | exact Hc].
Defined.

(** *** Totals and counters of the Wick engine *)

Lemma sumQ_insert (a : list Q) (k : nat) (x v : Q) :
  a !! k = Some x -> sumQ (<[k := x + v]> a) == sumQ a + v.
Proof.
  revert k. induction a as [|y a IH]; intros [|k] H; simpl in *; try discriminate.
  - injection H as ->. ring.
  - rewrite (IH _ H). ring.
Qed.

Lemma sumZ_insert (a : list Z) (k : nat) (x v : Z) :
  a !! k = Some x -> sumZ (<[k := (x + v)%Z]> a) = (sumZ a + v)%Z.
Proof.
  revert k. induction a as [|y a IH]; intros [|k] H; simpl in *; try discriminate.
  - injection H as ->. lia.
  - rewrite (IH _ H). lia.
Qed.

Lemma iadd_at_sumQ (a a' : list Q) (i : Z) (v : Q) :
  iadd_at Qplus a i v = Some a' -> sumQ a' == sumQ a + v.
Proof.
  intros H. apply iadd_at_inv in H as (k & x & _ & Hx & ->).
  apply sumQ_insert. exact Hx.
Qed.

Lemma iadd_at_sumZ (a a' : list Z) (i : Z) (v : Z) :
  iadd_at Z.add a i v = Some a' -> sumZ a' = (sumZ a + v)%Z.
Proof.
  intros H. apply iadd_at_inv in H as (k & x & _ & Hx & ->).
  apply sumZ_insert. exact Hx.
Qed.

Lemma wick_k2_weights (G : Globals) (c1d_1 : Matrix) (zw1 zw2 weights1 : list Q)
    (p1 p2 : Pair) (s s' : Wick1234) :
  wick_k2 G c1d_1 zw1 zw2 weights1 p1 s p2 = Some s' ->
  wAll s' = wAll s /\ num_pairs_wick s' = num_pairs_wick s.
Proof.
  unfold wick_k2. intros H.
  destruct (_ =? _)%Z; [|destruct (_ =? _)%Z]; bind_inv H; injection H as <-; auto.
Qed.

Lemma wick_k1_weights (G : Globals) (c1d_1 : Matrix) (zw1 zw2 weights1 : list Q)
    (sel : list Pair) (s s' : Wick1234) :
  wick_k1 G c1d_1 zw1 zw2 weights1 sel s = Some s' ->
  sumQ (wAll s') == sumQ (wAll s) + sumQ (map pr_weights12 sel)
  /\ sumZ (num_pairs_wick s') = (sumZ (num_pairs_wick s) + Z.of_nat (length sel))%Z.
Proof.
  revert s. induction sel as [|p1 rest IH]; intros s H.
  - injection H as <-. simpl. split; [ring | lia].
  - cbn [wick_k1] in H.
    destruct (getitem weights1 _) as [we1|]; simpl in H; [|discriminate].
    destruct (getitem zw1 _) as [zp|]; simpl in H; [|discriminate].
    destruct (Qeq_bool we1 0); [discriminate|].
    destruct (iadd_at Qplus _ _ _) as [wa|] eqn:Ea; simpl in H; [|discriminate].
    destruct (iadd_at Z.add _ _ _) as [np|] eqn:En; simpl in H; [|discriminate].
    destruct (miadd _ _ _ _) as [t1|]; simpl in H; [|discriminate].
    destruct (fold_opt _ rest _) as [s1|] eqn:Ef; simpl in H; [|discriminate].
    assert (Hk : wAll s1 = wa /\ num_pairs_wick s1 = np).
    { refine (fold_opt_inv (fun x => wAll x = wa /\ num_pairs_wick x = np)
                           _ _ _ _ _ _ Ef); [|simpl; auto].
      intros b x b' [Hb1 Hb2] Hx. apply wick_k2_weights in Hx as [-> ->]. auto. }
    destruct Hk as [Hk1 Hk2].
    destruct (IH _ H) as [I1 I2]. rewrite I1, I2, Hk1, Hk2.
    rewrite (iadd_at_sumQ _ _ _ _ Ea), (iadd_at_sumZ _ _ _ _ En).
    cbn [map sumQ fold_right length]. fold (sumQ (map pr_weights12 rest)).
    split; [ring | lia].
Qed.

(** X9.  A call of [fill_wickT1234] adds to [wAll] the total weight of
    the pairs that pass the mask, and to [num_pairs_wick] their number:
    one count per pair, whatever its weight. *)
Theorem fill_wickT1234_totals (G : Globals) (M : MathFns)
    (ang r_comov1 r_comov2 z1 z2 weights1 weights2 : list Q) (c1d_1 : Matrix)
    (s s' : Wick1234) :
  fill_wickT1234 G M ang r_comov1 r_comov2 z1 z2 weights1 weights2 c1d_1 s = Some s' ->
  let sel := wick_pairs G M ang r_comov1 r_comov2 z1 z2 weights1 weights2 in
  sumQ (wAll s') == sumQ (wAll s) + sumQ (map pr_weights12 sel)
  /\ sumZ (num_pairs_wick s')
     = (sumZ (num_pairs_wick s) + Z.of_nat (length sel))%Z.
Proof.
  intros H sel. unfold fill_wickT1234 in H.
  destruct (negb (same_length _ _ && _)); [discriminate|]. fold sel in H.
  destruct sel as [|p sel'] eqn:Esel.
  - simpl in H. injection H as <-. simpl. split; [ring | lia].
  - cbn [nonempty negb] in H.
    destruct (Qeq_bool _ 0); [discriminate|].
    destruct (cast_undefined _ _); [discriminate|].
    exact (wick_k1_weights _ _ _ _ _ _ _ _ H).
Qed.

Lemma fill_wickT1234_totals_witness :
  exists s',
    fill_wickT1234 G0 math0 [0; 0] [110; 130] [100; 105] [2; 2] [2; 2] [1; 1]
                   [1; 1] [[1; 1]; [1; 1]] wick0 = Some s'
    /\ sumQ (wAll s') == 4 /\ sumZ (num_pairs_wick s') = 4%Z.
Proof.
  assert (H : { s' | fill_wickT1234 G0 math0 [0; 0] [110; 130] [100; 105] [2; 2]
                       [2; 2] [1; 1] [1; 1] [[1; 1]; [1; 1]] wick0 = Some s' }).
  { eexists. vm_compute. reflexivity. }
  destruct H as [s' H]. exists s'. split; [exact H|].
  destruct (fill_wickT1234_totals _ _ _ _ _ _ _ _ _ _ _ _ H) as [Hw Hn].
  split.
  - rewrite Hw. vm_compute. reflexivity.
  - rewrite Hn. vm_compute. reflexivity.
Defined.

(** The higher-order step of [wickT] never writes [T6]. *)
Lemma fill_wickT56_at_5 (G : Globals) (M : MathFns)
    (ang12 ang34 : list Q) (ang13 : Q)
    (r_comov1 r_comov2 r3 r4 weights1 weights2 w3 w4 : list Q)
    (thingid2 thingid4 : list Z) (T5 T6 T5' T6' : Matrix) :
  max_diagram G = 5%Z ->
  fill_wickT56 G M ang12 ang34 ang13 r_comov1 r_comov2 r3 r4 weights1 weights2
               w3 w4 thingid2 thingid4 T5 T6 = Some (T5', T6') ->
  T6' = T6.
Proof.
  intros H5 H. unfold fill_wickT56 in H.
  destruct (negb (_ && _)); [discriminate|].
  destruct (negb (existsb _ _)); [congruence|].
  destruct (cfWick G) as [cf|]; simpl in H; [|discriminate].
  destruct (mapM _ r3) as [cf13|]; simpl in H; [|discriminate].
  destruct (negb (nonempty _)); [congruence|].
  destruct (negb (nonempty _)); [congruence|].
  destruct (fold_opt _ _ T5) as [T5''|]; simpl in H; [|discriminate].
  rewrite H5 in H. simpl in H. congruence.
Qed.

Lemma wick_d3_T6 (G : Globals) (M : MathFns) (d1 d3 : Delta) (nb1 : list Object)
    (T T' : Matrix * Matrix) :
  wick_d3 G M d1 nb1 T d3 = Some T' -> snd T' = snd T.
Proof.
  intros H. unfold wick_d3 in H.
  destruct (neighbours d3) as [nb3|]; simpl in H; [|discriminate].
  destruct (negb (nonempty nb3)); [congruence|].
  destruct (Z.eqb_spec (max_diagram G) 5) as [H5|]; [|discriminate].
  destruct (_ =? 0)%Z; [congruence|].
  destruct (_ =? 0)%Z; [congruence|].
  destruct T' as [T5' T6']. simpl.
  exact (fill_wickT56_at_5 _ _ _ _ _ _ _ _ _ _ _ _ _ _ _ _ _ _ _ H5 H).
Qed.

Lemma wick_higher_T6 (G : Globals) (M : MathFns) (d : Delta) (nb : list Object)
    (T T' : Matrix * Matrix) :
  wick_higher G M d nb T = Some T' -> snd T' = snd T.
Proof.
  intros H. unfold wick_higher in H.
  destruct (cfWick G); [|congruence].
  destruct (_ <=? 4)%Z; [congruence|].
  refine (fold_opt_inv (fun x => snd x = snd T) _ _ _ _ _ _ H); [|reflexivity].
  intros b x b' Hb Hx. apply wick_d3_T6 in Hx. congruence.
Qed.

Lemma wick_d1_keeps_all (G : Globals) (M : MathFns) (E : WickEnv)
    (sW sW' : WickAcc * World) (e : Entity) :
  wick_d1 (wick_higher G M) G M E sW e = Some sW' -> wick_d1_keeps sW sW'.
Proof.
  destruct sW as [s W]. intros Hd. unfold wick_d1 in Hd.
  destruct (_ || _); [discriminate|].
  destruct e as [d1|]; [|discriminate].
  destruct (neighbours d1) as [nb|]; simpl in Hd; [|discriminate].
  destruct (negb (nonempty nb)).
  { injection Hd as <-. unfold wick_d1_keeps. simpl. auto 6. }
  bind_inv Hd.
  destruct (negb _); [discriminate|].
  destruct (fill_wickT1234 _ _ _ _ _ _ _ _ _ _ _) as [s1|]; simpl in Hd; [|discriminate].
  destruct (wick_higher _ _ _ _ _) as [[t5 t6]|] eqn:Eh; simpl in Hd; [|discriminate].
  injection Hd as <-. apply wick_higher_T6 in Eh. simpl in Eh.
  unfold wick_d1_keeps. simpl. auto 6.
Qed.

Lemma wick_healpix_step (G : Globals) (M : MathFns) (E : WickEnv) (U : nat -> Q)
    (s s' : WickAcc) (W W' : World) (healpix : Z) :
  wick_healpix (wick_higher G M) G M E U (s, W) healpix = Some (s', W') ->
  exists l,
    data W !! healpix = Some l
    /\ w_T6 s' = w_T6 s
    /\ w_num_pairs s' = (w_num_pairs s + Z.of_nat (length l))%Z
    /\ (w_num_pairs_used s <= w_num_pairs_used s'
        <= w_num_pairs_used s + Z.of_nat (length l))%Z
    /\ data W' = data W
    /\ rng_pos W' = (rng_pos W + length l)%nat.
Proof.
  intros H. unfold wick_healpix in H.
  destruct (data W !! healpix) as [l|]; simpl in H; [|discriminate].
  exists l. split; [reflexivity|].
  match type of H with context [mask_sum ?x] => set (w := x) in * end.
  pose proof (mask_sum_le w) as Hle. pose proof (mask_sum_nonneg w) as H0.
  unfold w in Hle. rewrite !length_map, length_seq in Hle. fold w in Hle.
  destruct (mask_sum w =? 0)%Z.
  - injection H as <- <-. simpl. repeat split; try reflexivity; lia.
  - match type of H with
    | fold_opt _ _ ?x = _ =>
        assert (Hk : wick_d1_keeps x (s', W'))
    end.
    { refine (fold_opt_inv (fun y => wick_d1_keeps _ y) _ _ _ _ _ _ H).
      - intros b x b' Hb Hx. apply wick_d1_keeps_all in Hx.
        destruct Hb as (B1 & B2 & B3 & B4 & B5), Hx as (X1 & X2 & X3 & X4 & X5).
        unfold wick_d1_keeps. repeat split; congruence.
      - unfold wick_d1_keeps. auto 6. }
    destruct Hk as (K1 & K2 & K3 & K4 & K5). simpl in *.
    rewrite K1, K2, K3, K4, K5. repeat split; try reflexivity; lia.
Qed.

Lemma wick_loop (G : Globals) (M : MathFns) (E : WickEnv) (U : nat -> Q)
    (pix : list Z) (s s' : WickAcc) (W W' : World) :
  fold_opt (wick_healpix (wick_higher G M) G M E U) pix (s, W) = Some (s', W') ->
  w_T6 s' = w_T6 s
  /\ w_num_pairs s' = (w_num_pairs s + num_deltas W pix)%Z
  /\ (w_num_pairs_used s <= w_num_pairs_used s'
      <= w_num_pairs_used s + num_deltas W pix)%Z
  /\ data W' = data W
  /\ rng_pos W' = (rng_pos W + Z.to_nat (num_deltas W pix))%nat
  /\ (0 <= num_deltas W pix)%Z.
Proof.
  revert s W. induction pix as [|h pix IH]; intros s W H.
  - injection H as <- <-. unfold num_deltas. simpl. repeat split; lia.
  - cbn [fold_opt] in H.
    destruct (wick_healpix _ G M E U (s, W) h) as [[s1 W1]|] eqn:Eh; simpl in H;
      [|discriminate].
    apply wick_healpix_step in Eh as (l & Hl & A1 & A2 & A3 & A4 & A5).
    apply IH in H as (B1 & B2 & B3 & B4 & B5 & B6).
    assert (Hn : num_deltas W1 pix = num_deltas W pix).
    { unfold num_deltas. rewrite A4. reflexivity. }
    rewrite Hn in *.
    assert (Hc : num_deltas W (h :: pix)
                 = (Z.of_nat (length l) + num_deltas W pix)%Z).
    { unfold num_deltas. simpl. rewrite Hl. reflexivity. }
    rewrite Hc. repeat split; try congruence; lia.
Qed.

(** X10.  The [num_pairs] that [wickT] returns is the number of deltas
    stored under the healpixs of [pix], not a number of pairs;
    [num_pairs_used] lies between zero and it; and the run takes one
    draw of the generator per delta. *)
Theorem wickT_counts_deltas (G : Globals) (M : MathFns) (E : WickEnv)
    (U : nat -> Q) (pix : list Z) (W W' : World) (res : WickResult) :
  wickT G M E U pix W = Some (res, W') ->
  wr_num_pairs res = num_deltas W pix
  /\ (0 <= wr_num_pairs_used res <= wr_num_pairs res)%Z
  /\ rng_pos W' = (rng_pos W + Z.to_nat (num_deltas W pix))%nat.
Proof.
  intros H. unfold wickT, wickT_with in H.
  destruct (wick_zeros G) as [s0|] eqn:E0; simpl in H; [|discriminate].
  destruct (fold_opt _ pix _) as [[s W1]|] eqn:Ef; simpl in H; [|discriminate].
  injection H as <- <-. simpl.
  apply wick_loop in Ef as (_ & B2 & B3 & _ & B5 & B6).
  unfold wick_zeros in E0. bind_inv E0. injection E0 as <-. simpl in *.
  repeat split; try assumption; lia.
Qed.

Lemma wickT_counts_deltas_witness :
  exists res W',
    wickT G5 math0 wenv0 U_half [5%Z] (world_with [forest_dn]) = Some (res, W')
    /\ wr_num_pairs res = 1%Z /\ rng_pos W' = 1%nat.
Proof.
  assert (H : { rw | wickT G5 math0 wenv0 U_half [5%Z] (world_with [forest_dn])
                     = Some rw }).
  { eexists. vm_compute. reflexivity. }
  destruct H as [[res W'] H]. exists res, W'. split; [exact H|].
  destruct (wickT_counts_deltas _ _ _ _ _ _ _ _ H) as (Hn & _ & Hr).
  split; [rewrite Hn | rewrite Hr]; reflexivity.
Defined.

(** X11.  [wickT] returns [T6] as allocated, all zero, for every
    [max_diagram] and [cfWick]: [fill_wickT56] is only reached with
    [max_diagram == 5], where it leaves [T6] alone; with any other
    [max_diagram] above 4 the arrays [t_ang12], [t_r2], [t_w2] and
    [t_thingid2] are unbound at the call. *)
Theorem wickT_never_fills_T6 (G : Globals) (M : MathFns) (E : WickEnv)
    (U : nat -> Q) (pix : list Z) (W W' : World) (res : WickResult) :
  wickT G M E U pix W = Some (res, W') ->
  mzeros (num_bins_r_par G * num_bins_r_trans G) = Some (wr_T6 res).
Proof.
  intros H. unfold wickT, wickT_with in H.
  destruct (wick_zeros G) as [s0|] eqn:E0; simpl in H; [|discriminate].
  destruct (fold_opt _ pix _) as [[s W1]|] eqn:Ef; simpl in H; [|discriminate].
  injection H as <- <-. simpl.
  apply wick_loop in Ef as (B1 & _).
  unfold wick_zeros in E0.
  destruct (mzeros _) as [T|] eqn:ET; simpl in E0; [|discriminate].
  bind_inv E0. injection E0 as <-. simpl in B1. congruence.
Qed.

Lemma wickT_never_fills_T6_witness :
  exists res W',
    wickT G5 math0 wenv0 U_half [5%Z] (world_with [forest_dn]) = Some (res, W')
    /\ wr_T5 res <> [[0; 0]; [0; 0]] /\ wr_T6 res = [[0; 0]; [0; 0]].
Proof.
  assert (H : { rw | wickT G5 math0 wenv0 U_half [5%Z] (world_with [forest_dn])
                     = Some rw }).
  { eexists. vm_compute. reflexivity. }
  destruct H as [[res W'] H]. exists res, W'. split; [exact H|].
  pose proof (wickT_never_fills_T6 _ _ _ _ _ _ _ _ H) as H6.
  injection H6 as <-. split; [|reflexivity].
  vm_compute in H. injection H as <- <-. discriminate.
Defined.

Lemma wick_loop_missing (G : Globals) (M : MathFns) (E : WickEnv) (U : nat -> Q)
    (h : Z) (pix : list Z) (s : WickAcc) (W : World) :
  In h pix -> data W !! h = None ->
  fold_opt (wick_healpix (wick_higher G M) G M E U) pix (s, W) = None.
Proof.
  revert s W. induction pix as [|h' pix IH]; intros s W Hin Hnone; [destruct Hin|].
  cbn [fold_opt].
  destruct (wick_healpix _ G M E U (s, W) h') as [[s1 W1]|] eqn:Eh; [|reflexivity].
  simpl. apply wick_healpix_step in Eh as (l & Hl & _ & _ & _ & Hd & _).
  destruct Hin as [->|Hin]; [congruence|].
  apply IH; [exact Hin | congruence].
Qed.

(** X12.  Each of the five passes raises (the KeyError of
    [data[healpix]]) when a listed healpix is not stored in [data],
    wherever it stands in the list. *)
Theorem missing_healpix_raises (G : Globals) (M : MathFns) (Em : MetalEnv)
    (Ew : WickEnv) (U : nat -> Q) (fast_xcf : FastXcf) (healpixs : list Z)
    (W : World) (h : Z) :
  In h healpixs -> data W !! h = None ->
  compute_xi G M healpixs W = None
  /\ compute_dmat G M U healpixs W = None
  /\ compute_metal_dmat G M Em U healpixs W = None
  /\ wickT G M Ew U healpixs W = None
  /\ xcf1d G M fast_xcf healpixs W = None.
Proof.
  intros Hin Hnone. split; [|split; [|split; [|split]]].
  - unfold compute_xi, compute_xi_sums.
    destruct (xi_zeros _) as [a0|]; [|reflexivity]. simpl.
    rewrite (for_healpixs_missing (fun _ => compute_xi_body G M)) with (h := h);
      [reflexivity | | exact Hin | exact Hnone].
    intros h0 s W0 e0 s' W0' e0' Hb. cbv beta in Hb.
    exact (proj1 (proj2 (compute_xi_body_frame _ _ _ _ _ _ _ _ Hb))).
  - unfold compute_dmat.
    destruct (dmat_zeros G) as [s0|]; [|reflexivity]. simpl.
    rewrite (for_healpixs_missing (fun _ => compute_dmat_body G M U)) with (h := h);
      [reflexivity | | exact Hin | exact Hnone].
    intros h0 s W0 e0 s' W0' e0' Hb. cbv beta in Hb.
    exact (compute_dmat_body_data _ _ _ _ _ _ _ _ _ Hb).
  - unfold compute_metal_dmat.
    destruct (dmat_zeros G) as [s0|]; [|reflexivity]. simpl.
    rewrite (for_healpixs_missing (fun _ => compute_metal_dmat_body G M Em U))
      with (h := h); [reflexivity | | exact Hin | exact Hnone].
    intros h0 s W0 e0 s' W0' e0' Hb. cbv beta in Hb.
    exact (proj1 (proj2 (compute_metal_dmat_body_frame _ _ _ _ _ _ _ _ _ _ Hb))).
  - unfold wickT, wickT_with.
    destruct (wick_zeros G) as [s0|]; [|reflexivity]. simpl.
    rewrite (wick_loop_missing _ _ _ _ h) by assumption. reflexivity.
  - unfold xcf1d.
    destruct (np_zeros _) as [zq|]; [|reflexivity]. simpl.
    destruct (np_zeros_int _) as [zi|]; [|reflexivity]. simpl.
    rewrite (for_healpixs_missing (xcf1d_body M fast_xcf)) with (h := h);
      [reflexivity | | exact Hin | exact Hnone].
    intros h0 s W0 e0 s' W0' e0' Hb.
    exact (proj1 (proj2 (xcf1d_body_frame _ _ _ _ _ _ _ _ _ Hb))).
Qed.

(** Healpix 6 is not stored. *)
Lemma missing_healpix_raises_witness :
  compute_xi G0 math0 [5%Z; 6%Z] (world_of (forest_AB 0)) = None
  /\ wickT G0 math0 wenv0 U_half [5%Z; 6%Z] (world_of (forest_AB 0)) = None.
Proof.
  pose proof (missing_healpix_raises G0 math0 env0 wenv0 U_half
                (compute_xi_forest_pairs G0 math0) [5%Z; 6%Z]
                (world_of (forest_AB 0)) 6%Z
                (or_intror (or_introl eq_refl)) eq_refl) as (H1 & _ & _ & H4 & _).
  split; assumption.
Defined.

(** *** xcf1d without fast_xcf *)

Lemma set_data_id (W : World) (h : Z) (l : list Entity) :
  data W !! h = Some l -> set_data W (<[h := l]> (data W)) = W.
Proof.
  intros H. unfold set_data. rewrite (insert_id _ _ _ H). destruct W; reflexivity.
Qed.

Section Idle.
Context {S : Type} (body : Z -> S -> World -> Entity -> option (S * World * Entity)).
Context (P : Z -> World -> Entity -> Prop).
Hypothesis body_idle :
  forall h s W e r, body h s W e = Some r -> r = (s, W, e) /\ P h W e.

Lemma for_each_idle (h : Z) (l : list Entity) (s : S) (W : World)
    (r : S * World * list Entity) :
  for_each (body h) s W l = Some r -> r = (s, W, l) /\ Forall (P h W) l.
Proof.
  revert r. induction l as [|e l IH]; intros r H.
  - injection H as <-. auto.
  - cbn [for_each] in H.
    destruct (body h s W e) as [r1|] eqn:Eb; simpl in H; [|discriminate].
    destruct (body_idle _ _ _ _ _ Eb) as [-> Hp].
    destruct (for_each (body h) s W l) as [r2|] eqn:El; simpl in H; [|discriminate].
    destruct (IH _ eq_refl) as [-> Hl].
    injection H as <-. auto.
Qed.

Lemma for_healpixs_idle (healpixs : list Z) (s : S) (W : World) (r : S * World) :
  for_healpixs body s W healpixs = Some r ->
  r = (s, W)
  /\ forall h, In h healpixs ->
       exists l, data W !! h = Some l /\ Forall (P h W) l.
Proof.
  revert r. induction healpixs as [|h hs IH]; intros r H.
  - injection H as <-. split; [reflexivity | intros h []].
  - cbn [for_healpixs] in H.
    destruct (data W !! h) as [l|] eqn:El; simpl in H; [|discriminate].
    destruct (for_each (body h) s W l) as [r1|] eqn:Ef; simpl in H; [|discriminate].
    destruct (for_each_idle _ _ _ _ _ Ef) as [-> Hl].
    rewrite (set_data_id _ _ _ El) in H.
    destruct (IH _ H) as [-> Hhs]. split; [reflexivity|].
    intros h' [<-|Hin]; [exists l; auto | auto].
Qed.
End Idle.

Lemma filter_nil_Forall {A : Type} (f : A -> bool) (l : list A) :
  List.filter f l = [] -> Forall (fun x => f x = false) l.
Proof.
  induction l as [|x l IH]; simpl; [constructor|].
  destruct (f x) eqn:E; [discriminate|]. intros H. constructor; auto.
Qed.

Lemma xcf1d_body_unbound (M : MathFns) (h : Z) (a : Xcf1dAcc) (W : World)
    (e : Entity) (r : Xcf1dAcc * World * Entity) :
  xcf1d_body M fast_xcf_unbound h a W e = Some r ->
  r = (a, W, e) /\ exists os, objs W !! h = Some os /\ no_match os e.
Proof.
  intros H. unfold xcf1d_body in H.
  destruct (objs W !! h) as [os|]; simpl in H; [|discriminate].
  destruct e as [d|].
  - destruct (List.filter _ os) as [|q qs] eqn:Ef; simpl in H; [|discriminate].
    injection H as <-. split; [reflexivity|]. exists os. split; [reflexivity|].
    simpl. apply filter_nil_Forall in Ef.
    eapply List.Forall_impl; [|exact Ef]. simpl. intros q Hq.
    apply Z.eqb_neq. exact Hq.
  - injection H as <-. split; [reflexivity|]. exists os. simpl. auto.
Qed.

Lemma normalize_zeros (n : nat) : normalize (repeat 0 n) (repeat 0 n) = repeat 0 n.
Proof.
  unfold normalize. induction n as [|n IH]; [reflexivity|].
  cbn [repeat zip_with]. rewrite IH. reflexivity.
Qed.

(** X13.  [xcf1d] with [fast_xcf] unbound, as xcf.py has it: a run
    that returns has correlated nothing.  It returns arrays of zeros,
    leaves the world as it was, and no delta of a listed healpix shares
    its [thingid] with an object of that healpix. *)
Theorem xcf1d_as_shipped (G : Globals) (M : MathFns) (pix : list Z)
    (W W' : World) (res : Xcf1dResult) :
  xcf1d G M fast_xcf_unbound pix W = Some (res, W') ->
  W' = W
  /\ all_zero (x1_weights res) /\ all_zero (x1_xi res)
  /\ all_zero (x1_r_par res) /\ all_zero (x1_z res)
  /\ Forall (fun k => k = 0%Z) (x1_num_pairs res)
  /\ forall h, In h pix ->
       exists l, data W !! h = Some l
         /\ Forall (fun e => exists os, objs W !! h = Some os /\ no_match os e) l.
Proof.
  intros H. unfold xcf1d in H.
  destruct (np_zeros _) as [zq|] eqn:Ez; simpl in H; [|discriminate].
  destruct (np_zeros_int _) as [zi|] eqn:Ei; simpl in H; [|discriminate].
  destruct (for_healpixs _ _ W pix) as [[a W1]|] eqn:Es; simpl in H; [|discriminate].
  injection H as <- <-.
  destruct (for_healpixs_idle (xcf1d_body M fast_xcf_unbound)
              (fun h W0 e => exists os, objs W0 !! h = Some os /\ no_match os e)
              (xcf1d_body_unbound M) _ _ _ _ Es) as [Hr Hp].
  injection Hr as -> ->. simpl.
  unfold np_zeros in Ez. destruct (_ <? 0)%Z in Ez; [discriminate|].
  injection Ez as <-.
  unfold np_zeros_int in Ei. destruct (_ <? 0)%Z in Ei; [discriminate|].
  injection Ei as <-.
  rewrite normalize_zeros.
  pose proof (all_zero_repeat (Z.to_nat (num_bins_r_par G))) as Hz.
  split; [reflexivity|]. do 4 (split; [exact Hz|]).
  split; [|exact Hp].
  apply List.Forall_forall. intros k Hk. exact (repeat_spec _ _ _ Hk).
Qed.

Lemma xcf1d_as_shipped_witness :
  exists res,
    xcf1d G0 math0 fast_xcf_unbound [5%Z] (world_of (forest_AB 0))
    = Some (res, world_of (forest_AB 0))
    /\ all_zero (x1_xi res).
Proof.
  assert (H : { rw | xcf1d G0 math0 fast_xcf_unbound [5%Z] (world_of (forest_AB 0))
                     = Some rw }).
  { eexists. vm_compute. reflexivity. }
  destruct H as [[res W'] H]. exists res.
  destruct (xcf1d_as_shipped _ _ _ _ _ _ H) as (-> & _ & Hz & _).
  split; [exact H | exact Hz].
Defined.

(** *** fill_neighs *)


Lemma mask_select_map_In {A : Type} (f : A -> bool) (l : list A) (x : A) :
  In x (mask_select (map f l) l) -> In x l /\ f x = true.
Proof.
  unfold mask_select. induction l as [|y l IH]; simpl; [tauto|].
  destruct (f y) eqn:E; simpl.
  - intros [<-|H]; [auto | destruct (IH H); auto].
  - intros H. destruct (IH H); auto.
Qed.

Lemma neigh_candidates_In (N : NeighEnv) (W : World) (d : Delta) (obj : Object) :
  In obj (neigh_candidates N W d) ->
  o_thingid obj <> thingid d
  /\ exists other_healpix os,
       In other_healpix (query_disc N (x_cart d) (y_cart d) (z_cart d))
       /\ objs W !! other_healpix = Some os /\ In obj os.
Proof.
  unfold neigh_candidates. intros H.
  apply in_flat_map in H as (h & Hh & Ho).
  apply filter_In in Hh as [Hh Hk]. apply filter_In in Ho as [Ho Ht].
  destruct (objs W !! h) as [os|] eqn:E; [|discriminate]. simpl in Ho.
  split.
  - apply negb_true_iff in Ht. apply Z.eqb_neq. exact Ht.
  - exists h, os. auto.
Qed.

Lemma fill_neighs_delta_ok (G : Globals) (M : MathFns) (N : NeighEnv) (W : World)
    (d d' : Delta) :
  fill_neighs_delta G M N W d = Some d' ->
  set_neighbours d' None = set_neighbours d None
  /\ exists nb, neighbours d' = Some nb
                /\ Forall (neighbour_ok G M N (objs W) d') nb.
Proof.
  intros H. unfold fill_neighs_delta in H.
  set (cands := neigh_candidates N W d) in *.
  destruct (ang_correlation G) eqn:Eang.
  - simpl in H.
    destruct (nonempty _) eqn:Ene.
    + destruct (getitem (z d) (-1)) as [z_last|] eqn:Ez; simpl in H; [|discriminate].
      injection H as <-. split; [reflexivity|]. eexists. split; [reflexivity|].
      apply List.Forall_forall. intros obj Hin.
      apply filter_In in Hin as [Hin Hz].
      apply mask_select_map_In in Hin as [Hin Ha].
      apply neigh_candidates_In in Hin as [Ht Hq].
      unfold neigh_z_cut in Hz. apply andb_true_iff in Hz as [Hz1 Hz2].
      apply Qle_bool_iff in Hz1. apply Qltb_lt in Hz2.
      unfold neigh_ang in Ha. apply Qltb_lt in Ha.
      split; [exact Ht|]. split; [exact Hq|]. split; [exact Ha|].
      split; [exists z_last; auto|]. intros Hf. congruence.
    + simpl in H. injection H as <-. split; [reflexivity|].
      exists []. split; [reflexivity | constructor].
  - destruct (getitem (r_comov d) 0) as [r_first|] eqn:E0; simpl in H; [|discriminate].
    destruct (getitem (r_comov d) (-1)) as [r_last|] eqn:E1; simpl in H;
      [|discriminate].
    destruct (nonempty _) eqn:Ene.
    + destruct (getitem (z d) (-1)) as [z_last|] eqn:Ez; simpl in H; [|discriminate].
      injection H as <-. split; [reflexivity|]. eexists. split; [reflexivity|].
      apply List.Forall_forall. intros obj Hin.
      apply filter_In in Hin as [Hin Hz].
      apply (mask_select_map_In
               (fun obj => neigh_ang M N d obj && neigh_r_par G M d r_first r_last obj))
        in Hin as [Hin Ha].
      apply neigh_candidates_In in Hin as [Ht Hq].
      unfold neigh_z_cut in Hz. apply andb_true_iff in Hz as [Hz1 Hz2].
      apply Qle_bool_iff in Hz1. apply Qltb_lt in Hz2.
      apply andb_true_iff in Ha as [Ha Hr].
      unfold neigh_ang in Ha. apply Qltb_lt in Ha.
      unfold neigh_r_par in Hr. apply andb_true_iff in Hr as [Hr1 Hr2].
      apply Qltb_lt in Hr1. apply Qltb_lt in Hr2.
      split; [exact Ht|]. split; [exact Hq|]. split; [exact Ha|].
      split; [exists z_last; auto|]. intros _. exists r_first, r_last. auto.
    + simpl in H. injection H as <-. split; [reflexivity|].
      exists []. split; [reflexivity | constructor].
Qed.

Lemma fill_neighs_body_inv (G : Globals) (M : MathFns) (N : NeighEnv) (h : Z)
    (s s' : unit) (W W' : World) (e e' : Entity) :
  fill_neighs_body G M N h s W e = Some (s', W', e') ->
  W' = W /\ up_to_neighbours e e' /\ filled G M N (objs W) e'.
Proof.
  intros H. unfold fill_neighs_body in H. destruct e as [d|]; [|discriminate].
  destruct (fill_neighs_delta G M N W d) as [d'|] eqn:Ed; simpl in H; [|discriminate].
  injection H as <- <- <-. apply fill_neighs_delta_ok in Ed as [Hs Hf].
  split; [reflexivity|]. split; [exact Hs | exact Hf].
Qed.

Lemma up_to_neighbours_refl (e : Entity) : up_to_neighbours e e.
Proof. destruct e; simpl; auto. Qed.

Lemma up_to_neighbours_trans (e1 e2 e3 : Entity) :
  up_to_neighbours e1 e2 -> up_to_neighbours e2 e3 -> up_to_neighbours e1 e3.
Proof. destruct e1, e2, e3; simpl; try tauto. congruence. Qed.

Section SameWorld.
Context {S : Type} (body : Z -> S -> World -> Entity -> option (S * World * Entity)).
Context (P : gmap Z (list Object) -> Entity -> Prop).
Hypothesis body_same :
  forall h s W e s' W' e',
    body h s W e = Some (s', W', e') -> W' = W /\ P (objs W) e'.

Lemma for_each_same (h : Z) (l : list Entity) (s : S) (W : World)
    (s' : S) (W' : World) (l' : list Entity) :
  for_each (body h) s W l = Some (s', W', l') ->
  W' = W /\ Forall (P (objs W)) l'.
Proof.
  revert s s' W' l'. induction l as [|e l IH]; intros s s' W' l' H.
  - injection H as <- <- <-. auto.
  - cbn [for_each] in H.
    destruct (body h s W e) as [[[s1 W1] e1]|] eqn:Eb; simpl in H; [|discriminate].
    destruct (body_same _ _ _ _ _ _ _ Eb) as [-> Hp].
    destruct (for_each (body h) s1 W l) as [[[s2 W2] l2]|] eqn:El; simpl in H;
      [|discriminate].
    destruct (IH _ _ _ _ El) as [-> Hl].
    injection H as <- <- <-. auto.
Qed.

Lemma for_healpixs_same (healpixs : list Z) (s : S) (W : World) (s' : S) (W' : World) :
  for_healpixs body s W healpixs = Some (s', W') ->
  objs W' = objs W /\ counter W' = counter W /\ rng_pos W' = rng_pos W
  /\ (forall h, ~ In h healpixs -> data W' !! h = data W !! h)
  /\ (forall h, In h healpixs ->
        exists l, data W' !! h = Some l /\ Forall (P (objs W)) l).
Proof.
  revert s W. induction healpixs as [|h hs IH]; intros s W H.
  - injection H as <- <-. repeat split; try reflexivity. intros h [].
  - cbn [for_healpixs] in H.
    destruct (data W !! h) as [l|] eqn:El; simpl in H; [|discriminate].
    destruct (for_each (body h) s W l) as [[[s1 W1] l1]|] eqn:Ef; simpl in H;
      [|discriminate].
    destruct (for_each_same _ _ _ _ _ _ _ Ef) as [-> Hl1].
    destruct (IH _ _ H) as (Ho & Hc & Hr & Hout & Hin). simpl in *.
    split; [exact Ho|]. split; [exact Hc|]. split; [exact Hr|]. split.
    + intros h' Hn. rewrite Hout by tauto.
      apply lookup_insert_ne. intros ->. apply Hn. left. reflexivity.
    + intros h' Hh'.
      destruct (in_dec Z.eq_dec h' hs) as [Hi|Hi]; [exact (Hin _ Hi)|].
      destruct Hh' as [<-|Hh']; [|contradiction].
      exists l1. split; [|exact Hl1].
      rewrite Hout by exact Hi. apply lookup_insert_eq.
Qed.
End SameWorld.

(** X14.  After [fill_neighs], every delta of a listed healpix has
    its neighbours set, and each neighbour is an object of a healpix of
    the disc, has another [thingid], is closer than [ang_max], has
    [(z[-1] + z_qso)/2] in [z_cut_min, z_cut_max) and, outside the
    angular mode, passes the two cuts on the first and the last pixel. *)
Theorem fill_neighs_selects (G : Globals) (M : MathFns) (N : NeighEnv)
    (healpixs : list Z) (W W' : World) :
  fill_neighs G M N healpixs W = Some W' ->
  forall healpix, In healpix healpixs ->
    exists l, data W' !! healpix = Some l /\ Forall (filled G M N (objs W')) l.
Proof.
  intros H. unfold fill_neighs in H.
  destruct (for_healpixs _ tt W healpixs) as [[u W1]|] eqn:Ef; simpl in H;
    [|discriminate].
  injection H as <-.
  destruct (for_healpixs_same (fill_neighs_body G M N) (filled G M N)) with
    (healpixs := healpixs) (s := tt) (W := W) (s' := u) (W' := W1)
    as (Ho & _ & _ & _ & Hin); [|exact Ef|].
  - intros h s W0 e s' W0' e' Hb.
    destruct (fill_neighs_body_inv _ _ _ _ _ _ _ _ _ _ Hb) as (-> & _ & Hf). auto.
  - rewrite Ho. exact Hin.
Qed.

Lemma fill_neighs_selects_witness :
  exists W' l,
    fill_neighs G0 math0 N0 [5%Z] (world_of (forest2 0 [3; 4] None)) = Some W'
    /\ data W' !! 5%Z = Some l /\ Forall (filled G0 math0 N0 (objs W')) l
    /\ l = [Attrs (forest_AB 0)].
Proof.
  assert (H : { W' | fill_neighs G0 math0 N0 [5%Z] (world_of (forest2 0 [3; 4] None))
                     = Some W' }).
  { eexists. vm_compute. reflexivity. }
  destruct H as [W' H]. exists W'.
  destruct (fill_neighs_selects _ _ _ _ _ _ H 5%Z (or_introl eq_refl)) as (l & Hl & Hf).
  exists l. split; [exact H|]. split; [exact Hl|]. split; [exact Hf|].
  vm_compute in H. injection H as <-.
  change (Some [Attrs (forest_AB 0)] = Some l) in Hl. congruence.
Defined.

(** X15.  [fill_neighs] changes nothing but the [neighbours] of the
    deltas of the listed healpixs: the objects, the other fields of
    every delta, the deltas of the other healpixs, the progress counter
    and the random generator are as they were. *)
Theorem fill_neighs_frame (G : Globals) (M : MathFns) (N : NeighEnv)
    (healpixs : list Z) (W W' : World) :
  fill_neighs G M N healpixs W = Some W' ->
  world_frame up_to_neighbours W W'
  /\ counter W' = counter W /\ rng_pos W' = rng_pos W
  /\ forall healpix, ~ In healpix healpixs -> data W' !! healpix = data W !! healpix.
Proof.
  intros H. unfold fill_neighs in H.
  destruct (for_healpixs _ tt W healpixs) as [[u W1]|] eqn:Ef; simpl in H;
    [|discriminate].
  injection H as <-.
  destruct (for_healpixs_same (fill_neighs_body G M N) (filled G M N)) with
    (healpixs := healpixs) (s := tt) (W := W) (s' := u) (W' := W1)
    as (_ & Hc & Hr & Hout & _); [|exact Ef|].
  - intros h s W0 e s' W0' e' Hb.
    destruct (fill_neighs_body_inv _ _ _ _ _ _ _ _ _ _ Hb) as (-> & _ & Hf). auto.
  - split; [|auto].
    eapply (for_healpixs_frame up_to_neighbours up_to_neighbours_refl
                               up_to_neighbours_trans); [|exact Ef].
    intros h s W0 e s' W0' e' Hb.
    destruct (fill_neighs_body_inv _ _ _ _ _ _ _ _ _ _ Hb) as (-> & Hu & _). auto.
Qed.

Lemma fill_neighs_frame_witness :
  exists W',
    fill_neighs G0 math0 N0 [5%Z] (world_of (forest2 0 [3; 4] None)) = Some W'
    /\ world_frame up_to_neighbours (world_of (forest2 0 [3; 4] None)) W'
    /\ counter W' = 0%Z.
Proof.
  assert (H : { W' | fill_neighs G0 math0 N0 [5%Z] (world_of (forest2 0 [3; 4] None))
                     = Some W' }).
  { eexists. vm_compute. reflexivity. }
  destruct H as [W' H]. exists W'. split; [exact H|].
  destruct (fill_neighs_frame _ _ _ _ _ _ H) as (Hf & Hc & _).
  split; [exact Hf | exact Hc].
Defined.

(** *** delta.project *)


Lemma sumQ_zip_comm (x y : list Q) :
  sumQ (zip_with Qmult x y) == sumQ (zip_with Qmult y x).
Proof.
  revert y. induction x as [|a x IH]; intros [|b y]; simpl; try reflexivity.
  rewrite IH. ring.
Qed.

Lemma sumQ_shift (c : Q) (we de : list Q) :
  length de = length we ->
  sumQ (zip_with Qmult we (map (fun d => d - c) de))
  == sumQ (zip_with Qmult we de) - c * sumQ we.
Proof.
  revert de. induction we as [|w we IH]; intros [|d de] Hlen; simpl in *;
    try discriminate.
  - ring.
  - rewrite IH by lia. ring.
Qed.

Lemma sumQ_project (m c : Q) (we de lm : list Q) :
  length de = length we -> length lm = length we ->
  let de' := zip_with (fun d r => d - (m + r)) de (map (fun l => c * l) lm) in
  sumQ (zip_with Qmult we de')
  == sumQ (zip_with Qmult we de) - m * sumQ we - c * sumQ (zip_with Qmult we lm)
  /\ sumQ (zip_with Qmult (zip_with Qmult we de') lm)
     == sumQ (zip_with Qmult (zip_with Qmult we de) lm)
        - m * sumQ (zip_with Qmult we lm)
        - c * sumQ (zip_with (fun w l => w * (l * l)) we lm).
Proof.
  revert de lm. induction we as [|w we IH]; intros [|d de] [|l lm] Hd Hl;
    simpl in *; try discriminate.
  - split; ring.
  - destruct (IH de lm) as [I1 I2]; [lia | lia |]. simpl in I1, I2.
    rewrite I1, I2. split; ring.
Qed.

Lemma weighted_mean_centred (ll we : list Q) :
  length ll = length we -> ~ sumQ we == 0 ->
  sumQ (zip_with Qmult we (map (fun l => l - average ll we) ll)) == 0.
Proof.
  intros Hlen Hw. rewrite sumQ_shift by exact Hlen. unfold average.
  rewrite (sumQ_zip_comm ll we). field. exact Hw.
Qed.

Lemma project_inv (order : Z) (ll we de de' : list Q) :
  project order ll we de = Some de' ->
  length de = length we /\ ~ sumQ we == 0
  /\ ((order <> 1%Z /\ de' = map (fun d => d - (average de we + 0)) de)
      \/ (order = 1%Z /\ length ll = length we
          /\ let lm := map (fun l => l - average ll we) ll in
             let den := sumQ (zip_with (fun w l => w * (l * l)) we lm) in
             ~ den == 0
             /\ de' = zip_with (fun d r => d - (average de we + r)) de
                        (map (fun l => sumQ (zip_with Qmult (zip_with Qmult we de) lm)
                                       / den * l) lm))).
Proof.
  unfold project. intros H.
  destruct (Nat.eqb_spec (length de) (length we)) as [Hd|]; [|discriminate].
  simpl in H.
  destruct (Qeq_bool (sumQ we) 0) eqn:Ew; [discriminate|].
  apply Qeq_bool_neq in Ew. split; [exact Hd|]. split; [exact Ew|].
  destruct (Z.eqb_spec order 1) as [Ho|Ho].
  - right. split; [exact Ho|].
    destruct (Nat.eqb_spec (length ll) (length we)) as [Hl|]; [|discriminate].
    simpl in H. split; [exact Hl|]. cbv zeta.
    destruct (Qeq_bool _ 0) eqn:Ed; [discriminate|].
    apply Qeq_bool_neq in Ed. split; [exact Ed|]. congruence.
  - left. split; [exact Ho|]. congruence.
Qed.

(** X17.  [delta.project] keeps the number of pixels and leaves a
    [de] whose weighted sum is zero; at order 1 its weighted sum against
    [ll - mll] is zero as well. *)
Theorem project_removes_modes (order : Z) (ll we de de' : list Q) :
  project order ll we de = Some de' ->
  length de' = length de
  /\ sumQ (zip_with Qmult we de') == 0
  /\ (order = 1%Z ->
      sumQ (zip_with Qmult (zip_with Qmult we de')
                     (map (fun l => l - average ll we) ll)) == 0).
Proof.
  intros H. apply project_inv in H as (Hd & Hw & [[Ho ->] | (Ho & Hl & Hden & ->)]).
  - split; [apply length_map|]. split; [|intros; contradiction].
    rewrite (sumQ_shift (average de we + 0)) by exact Hd.
    unfold average. rewrite (sumQ_zip_comm de we). field. exact Hw.
  - set (lm := map (fun l => l - average ll we) ll) in *.
    set (den := sumQ (zip_with (fun w l => w * (l * l)) we lm)) in *.
    set (num := sumQ (zip_with Qmult (zip_with Qmult we de) lm)) in *.
    assert (Hlm : length lm = length we) by (unfold lm; rewrite length_map; exact Hl).
    destruct (sumQ_project (average de we) (num / den) we de lm Hd Hlm) as [S1 S2].
    cbv zeta in S1, S2.
    pose proof (weighted_mean_centred ll we Hl Hw) as Hc. fold lm in Hc.
    split; [rewrite length_zip_with, length_map; lia|]. split.
    + rewrite S1, Hc. unfold average. rewrite (sumQ_zip_comm de we). field.
      split; assumption.
    + intros _. rewrite S2, Hc. fold den. unfold num. field.
      first [exact Hden | split; assumption].
Qed.

Lemma project_removes_modes_witness :
  exists de',
    project 1 [3; 4; 6] [1; 1; 2] [1 # 2; 1 # 4; 1] = Some de'
    /\ sumQ (zip_with Qmult [1; 1; 2] de') == 0.
Proof.
  assert (H : { de' | project 1 [3; 4; 6] [1; 1; 2] [1 # 2; 1 # 4; 1] = Some de' }).
  { eexists. vm_compute. reflexivity. }
  destruct H as [de' H]. exists de'. split; [exact H|].
  exact (proj1 (proj2 (project_removes_modes _ _ _ _ _ H))).
Defined.





(** X19.  [delta.project] on a delta of one pixel.  With a weight of
    zero [np.average] raises.  With the pixel at [ll = 0.1], of weight
    3 and [de = 0.5], at order 1: the weighted mean of [ll] is not [ll]
    but the next float, the second moment is not zero, and the call
    returns [de = -0.5]; a second call returns [de = 0.5].  Over the
    rationals the second moment of the same pixel is zero, and
    [project] has no result for it. *)
Theorem project_one_pixel_b64 :
  (forall (order : Z) (ll de : b64) (s : bool),
      project_pixel_b64 order ll (S754_zero s) de = None)
  /\ (forall (order : Z) (ll de : Q), project order [ll] [0] [de] = None)
  /\ b64_to_Q tenth == 3602879701896397 # 36028797018963968
  /\ b64_to_Q half == 1 # 2
  /\ b64_to_Q (b64_div (b64_mul tenth (b64_of_Z 3)) (b64_of_Z 3)) - b64_to_Q tenth
     == 1 # 72057594037927936
  /\ project_pixel_b64 1 tenth (b64_of_Z 3) half = Some (SFopp half)
  /\ project_pixel_b64 1 tenth (b64_of_Z 3) (SFopp half) = Some half
  /\ project 1 [b64_to_Q tenth] [3] [1 # 2] = None.
Proof.
  split; [|split].
  - intros order ll de s. unfold project_pixel_b64. destruct s; reflexivity.
  - intros order ll de. unfold project. simpl length. simpl negb. cbv iota.
    replace (Qeq_bool (sumQ [0]) 0) with true by reflexivity. reflexivity.
  - split; [vm_compute; reflexivity|]. split; [vm_compute; reflexivity|].
    split; [vm_compute; reflexivity|]. split; [vm_compute; reflexivity|].
    split; vm_compute; reflexivity.
Qed.
